(** * RTEmsg Linux compatibility layer: [platform_compat.c]

    A shallow embedding of the wide-character path and file wrappers of
    [Code/platform_compat.c] together with the properties of its
    specification.

    The wrappers are thin: each one narrows its wide arguments with
    [wcstombs], calls a POSIX primitive and widens the answer with
    [mbstowcs].  The embedding therefore consists of

    - a model of the C library's locale dependent conversions
      ([Module Locale]),
    - a small machine state (memory objects, the [malloc] heap, [errno],
      the process locale, the two function-local statics and a log of the
      calls made to the C library and to the kernel),
    - the eight functions of the file, transcribed statement by statement
      into a state-and-fault monad. *)

From stdpp Require Import gmap list.
From Stdlib Require Import ZArith Lia.

Local Open Scope Z_scope.

(** ** The C library's multibyte conversions *)

Module Locale.

(** The [LC_CTYPE] category of the process locale.  A process starts in
    the "C" locale; [setlocale(LC_CTYPE, "C.UTF-8")] switches to UTF-8. *)
Inductive locale_t := LC_C | LC_UTF8.

(** A Unicode scalar value: what a UTF-8 locale can represent. *)
Definition scalar (c : Z) : bool :=
  (0 <=? c) && (c <? 0x110000) && negb ((0xD800 <=? c) && (c <? 0xE000)).

(** [wcrtomb] for one wide character in a UTF-8 locale (RFC 3629). *)
Definition utf8_encode (c : Z) : option (list Z) :=
  if negb (scalar c) then None
  else if c <? 0x80 then Some [c]
  else if c <? 0x800 then Some [0xC0 + c / 64; 0x80 + c mod 64]
  else if c <? 0x10000 then
    Some [0xE0 + c / 4096; 0x80 + (c / 64) mod 64; 0x80 + c mod 64]
  else
    Some [0xF0 + c / 262144; 0x80 + (c / 4096) mod 64;
          0x80 + (c / 64) mod 64; 0x80 + c mod 64].

(** A UTF-8 continuation byte [10xxxxxx]. *)
Definition cont (b : Z) : bool := (0x80 <=? b) && (b <? 0xC0).

(** [mbrtowc] for one character in a UTF-8 locale: the decoded character
    and the remaining bytes, or [None] for an invalid or truncated
    sequence (overlong forms, surrogates and values above U+10FFFF are
    invalid). *)
Definition utf8_decode (bs : list Z) : option (Z * list Z) :=
  match bs with
  | [] => None
  | b0 :: r0 =>
    if (0 <=? b0) && (b0 <? 0x80) then Some (b0, r0)
    else if (0xC2 <=? b0) && (b0 <? 0xE0) then
      match r0 with
      | b1 :: r1 =>
        if cont b1 then Some ((b0 - 0xC0) * 64 + (b1 - 0x80), r1) else None
      | _ => None
      end
    else if (0xE0 <=? b0) && (b0 <? 0xF0) then
      match r0 with
      | b1 :: b2 :: r2 =>
        let c := (b0 - 0xE0) * 4096 + (b1 - 0x80) * 64 + (b2 - 0x80) in
        if cont b1 && cont b2 && (0x800 <=? c) && scalar c
        then Some (c, r2) else None
      | _ => None
      end
    else if (0xF0 <=? b0) && (b0 <? 0xF8) then
      match r0 with
      | b1 :: b2 :: b3 :: r3 =>
        let c := (b0 - 0xF0) * 262144 + (b1 - 0x80) * 4096
                 + (b2 - 0x80) * 64 + (b3 - 0x80) in
        if cont b1 && cont b2 && cont b3 && (0x10000 <=? c) && scalar c
        then Some (c, r3) else None
      | _ => None
      end
    else None
  end.

(** One wide character to bytes in the given locale.  The "C" locale is
    7-bit ASCII. *)
Definition wc_to_mb (l : locale_t) (c : Z) : option (list Z) :=
  match l with
  | LC_UTF8 => utf8_encode c
  | LC_C => if (0 <=? c) && (c <? 0x80) then Some [c] else None
  end.

(** One character from a byte sequence in the given locale. *)
Definition mb_to_wc (l : locale_t) (bs : list Z) : option (Z * list Z) :=
  match l with
  | LC_UTF8 => utf8_decode bs
  | LC_C =>
    match bs with
    | b :: r => if (0 <=? b) && (b <? 0x80) then Some (b, r) else None
    | [] => None
    end
  end.

(** Result of a string conversion: the cells stored through the
    destination pointer and the function's return value ([None] is
    [(size_t)-1]). *)
Record conv := Conv { written : list Z; count : option Z }.

(** [wcstombs(dst, src, n)] on the characters [ws] of [src] before its
    terminator.  [used] bytes are already stored.  Conversion stops
    when the next character does not fit in [n] bytes, at an
    unconvertible character (error, the bytes stored so far stay), or
    at the terminator, which is stored if there is room and not
    counted. *)
Fixpoint wcstombs_from (l : locale_t) (n used : Z) (ws : list Z) : conv :=
  match ws with
  | [] => if used <? n then Conv [0] (Some used) else Conv [] (Some used)
  | c :: ws' =>
    match wc_to_mb l c with
    | None => Conv [] None
    | Some bs =>
      let used' := used + Z.of_nat (length bs) in
      if n <? used' then Conv [] (Some used)
      else
        let r := wcstombs_from l n used' ws' in
        Conv (bs ++ written r) (count r)
    end
  end.

Definition wcstombs_conv (l : locale_t) (n : Z) (ws : list Z) : conv :=
  wcstombs_from l n 0 ws.

(** [wcstombs(NULL, src, 0)]: the number of bytes the whole string
    needs, terminator excluded. *)
Fixpoint wcstombs_len (l : locale_t) (ws : list Z) : option Z :=
  match ws with
  | [] => Some 0
  | c :: ws' =>
    match wc_to_mb l c with
    | None => None
    | Some bs =>
      match wcstombs_len l ws' with
      | None => None
      | Some k => Some (Z.of_nat (length bs) + k)
      end
    end
  end.

(** [mbstowcs(dst, src, n)] on the bytes [bs] of [src] before its
    terminator: at most [n] wide characters are stored.  [done_] wide
    characters are already stored. *)
Fixpoint mbstowcs_from (l : locale_t) (n : nat) (done_ : Z) (bs : list Z)
  : conv :=
  match n with
  | O => Conv [] (Some done_)
  | S n' =>
    match bs with
    | [] => Conv [0] (Some done_)
    | _ =>
      match mb_to_wc l bs with
      | None => Conv [] None
      | Some (c, rest) =>
        let r := mbstowcs_from l n' (done_ + 1) rest in
        Conv (c :: written r) (count r)
      end
    end
  end.

Definition mbstowcs_conv (l : locale_t) (n : Z) (bs : list Z) : conv :=
  mbstowcs_from l (Z.to_nat n) 0 bs.

(** [mbstowcs(NULL, src, 0)]: the number of wide characters of the
    whole string.  A character takes at least one byte, so a bound of
    [length bs + 1] characters never cuts the count short. *)
Definition mbstowcs_len (l : locale_t) (bs : list Z) : option Z :=
  count (mbstowcs_from l (S (length bs)) 0 bs).

(** The wide characters a byte string decodes to, when all of it is
    valid.  Every character consumes a byte, so [length bs] steps
    suffice. *)
Fixpoint decode_from (l : locale_t) (fuel : nat) (bs : list Z)
  : option (list Z) :=
  match bs with
  | [] => Some []
  | _ =>
    match fuel with
    | O => None
    | S fuel' =>
      match mb_to_wc l bs with
      | None => None
      | Some (c, rest) =>
        match decode_from l fuel' rest with
        | Some ws => Some (c :: ws)
        | None => None
        end
      end
    end
  end.

Definition decode (l : locale_t) (bs : list Z) : option (list Z) :=
  decode_from l (length bs) bs.

(** The bytes a wide string encodes to, when all of it is
    representable. *)
Fixpoint encode (l : locale_t) (ws : list Z) : option (list Z) :=
  match ws with
  | [] => Some []
  | c :: ws' =>
    match wc_to_mb l c, encode l ws' with
    | Some bs, Some r => Some (bs ++ r)
    | _, _ => None
    end
  end.

(** The characters a locale can represent: ASCII in the "C" locale,
    every Unicode scalar value in a UTF-8 locale. *)
Definition representable (l : locale_t) (c : Z) : bool :=
  match l with
  | LC_C => (0 <=? c) && (c <? 0x80)
  | LC_UTF8 => scalar c
  end.

End Locale.

Export Locale.

(** ** Constants of the platform

    The values [<errno.h>], [<limits.h>] and [<stdint.h>] give on
    x86-64 Linux; [platform_compat.h] only names them. *)

Definition EINVAL : Z := 22.
Definition ENOMEM : Z := 12.
Definition ERANGE : Z := 34.
Definition EILSEQ : Z := 84.
Definition ENAMETOOLONG : Z := 36.
Definition PATH_MAX : Z := 4096.
Definition CP_UTF8 : Z := 65001.
Definition SIZE_MAX : Z := 2 ^ 64 - 1.
Definition PTRDIFF_MAX : Z := 2 ^ 63 - 1.
Definition INT_MAX : Z := 2 ^ 31 - 1.
Definition sizeof_wchar_t : Z := 4.

(** Conversion to [size_t]: reduction modulo [2^64]. *)
Definition to_size_t (z : Z) : Z := z mod 2 ^ 64.

(** Conversion to [int]: the two's complement value of the low 32 bits. *)
Definition to_int (z : Z) : Z := (z + 2 ^ 31) mod 2 ^ 32 - 2 ^ 31.

(** ** Pointers and strings *)

(** A data pointer: null, the start of a memory object, the static array
    [program_path] of [get_pgmptr_compat], or an array with automatic
    storage, which the model carries by value ([resolved] in
    [wfullpath_compat]). *)
Inductive ptr :=
| NULL
| Ptr (b : nat)
| ProgramPath
| Auto (cells : list Z).

Definition is_null (p : ptr) : bool :=
  match p with NULL => true | _ => false end.

(** A [FILE *]: null or a stream handle. *)
Definition file_ptr := option nat.

(** The string an array holds: the cells before the first NUL.  An array
    without a NUL holds no string (reading it runs off its end). *)
Fixpoint cstr (cells : list Z) : option (list Z) :=
  match cells with
  | [] => None
  | c :: r => if c =? 0 then Some [] else (c ::.) <$> cstr r
  end.

(** The cells before the first NUL, or all of them. *)
Fixpoint until_nul (cells : list Z) : list Z :=
  match cells with
  | [] => []
  | c :: r => if c =? 0 then [] else c :: until_nul r
  end.

(** What [strncpy(dst, src, n)] stores: the string of [src] cut at [n]
    characters and padded with NUL up to [n]; [None] when [src] ends
    before [n] cells without a NUL. *)
Fixpoint strncpy_cells (cells : list Z) (n : nat) {struct n}
  : option (list Z) :=
  match n with
  | O => Some []
  | S n' =>
    match cells with
    | [] => None
    | c :: r =>
      if c =? 0 then Some (replicate (S n') 0)
      else (c ::.) <$> strncpy_cells r n'
    end
  end.

(** The literal ["/proc/self/exe"]. *)
Definition proc_self_exe : list Z :=
  [47; 112; 114; 111; 99; 47; 115; 101; 108; 102; 47; 101; 120; 101].

(** ** The operating system

    The kernel's file system primitives are collaborators the layer
    takes as given: an interface over an abstract world [W].  Each
    primitive answers with a value or with an error number.

    [setlocale] looks for the files of the locale it is asked for.
    What that search leaves in [errno] depends on the system and is
    not restored by the C library, also when the call succeeds:
    [setlocale_errno] is that error number, [None] when [errno] is not
    touched. *)

Inductive sysres (A : Type) :=
| SysOk (a : A)
| SysErr (e : Z).
Arguments SysOk {A} a.
Arguments SysErr {A} e.

Class Posix (W : Type) := {
  sys_chdir : list Z -> W -> sysres unit * W;
  sys_getcwd : W -> sysres (list Z) * W;
  sys_realpath : list Z -> W -> sysres (list Z) * W;
  sys_readlink : list Z -> W -> sysres (list Z) * W;
  sys_fopen : list Z -> list Z -> W -> sysres nat * W;
  sys_remove : list Z -> W -> sysres unit * W;
  sys_rename : list Z -> list Z -> W -> sysres unit * W;
  setlocale_errno : W -> option Z
}.

(** ** Calls observed at the boundary of the file *)

Inductive event :=
| EvWcstombs (dst src : ptr) (n : Z)
| EvMbstowcs (dst src : ptr) (n : Z)
| EvMalloc (n : Z) (r : ptr)
| EvFree (p : ptr)
| EvSetlocale
| EvChdir (path : list Z)
| EvGetcwd
| EvRealpath (path : list Z)
| EvReadlink (path : list Z)
| EvFopen (filename mode : list Z)
| EvRemove (filename : list Z)
| EvRename (oldname newname : list Z).

Definition is_setlocale (e : event) : bool :=
  match e with EvSetlocale => true | _ => false end.

Definition is_conversion (e : event) : bool :=
  match e with EvWcstombs _ _ _ | EvMbstowcs _ _ _ => true | _ => false end.

(** ** Machine state *)

Record state (W : Type) := State {
  mem : gmap nat (list Z);      (* arrays of [char] or [wchar_t] cells *)
  heap : gset nat;              (* objects [malloc] gave and [free] has not taken *)
  pcells : gmap nat ptr;        (* objects of type [char *] *)
  program_path : list Z;        (* [static char program_path[PATH_MAX]] *)
  locale_set : bool;            (* [static int locale_set] *)
  errno : Z;
  locale : locale_t;            (* [LC_CTYPE] of the process *)
  c_utf8_installed : bool;      (* whether the system has "C.UTF-8" *)
  alloc_script : list bool;     (* outcomes of the coming [malloc] calls *)
  world : W;
  trace : list event
}.
Arguments State {W}.
Arguments mem {W}.
Arguments heap {W}.
Arguments pcells {W}.
Arguments program_path {W}.
Arguments locale_set {W}.
Arguments errno {W}.
Arguments locale {W}.
Arguments c_utf8_installed {W}.
Arguments alloc_script {W}.
Arguments world {W}.
Arguments trace {W}.

Section Machine.
Context {W : Type} {OS : Posix W}.

Local Abbreviation st := (state W).

Definition set_mem (m : gmap nat (list Z)) (s : st) : st :=
  State m (heap s) (pcells s) (program_path s) (locale_set s) (errno s)
        (locale s) (c_utf8_installed s) (alloc_script s) (world s) (trace s).
Definition set_heap (h : gset nat) (s : st) : st :=
  State (mem s) h (pcells s) (program_path s) (locale_set s) (errno s)
        (locale s) (c_utf8_installed s) (alloc_script s) (world s) (trace s).
Definition set_pcells (c : gmap nat ptr) (s : st) : st :=
  State (mem s) (heap s) c (program_path s) (locale_set s) (errno s)
        (locale s) (c_utf8_installed s) (alloc_script s) (world s) (trace s).
Definition set_program_path (a : list Z) (s : st) : st :=
  State (mem s) (heap s) (pcells s) a (locale_set s) (errno s)
        (locale s) (c_utf8_installed s) (alloc_script s) (world s) (trace s).
Definition set_locale_set (b : bool) (s : st) : st :=
  State (mem s) (heap s) (pcells s) (program_path s) b (errno s)
        (locale s) (c_utf8_installed s) (alloc_script s) (world s) (trace s).
Definition set_errno (e : Z) (s : st) : st :=
  State (mem s) (heap s) (pcells s) (program_path s) (locale_set s) e
        (locale s) (c_utf8_installed s) (alloc_script s) (world s) (trace s).
Definition set_locale (l : locale_t) (s : st) : st :=
  State (mem s) (heap s) (pcells s) (program_path s) (locale_set s) (errno s)
        l (c_utf8_installed s) (alloc_script s) (world s) (trace s).
Definition set_alloc_script (a : list bool) (s : st) : st :=
  State (mem s) (heap s) (pcells s) (program_path s) (locale_set s) (errno s)
        (locale s) (c_utf8_installed s) a (world s) (trace s).
Definition set_world (w : W) (s : st) : st :=
  State (mem s) (heap s) (pcells s) (program_path s) (locale_set s) (errno s)
        (locale s) (c_utf8_installed s) (alloc_script s) w (trace s).
Definition log (e : event) (s : st) : st :=
  State (mem s) (heap s) (pcells s) (program_path s) (locale_set s) (errno s)
        (locale s) (c_utf8_installed s) (alloc_script s) (world s)
        (trace s ++ [e]).

(** *** The monad: state passing, with a fault for undefined behaviour *)

Inductive outcome (A : Type) :=
| Done (a : A) (s : st)
| Fault.
Arguments Done {A} a s.
Arguments Fault {A}.

Definition M (A : Type) := st -> outcome A.

Definition ret {A} (a : A) : M A := fun s => Done a s.

Definition bind {A B} (m : M A) (k : A -> M B) : M B :=
  fun s => match m s with Done a s' => k a s' | Fault => Fault end.

Definition fault {A} : M A := fun _ => Fault.

Definition get {A} (f : st -> A) : M A := fun s => Done (f s) s.

Definition modify (f : st -> st) : M unit := fun s => Done tt (f s).

Notation "x <- m ;; k" := (bind m (fun x => k))
  (at level 100, m at next level, right associativity).
Notation "m ;; k" := (bind m (fun _ => k))
  (at level 100, right associativity).

(** *** Memory accesses *)

(** The array a pointer designates. *)
Definition load (p : ptr) (s : st) : option (list Z) :=
  match p with
  | NULL => None
  | Ptr b => mem s !! b
  | ProgramPath => Some (program_path s)
  | Auto cells => Some cells
  end.

Definition update (p : ptr) (cells : list Z) (s : st) : option st :=
  match p with
  | Ptr b => Some (set_mem (<[b := cells]> (mem s)) s)
  | ProgramPath => Some (set_program_path cells s)
  | NULL | Auto _ => None
  end.

(** Read the string at [p]; a null or dangling pointer or a missing
    terminator is a fault. *)
Definition read_str (p : ptr) : M (list Z) := fun s =>
  match load p s ≫= cstr with
  | Some str => Done str s
  | None => Fault
  end.

(** Store [cells] at the start of the array at [p]; running past its
    end is a fault. *)
Definition store_at (p : ptr) (cells : list Z) : M unit := fun s =>
  match load p s with
  | Some old =>
    if (length cells <=? length old)%nat then
      match update p (cells ++ drop (length cells) old) s with
      | Some s' => Done tt s'
      | None => Fault
      end
    else Fault
  | None => Fault
  end.

(** [p[i] = v]. *)
Definition store_idx (p : ptr) (i : Z) (v : Z) : M unit := fun s =>
  match load p s with
  | Some old =>
    if (0 <=? i) && (i <? Z.of_nat (length old)) then
      match update p (<[Z.to_nat i := v]> old) s with
      | Some s' => Done tt s'
      | None => Fault
      end
    else Fault
  | None => Fault
  end.

(** [*pp = v] for [char **pp]. *)
Definition store_ptr (pp : option nat) (v : ptr) : M unit := fun s =>
  match pp with
  | Some a =>
    match pcells s !! a with
    | Some _ => Done tt (set_pcells (<[a := v]> (pcells s)) s)
    | None => Fault
    end
  | None => Fault
  end.

(** *** The C library *)

(** [malloc(n)], the result assigned to a pointer to elements of [elt]
    bytes.  A request above [PTRDIFF_MAX] fails; otherwise the script
    decides, and an exhausted script lets the call succeed.  A failed
    call sets [ENOMEM].  The new object is distinct from every object
    in memory. *)
Definition malloc (elt n : Z) : M ptr := fun s =>
  let fail rest :=
    Done NULL (log (EvMalloc n NULL)
                 (set_errno ENOMEM (set_alloc_script rest s))) in
  if PTRDIFF_MAX <? n then fail (alloc_script s)
  else
    match alloc_script s with
    | false :: rest => fail rest
    | script =>
      let b := fresh (dom (mem s) ∪ heap s) in
      Done (Ptr b)
           (log (EvMalloc n (Ptr b))
              (set_alloc_script (tail script)
                 (set_heap ({[b]} ∪ heap s)
                    (set_mem (<[b := replicate (Z.to_nat (n / elt)) 0]> (mem s))
                       s))))
    end.

(** [free(p)]: nothing for a null pointer; a fault for anything that is
    not a live [malloc] object. *)
Definition free (p : ptr) : M unit := fun s =>
  match p with
  | NULL => Done tt (log (EvFree NULL) s)
  | Ptr b =>
    if decide (b ∈ heap s) then
      Done tt (log (EvFree p)
                 (set_heap (heap s ∖ {[b]}) (set_mem (delete b (mem s)) s)))
    else Fault
  | _ => Fault
  end.

(** [wcstombs(dst, src, n)].  With a null [dst] only the length is
    computed and nothing is stored.  An unconvertible character gives
    [(size_t)-1] and [EILSEQ].  The length returned is that of a string
    in memory, hence below [SIZE_MAX] in any execution; the model
    returns it as it is. *)
Definition wcstombs (dst src : ptr) (n : Z) : M Z :=
  ws <- read_str src;;
  modify (log (EvWcstombs dst src n));;
  l <- get locale;;
  if is_null dst then
    match wcstombs_len l ws with
    | Some k => ret k
    | None => modify (set_errno EILSEQ);; ret SIZE_MAX
    end
  else
    let r := wcstombs_conv l n ws in
    store_at dst (written r);;
    match count r with
    | Some k => ret k
    | None => modify (set_errno EILSEQ);; ret SIZE_MAX
    end.

(** [mbstowcs(dst, src, n)], likewise. *)
Definition mbstowcs (dst src : ptr) (n : Z) : M Z :=
  bs <- read_str src;;
  modify (log (EvMbstowcs dst src n));;
  l <- get locale;;
  if is_null dst then
    match mbstowcs_len l bs with
    | Some k => ret k
    | None => modify (set_errno EILSEQ);; ret SIZE_MAX
    end
  else
    let r := mbstowcs_conv l n bs in
    store_at dst (written r);;
    match count r with
    | Some k => ret k
    | None => modify (set_errno EILSEQ);; ret SIZE_MAX
    end.

(** [strlen(p)]. *)
Definition strlen (p : ptr) : M Z :=
  str <- read_str p;; ret (Z.of_nat (length str)).

(** [strncpy(dst, src, n)]. *)
Definition strncpy (dst src : ptr) (n : Z) : M unit := fun s =>
  match load src s ≫= (fun cells => strncpy_cells cells (Z.to_nat n)) with
  | Some cells => store_at dst cells s
  | None => Fault
  end.

(** What the search for the files of a locale does to [errno]. *)
Definition locale_lookup (s : st) : st :=
  match setlocale_errno (world s) with
  | Some e => set_errno e s
  | None => s
  end.

(** [setlocale(LC_CTYPE, "C.UTF-8")]; the file ignores its result and
    does not save [errno] around it.  The call takes effect when the
    system has the locale. *)
Definition setlocale_ctype_utf8 : M unit :=
  modify (log EvSetlocale);;
  modify locale_lookup;;
  inst <- get c_utf8_installed;;
  if inst then modify (set_locale LC_UTF8) else ret tt.

(** A system call: the world moves on, an error lands in [errno]. *)
Definition syscall {A} (f : W -> sysres A * W) : M (option A) := fun s =>
  match f (world s) with
  | (SysOk a, w) => Done (Some a) (set_world w s)
  | (SysErr e, w) => Done None (set_errno e (set_world w s))
  end.

Definition status (r : option unit) : Z :=
  match r with Some _ => 0 | None => -1 end.

(** [chdir(path)]. *)
Definition chdir (path : ptr) : M Z :=
  str <- read_str path;;
  modify (log (EvChdir str));;
  r <- syscall (sys_chdir str);;
  ret (status r).

(** [getcwd(NULL, 0)]: the working directory in a new [malloc] object
    of just the size of the string. *)
Definition getcwd_alloc : M ptr :=
  modify (log EvGetcwd);;
  r <- syscall sys_getcwd;;
  match r with
  | None => ret NULL
  | Some path =>
    let str := until_nul path in
    p <- malloc 1 (Z.of_nat (length str) + 1);;
    if is_null p then ret NULL
    else store_at p (str ++ [0]);; ret p
  end.

(** [realpath(path, resolved)] for [char resolved[PATH_MAX]]: the array
    as the call leaves it, or [None] for a null result. *)
Definition realpath (path : ptr) : M (option (list Z)) :=
  str <- read_str path;;
  modify (log (EvRealpath str));;
  r <- syscall (sys_realpath str);;
  match r with
  | None => ret None
  | Some res =>
    let res := until_nul res in
    if PATH_MAX <=? Z.of_nat (length res) then
      modify (set_errno ENAMETOOLONG);; ret None
    else ret (Some (res ++ [0]))
  end.

(** [readlink(path, buf, bufsiz)]: at most [bufsiz] bytes of the link's
    target are stored, without a terminator; the result is their number
    or -1. *)
Definition readlink (path : list Z) (buf : ptr) (bufsiz : Z) : M Z :=
  modify (log (EvReadlink path));;
  r <- syscall (sys_readlink path);;
  match r with
  | None => ret (-1)
  | Some target =>
    let data := take (Z.to_nat bufsiz) target in
    store_at buf data;;
    ret (Z.of_nat (length data))
  end.

(** [fopen(filename, mode)].  The stream is an object of the world, not
    of the heap this model tracks. *)
Definition fopen (filename mode : ptr) : M file_ptr :=
  f <- read_str filename;;
  m <- read_str mode;;
  modify (log (EvFopen f m));;
  syscall (sys_fopen f m).

(** [remove(filename)]. *)
Definition remove (filename : ptr) : M Z :=
  f <- read_str filename;;
  modify (log (EvRemove f));;
  r <- syscall (sys_remove f);;
  ret (status r).

(** [rename(oldname, newname)]. *)
Definition rename (oldname newname : ptr) : M Z :=
  o <- read_str oldname;;
  n <- read_str newname;;
  modify (log (EvRename o n));;
  r <- syscall (sys_rename o n);;
  ret (status r).

(** ** The functions of [platform_compat.c] *)

(** [int wchdir_compat(const wchar_t *path)] *)
Definition wchdir_compat (path : ptr) : M Z :=
  if is_null path then
    modify (set_errno EINVAL);; ret (-1)
  else
    len <- wcstombs NULL path 0;;
    if len =? SIZE_MAX then ret (-1)
    else
      mbpath <- malloc 1 (to_size_t (len + 1));;
      if is_null mbpath then
        modify (set_errno ENOMEM);; ret (-1)
      else
        wcstombs mbpath path (to_size_t (len + 1));;
        result <- chdir mbpath;;
        free mbpath;;
        ret result.

(** [wchar_t* wgetcwd_compat(wchar_t *buffer, size_t size)] *)
Definition wgetcwd_compat (buffer : ptr) (size : Z) : M ptr :=
  mbpath <- getcwd_alloc;;
  if is_null mbpath then ret NULL
  else
    len <- mbstowcs NULL mbpath 0;;
    if len =? SIZE_MAX then
      free mbpath;; modify (set_errno EILSEQ);; ret NULL
    else
      let convert (result_buffer : ptr) :=
        mbstowcs result_buffer mbpath (to_size_t (len + 1));;
        free mbpath;;
        ret result_buffer in
      if is_null buffer || (size =? 0) then
        result_buffer <-
          malloc sizeof_wchar_t (to_size_t ((len + 1) * sizeof_wchar_t));;
        if is_null result_buffer then
          free mbpath;; modify (set_errno ENOMEM);; ret NULL
        else convert result_buffer
      else
        if size <=? len then
          free mbpath;; modify (set_errno ERANGE);; ret NULL
        else convert buffer.

(** [int get_pgmptr_compat(char **ptr)] *)
Definition get_pgmptr_compat (ptr : option nat) : M Z :=
  len <- readlink proc_self_exe ProgramPath (PATH_MAX - 1);;
  if len =? -1 then ret (-1)
  else
    store_idx ProgramPath len 0;;
    store_ptr ptr ProgramPath;;
    ret 0.

(** [wchar_t* wfullpath_compat(wchar_t *dst, const wchar_t *src, size_t size)] *)
Definition wfullpath_compat (dst src : ptr) (size : Z) : M ptr :=
  if is_null dst || is_null src || (size =? 0) then
    modify (set_errno EINVAL);; ret NULL
  else
    len <- wcstombs NULL src 0;;
    if len =? SIZE_MAX then ret NULL
    else
      mbsrc <- malloc 1 (to_size_t (len + 1));;
      if is_null mbsrc then
        modify (set_errno ENOMEM);; ret NULL
      else
        wcstombs mbsrc src (to_size_t (len + 1));;
        r <- realpath mbsrc;;
        match r with
        | None => free mbsrc;; ret NULL
        | Some resolved =>
          free mbsrc;;
          len <- mbstowcs NULL (Auto resolved) 0;;
          if (len =? SIZE_MAX) || (size <=? len) then
            modify (set_errno ERANGE);; ret NULL
          else
            mbstowcs dst (Auto resolved) size;;
            ret dst
        end.

(** [int MultiByteToWideChar_compat(unsigned int cp, unsigned long flags,
        const char *src, int srclen, wchar_t *dst, int dstlen)] *)
Definition MultiByteToWideChar_compat
    (cp flags : Z) (src : ptr) (srclen : Z) (dst : ptr) (dstlen : Z) : M Z :=
  if is_null src || is_null dst || (dstlen <=? 0) then ret 0
  else
    done_ <- get locale_set;;
    (if negb done_ then
       setlocale_ctype_utf8;; modify (set_locale_set true)
     else ret tt);;
    srclen <- (if srclen =? -1 then n <- strlen src;; ret (to_int n)
               else ret srclen);;
    (* [srclen + 1] is an [int] addition: overflow is undefined *)
    if srclen =? INT_MAX then fault
    else
      temp_src <- malloc 1 (to_size_t (srclen + 1));;
      if is_null temp_src then ret 0
      else
        strncpy temp_src src (to_size_t srclen);;
        store_idx temp_src srclen 0;;
        result <- mbstowcs dst temp_src (to_size_t (dstlen - 1));;
        free temp_src;;
        if result =? SIZE_MAX then ret 0
        else
          if result <? to_size_t (dstlen - 1) then
            store_idx dst result 0;;
            ret (to_int result)
          else
            store_idx dst (dstlen - 1) 0;;
            ret (to_int (to_size_t (dstlen - 1))).

(** [FILE* _wfopen(const wchar_t *filename, const wchar_t *mode)] *)
Definition _wfopen (filename mode : ptr) : M file_ptr :=
  if is_null filename || is_null mode then
    modify (set_errno EINVAL);; ret None
  else
    fname_len <- wcstombs NULL filename 0;;
    if fname_len =? SIZE_MAX then ret None
    else
      mbfilename <- malloc 1 (to_size_t (fname_len + 1));;
      if is_null mbfilename then
        modify (set_errno ENOMEM);; ret None
      else
        wcstombs mbfilename filename (to_size_t (fname_len + 1));;
        mode_len <- wcstombs NULL mode 0;;
        if mode_len =? SIZE_MAX then
          free mbfilename;; ret None
        else
          mbmode <- malloc 1 (to_size_t (mode_len + 1));;
          if is_null mbmode then
            free mbfilename;; modify (set_errno ENOMEM);; ret None
          else
            wcstombs mbmode mode (to_size_t (mode_len + 1));;
            result <- fopen mbfilename mbmode;;
            free mbfilename;;
            free mbmode;;
            ret result.

(** [int _wremove(const wchar_t *filename)] *)
Definition _wremove (filename : ptr) : M Z :=
  if is_null filename then
    modify (set_errno EINVAL);; ret (-1)
  else
    len <- wcstombs NULL filename 0;;
    if len =? SIZE_MAX then ret (-1)
    else
      mbfilename <- malloc 1 (to_size_t (len + 1));;
      if is_null mbfilename then
        modify (set_errno ENOMEM);; ret (-1)
      else
        wcstombs mbfilename filename (to_size_t (len + 1));;
        result <- remove mbfilename;;
        free mbfilename;;
        ret result.

(** [int _wrename(const wchar_t *oldname, const wchar_t *newname)] *)
Definition _wrename (oldname newname : ptr) : M Z :=
  if is_null oldname || is_null newname then
    modify (set_errno EINVAL);; ret (-1)
  else
    old_len <- wcstombs NULL oldname 0;;
    if old_len =? SIZE_MAX then ret (-1)
    else
      mboldname <- malloc 1 (to_size_t (old_len + 1));;
      if is_null mboldname then
        modify (set_errno ENOMEM);; ret (-1)
      else
        wcstombs mboldname oldname (to_size_t (old_len + 1));;
        new_len <- wcstombs NULL newname 0;;
        if new_len =? SIZE_MAX then
          free mboldname;; ret (-1)
        else
          mbnewname <- malloc 1 (to_size_t (new_len + 1));;
          if is_null mbnewname then
            free mboldname;; modify (set_errno ENOMEM);; ret (-1)
          else
            wcstombs mbnewname newname (to_size_t (new_len + 1));;
            result <- rename mboldname mbnewname;;
            free mboldname;;
            free mbnewname;;
            ret result.

(** ** Vocabulary of the properties *)

(** [p] holds the string [str] in state [s]. *)
Definition holds (s : st) (p : ptr) (str : list Z) : Prop :=
  load p s ≫= cstr = Some str.

(** The object [malloc] is about to return. *)
Definition next_block (s : st) : nat := fresh (dom (mem s) ∪ heap s).

(** The coming [malloc] of [n] bytes succeeds. *)
Definition alloc_ok (s : st) (n : Z) : Prop :=
  n <= PTRDIFF_MAX /\ hd true (alloc_script s) = true.

(** The narrowing idiom the file repeats for every wide argument: query
    the length, allocate, convert.  [on_bad] and [on_nomem] are the two
    early exits and [next] the rest of the function.  The functions
    above spell the idiom out, as the C file does; each of them unfolds
    to this shape. *)
Definition narrow {A} (src : ptr) (on_bad on_nomem : M A) (next : ptr -> M A)
  : M A :=
  len <- wcstombs NULL src 0;;
  if len =? SIZE_MAX then on_bad
  else
    mb <- malloc 1 (to_size_t (len + 1));;
    if is_null mb then on_nomem
    else wcstombs mb src (to_size_t (len + 1));; next mb.

(** The state once [src], whose string encodes to [bs], is narrowed:
    a new object holds [bs] and its terminator. *)
Definition narrowed (s : st) (src : ptr) (bs : list Z) : st :=
  let n := Z.of_nat (length bs) + 1 in
  State (<[next_block s := bs ++ [0]]> (mem s)) ({[next_block s]} ∪ heap s)
        (pcells s) (program_path s) (locale_set s) (errno s) (locale s)
        (c_utf8_installed s) (tail (alloc_script s)) (world s)
        (trace s ++ [EvWcstombs NULL src 0; EvMalloc n (Ptr (next_block s));
                     EvWcstombs (Ptr (next_block s)) src n]).

(** The state once [getcwd(NULL, 0)] has answered [cwd] in a new
    object, the world being [w] by then. *)
Definition fetched (s : st) (cwd : list Z) (w : W) : st :=
  let n := Z.of_nat (length cwd) + 1 in
  State (<[next_block s := cwd ++ [0]]> (mem s)) ({[next_block s]} ∪ heap s)
        (pcells s) (program_path s) (locale_set s) (errno s) (locale s)
        (c_utf8_installed s) (tail (alloc_script s)) w
        (trace s ++ [EvGetcwd; EvMalloc n (Ptr (next_block s))]).

(** The state once the locale set-up of [MultiByteToWideChar_compat] is
    past: untouched when the flag was set, otherwise after one
    [setlocale] call, [errno] being what that call left. *)
Definition setup (s : st) : st :=
  if locale_set s then s
  else
    set_locale_set true
      ((if c_utf8_installed s then set_locale LC_UTF8 else id)
         (locale_lookup (log EvSetlocale s))).

(** The source length [MultiByteToWideChar_compat] works with: the
    length of the string for [srclen = -1], else [srclen] itself. *)
Definition source_length (cells : list Z) (srclen : Z) : option Z :=
  if srclen =? -1 then (fun str => Z.of_nat (length str)) <$> cstr cells
  else Some srclen.

(** The state once the object [b] is released and [evs] are logged. *)
Definition released (b : nat) (evs : list event) (s : st) : st :=
  State (delete b (mem s)) (heap s ∖ {[b]})
        (pcells s) (program_path s) (locale_set s) (errno s) (locale s)
        (c_utf8_installed s) (alloc_script s) (world s) (trace s ++ evs).

(** What a system call's answer does to the state, and the value the C
    library hands back. *)
Definition after_sys {A} (r : sysres A * W) (s : st) : st :=
  match r with
  | (SysOk _, w) => set_world w s
  | (SysErr e, w) => set_errno e (set_world w s)
  end.

Definition sys_value {A} (r : sysres A * W) : option A :=
  match r with
  | (SysOk a, _) => Some a
  | (SysErr _, _) => None
  end.

(** How many logged calls satisfy [f]. *)
Fixpoint count_events (f : event -> bool) (evs : list event) : nat :=
  match evs with
  | [] => 0
  | e :: r => (if f e then 1 else 0) + count_events f r
  end.

(** The number of [setlocale] calls so far. *)
Definition setlocale_calls (s : st) : nat :=
  count_events is_setlocale (trace s).

(** Two states agree on the locale configuration and on the number of
    [setlocale] calls made. *)
Definition same_locale (s s' : st) : Prop :=
  locale s' = locale s /\ locale_set s' = locale_set s /\
  c_utf8_installed s' = c_utf8_installed s /\
  setlocale_calls s' = setlocale_calls s.

(** A step that leaves the heap and the locale configuration alone. *)
Definition quiet (s s' : st) : Prop := heap s' = heap s /\ same_locale s s'.

(** What an allocation does to the heap: nothing when it fails, one
    new object when it succeeds. *)
Definition allocated (s s' : st) (p : ptr) : Prop :=
  match p with
  | NULL => heap s' = heap s
  | Ptr b => (b ∉ heap s) /\ heap s' = {[b]} ∪ heap s
  | _ => False
  end.

(** What [free(p)] does to the heap. *)
Definition freed (s s' : st) (p : ptr) : Prop :=
  match p with
  | Ptr b => heap s' = heap s ∖ {[b]}
  | _ => heap s' = heap s
  end.

(** A call of one of the functions of the file. *)
Inductive call :=
| CallWchdir (path : ptr)
| CallWgetcwd (buffer : ptr) (size : Z)
| CallGetPgmptr (ptr : option nat)
| CallWfullpath (dst src : ptr) (size : Z)
| CallMultiByteToWideChar (cp flags : Z) (src : ptr) (srclen : Z)
                          (dst : ptr) (dstlen : Z)
| CallWfopen (filename mode : ptr)
| CallWremove (filename : ptr)
| CallWrename (oldname newname : ptr).

Definition is_conversion_call (c : call) : bool :=
  match c with CallMultiByteToWideChar _ _ _ _ _ _ => true | _ => false end.

(** The state a call returns in; [None] when it faults. *)
Definition final {A} (o : outcome A) : option st :=
  match o with Done _ s' => Some s' | Fault => None end.

Definition run_call (c : call) (s : st) : option st :=
  match c with
  | CallWchdir path => final (wchdir_compat path s)
  | CallWgetcwd buffer size => final (wgetcwd_compat buffer size s)
  | CallGetPgmptr ptr => final (get_pgmptr_compat ptr s)
  | CallWfullpath dst src size => final (wfullpath_compat dst src size s)
  | CallMultiByteToWideChar cp flags src srclen dst dstlen =>
    final (MultiByteToWideChar_compat cp flags src srclen dst dstlen s)
  | CallWfopen filename mode => final (_wfopen filename mode s)
  | CallWremove filename => final (_wremove filename s)
  | CallWrename oldname newname => final (_wrename oldname newname s)
  end.

(** One step of a process that uses the layer: a call of the layer, or
    code of the caller, which cannot reach the function-local flag and
    is taken not to reconfigure the locale itself. *)
Inductive step : st -> st -> Prop :=
| step_call c s s' : run_call c s = Some s' -> step s s'
| step_caller s s' : same_locale s s' -> step s s'.

(** The set-up has been made exactly when the flag says so, and then
    once. *)
Definition setup_once (s : st) : Prop :=
  setlocale_calls s = if locale_set s then 1%nat else 0%nat.

(** The state once [MultiByteToWideChar_compat] has its terminated copy
    [tmp] of the first [n] source bytes in a new object. *)
Definition staged (s : st) (n : Z) (tmp : list Z) : st :=
  let s0 := setup s in
  State (<[next_block s := tmp ++ [0]]> (mem s)) ({[next_block s]} ∪ heap s)
        (pcells s0) (program_path s0) (locale_set s0) (errno s0) (locale s0)
        (c_utf8_installed s0) (tail (alloc_script s)) (world s0)
        (trace s0 ++ [EvMalloc (n + 1) (Ptr (next_block s))]).

(** What a store through [p] does to the objects of memory. *)
Definition wrote (s s' : st) (p : ptr) : Prop :=
  match p with
  | Ptr b => exists cells, mem s' = <[b := cells]> (mem s)
  | _ => mem s' = mem s
  end.

(** What an allocation does to the objects of memory. *)
Definition created (s s' : st) (p : ptr) : Prop :=
  match p with
  | NULL => mem s' = mem s
  | Ptr b => mem s !! b = None /\ exists cells, mem s' = <[b := cells]> (mem s)
  | _ => False
  end.

(** What [free(p)] does to the objects of memory. *)
Definition removed (s s' : st) (p : ptr) : Prop :=
  match p with
  | Ptr b => mem s' = delete b (mem s)
  | _ => mem s' = mem s
  end.

(** Between [s] and [s'] the kernel was asked [f] and gave the answer
    the C library reports as [r]. *)
Definition answered {A} (f : W -> sysres A * W) (s s' : st) (r : option A)
  : Prop :=
  match r with
  | Some a => f (world s) = (SysOk a, world s')
  | None => exists e, f (world s) = (SysErr e, world s') /\ errno s' = e
  end.

(** The calls a run added to the log. *)
Definition new_events (s s' : st) (evs : list event) : Prop :=
  trace s' = trace s ++ evs.

End Machine.

Arguments Done {W A} a s.
Arguments Fault {W A}.

(** ** A small file system to run the functions on

    Directories and files are known by their absolute names; the
    executable's link may be absent. *)

Module Toy.

Record world := World {
  cwd : list Z;
  dirs : list (list Z);
  files : list (list Z);
  exe : option (list Z)
}.

Definition ENOENT : Z := 2.

Definition has (p : list Z) (ps : list (list Z)) : bool :=
  bool_decide (p ∈ ps).

Definition drop_name (p : list Z) (ps : list (list Z)) : list (list Z) :=
  filter (fun q => q ≠ p) ps.

#[global] Instance posix : Posix world := {|
  sys_chdir p w :=
    if has p (dirs w) then (SysOk tt, World p (dirs w) (files w) (exe w))
    else (SysErr ENOENT, w);
  sys_getcwd w := (SysOk (cwd w), w);
  sys_realpath p w :=
    if has p (dirs w) || has p (files w) then (SysOk p, w)
    else (SysErr ENOENT, w);
  sys_readlink p w :=
    match exe w with
    | Some target => (SysOk target, w)
    | None => (SysErr ENOENT, w)
    end;
  sys_fopen f m w :=
    if has f (files w) then (SysOk 3%nat, w)
    else
      match m with
      | 119 :: _ => (SysOk 3%nat, World (cwd w) (dirs w) (f :: files w) (exe w))
      | _ => (SysErr ENOENT, w)
      end;
  sys_remove f w :=
    if has f (files w)
    then (SysOk tt, World (cwd w) (dirs w) (drop_name f (files w)) (exe w))
    else (SysErr ENOENT, w);
  sys_rename o n w :=
    if has o (files w)
    then (SysOk tt,
          World (cwd w) (dirs w) (n :: drop_name n (drop_name o (files w))) (exe w))
    else (SysErr ENOENT, w);
  setlocale_errno _ := Some ENOENT
|}.

(** A process at start-up: "C" locale, nothing allocated, [errno] zero;
    object 1 holds a wide string and object 2 is a buffer. *)
Definition start (str buf : list Z) (w : world) : state world :=
  State {[ 1%nat := str; 2%nat := buf ]} ∅ {[ 0%nat := NULL ]}
        (replicate (Z.to_nat PATH_MAX) 0) false 0 LC_C true [] w [].

(** The same process after [setlocale(LC_CTYPE, "C.UTF-8")]. *)
Definition start_utf8 (str buf : list Z) (w : world) : state world :=
  set_locale LC_UTF8 (start str buf w).

Definition home : world :=
  World [47] [[47]; [47; 100; 111; 110; 110; 195; 169; 101; 115]]
        [[47; 97; 46; 116; 120; 116]] (Some [47; 98; 105; 110; 47; 120]).

(** The wide string [L"/données"] and its UTF-8 encoding. *)
Definition donnees : list Z := [47; 100; 111; 110; 110; 233; 101; 115].
Definition donnees_utf8 : list Z := [47; 100; 111; 110; 110; 195; 169; 101; 115].

(** The world once the process has moved to [/données]. *)
Definition in_donnees : world :=
  World donnees_utf8 (dirs home) (files home) (exe home).

(** The same process when the next [malloc] is going to fail. *)
Definition start_nomem (str buf : list Z) (w : world) : state world :=
  set_alloc_script [false] (start_utf8 str buf w).

End Toy.

(** ** A file system that refuses everything

    Every primitive fails with [ENOENT]: for the error paths the small
    file system above never takes. *)

Module Gone.

Inductive world := Nowhere.

#[global] Instance posix : Posix world := {|
  sys_chdir _ w := (SysErr Toy.ENOENT, w);
  sys_getcwd w := (SysErr Toy.ENOENT, w);
  sys_realpath _ w := (SysErr Toy.ENOENT, w);
  sys_readlink _ w := (SysErr Toy.ENOENT, w);
  sys_fopen _ _ w := (SysErr Toy.ENOENT, w);
  sys_remove _ w := (SysErr Toy.ENOENT, w);
  sys_rename _ _ w := (SysErr Toy.ENOENT, w);
  setlocale_errno _ := None
|}.

(** A process at start-up in a UTF-8 locale; object 1 holds a wide
    string and object 2 is a buffer. *)
Definition start (str buf : list Z) : state world :=
  State {[ 1%nat := str; 2%nat := buf ]} ∅ {[ 0%nat := NULL ]}
        (replicate (Z.to_nat PATH_MAX) 0) false 0 LC_UTF8 true [] Nowhere [].

End Gone.

(** ** A file system with a legacy name

    Every path resolves to a directory whose name is Latin-1, not
    UTF-8; the executable's link is longer than [PATH_MAX]. *)

Module Legacy.

Inductive world := Disk.

Definition latin1_name : list Z := [47; 233].

Definition long_target : list Z := replicate 5000 97.

#[global] Instance posix : Posix world := {|
  sys_chdir _ w := (SysErr Toy.ENOENT, w);
  sys_getcwd w := (SysOk latin1_name, w);
  sys_realpath _ w := (SysOk latin1_name, w);
  sys_readlink _ w := (SysOk long_target, w);
  sys_fopen _ _ w := (SysErr Toy.ENOENT, w);
  sys_remove _ w := (SysErr Toy.ENOENT, w);
  sys_rename _ _ w := (SysErr Toy.ENOENT, w);
  setlocale_errno _ := None
|}.

(** A process at start-up in a UTF-8 locale; object 1 holds a wide
    string and object 2 is a buffer. *)
Definition start (str buf : list Z) : state world :=
  State {[ 1%nat := str; 2%nat := buf ]} ∅ {[ 0%nat := NULL ]}
        (replicate (Z.to_nat PATH_MAX) 0) false 0 LC_UTF8 true [] Disk [].

End Legacy.

(** * Properties *)

(** ** Facts about the conversions *)

Lemma utf8_encode_length c bs :
  utf8_encode c = Some bs -> (1 <= length bs <= 4)%nat.
Proof.
  unfold utf8_encode.
  repeat case_match; intros [= <-]; simpl; lia.
Qed.

Lemma wc_to_mb_length l c bs :
  wc_to_mb l c = Some bs -> (1 <= length bs <= 4)%nat.
Proof.
  destruct l; simpl.
  - case_match; intros [= <-]; simpl; lia.
  - apply utf8_encode_length.
Qed.

Ltac bool_to_prop :=
  repeat match goal with
         | H : _ && _ = true |- _ => apply andb_true_iff in H; destruct H
         | H : negb _ = true |- _ => apply negb_true_iff in H
         | H : negb _ = false |- _ => apply negb_false_iff in H
         | H : (_ <? _) = false |- _ => apply Z.ltb_ge in H
         | H : (_ <? _) = true |- _ => apply Z.ltb_lt in H
         | H : (_ <=? _) = true |- _ => apply Z.leb_le in H
         | H : (_ <=? _) = false |- _ => apply Z.leb_gt in H
         end.

Lemma ltb_false_of a b : b <= a -> (a <? b) = false.
Proof. intros; apply Z.ltb_ge; lia. Qed.
Lemma ltb_true_of a b : a < b -> (a <? b) = true.
Proof. intros; apply Z.ltb_lt; lia. Qed.
Lemma leb_false_of a b : b < a -> (a <=? b) = false.
Proof. intros; apply Z.leb_gt; lia. Qed.
Lemma leb_true_of a b : a <= b -> (a <=? b) = true.
Proof. intros; apply Z.leb_le; lia. Qed.

Ltac dlia := Z.div_mod_to_equations; lia.

(** Decoding undoes encoding, one character at a time. *)
Lemma utf8_decode_encode c bs rest :
  utf8_encode c = Some bs -> utf8_decode (bs ++ rest) = Some (c, rest).
Proof.
  unfold utf8_encode.
  destruct (negb _) eqn:Hs; [discriminate|].
  apply negb_false_iff in Hs.
  assert (Hs' := Hs). unfold scalar in Hs'.
  apply andb_true_iff in Hs' as [Hr Hsur].
  apply andb_true_iff in Hr as [H0 H1].
  apply Z.leb_le in H0. apply Z.ltb_lt in H1.
  repeat case_match; intros [= <-]; bool_to_prop; simpl.
  - rewrite leb_true_of, ltb_true_of by dlia. done.
  - rewrite (ltb_false_of (192 + _)) by dlia. rewrite andb_false_r.
    rewrite leb_true_of, ltb_true_of by dlia. simpl.
    unfold cont. rewrite leb_true_of, ltb_true_of by dlia. simpl.
    do 2 f_equal. dlia.
  - rewrite (ltb_false_of (224 + _) 128) by dlia. rewrite andb_false_r.
    rewrite (ltb_false_of (224 + _) 224) by dlia. rewrite andb_false_r.
    rewrite leb_true_of, ltb_true_of by dlia. simpl.
    unfold cont. rewrite !leb_true_of, !ltb_true_of by dlia. simpl.
    replace ((224 + c / 4096 - 224) * 4096 + (128 + (c / 64) mod 64 - 128) * 64
             + (128 + c mod 64 - 128)) with c by dlia.
    rewrite Hs. done.
  - rewrite (ltb_false_of (240 + _) 128) by dlia. rewrite andb_false_r.
    rewrite (ltb_false_of (240 + _) 224) by dlia. rewrite andb_false_r.
    rewrite (ltb_false_of (240 + _) 240) by dlia. rewrite andb_false_r.
    rewrite leb_true_of, ltb_true_of by dlia. simpl.
    unfold cont. rewrite !leb_true_of, !ltb_true_of by dlia. simpl.
    replace ((240 + c / 262144 - 240) * 262144
             + (128 + (c / 4096) mod 64 - 128) * 4096
             + (128 + (c / 64) mod 64 - 128) * 64
             + (128 + c mod 64 - 128)) with c by dlia.
    rewrite Hs. done.
Qed.

Lemma mb_to_wc_wc_to_mb l c bs rest :
  wc_to_mb l c = Some bs -> mb_to_wc l (bs ++ rest) = Some (c, rest).
Proof.
  destruct l; simpl.
  - destruct (_ && _) eqn:E; intros [= <-]; simpl. by rewrite E.
  - apply utf8_decode_encode.
Qed.

(** Every character consumes at least one byte. *)
Lemma mb_to_wc_shorter l bs c rest :
  mb_to_wc l bs = Some (c, rest) -> (length rest < length bs)%nat.
Proof.
  destruct l; simpl; unfold utf8_decode;
    repeat case_match; intros [= <- <-]; subst; simpl; lia.
Qed.

Lemma decode_from_fuel l f f' bs :
  (length bs <= f)%nat -> (length bs <= f')%nat ->
  decode_from l f bs = decode_from l f' bs.
Proof.
  revert f' bs. induction f as [|f IH]; intros f' bs Hf Hf'.
  - destruct bs; [|simpl in Hf; lia]. by destruct f'.
  - destruct bs as [|b r]; [by destruct f'|].
    destruct f' as [|f']; [simpl in Hf'; lia|].
    simpl. destruct (mb_to_wc l (b :: r)) as [[c rest]|] eqn:E; [|done].
    apply mb_to_wc_shorter in E. simpl in *.
    rewrite (IH f' rest) by lia. done.
Qed.

Lemma decode_from_decode l f bs :
  (length bs <= f)%nat -> decode_from l f bs = decode l bs.
Proof. intros. unfold decode. by apply decode_from_fuel. Qed.

Lemma decode_cons l b r :
  decode l (b :: r) =
  match mb_to_wc l (b :: r) with
  | None => None
  | Some (c, rest) =>
    match decode l rest with
    | Some ws => Some (c :: ws)
    | None => None
    end
  end.
Proof.
  unfold decode at 1. simpl.
  destruct (mb_to_wc l (b :: r)) as [[c rest]|] eqn:E; [|done].
  apply mb_to_wc_shorter in E. simpl in E.
  rewrite decode_from_decode by lia. done.
Qed.

(** A decoded string is no longer than its bytes. *)
Lemma decode_length l bs ws :
  decode l bs = Some ws -> (length ws <= length bs)%nat.
Proof.
  remember (length bs) as k eqn:Hk.
  revert bs ws Hk. induction (lt_wf k) as [k _ IH]. intros bs ws -> H.
  destruct bs as [|b r]; [by injection H as <-|].
  rewrite decode_cons in H.
  destruct (mb_to_wc l (b :: r)) as [[c rest]|] eqn:E; [|done].
  destruct (decode l rest) as [ws'|] eqn:D; [|done].
  injection H as <-. apply mb_to_wc_shorter in E.
  specialize (IH _ E rest ws' eq_refl D). simpl in *. lia.
Qed.

(** Round trip on strings: what [encode] produces, [decode] reads back. *)
Lemma decode_encode l ws bs :
  encode l ws = Some bs -> decode l bs = Some ws.
Proof.
  revert bs. induction ws as [|c ws IH]; intros bs; simpl.
  - by intros [= <-].
  - destruct (wc_to_mb l c) as [e|] eqn:E; [|done].
    destruct (encode l ws) as [r|]; [|done]. intros [= <-].
    pose proof (wc_to_mb_length _ _ _ E) as Hl.
    destruct e as [|e0 e]; [simpl in Hl; lia|].
    change ((e0 :: e) ++ r) with (e0 :: (e ++ r)).
    rewrite decode_cons.
    change (e0 :: (e ++ r)) with ((e0 :: e) ++ r).
    rewrite (mb_to_wc_wc_to_mb _ _ _ _ E), (IH r) by done. done.
Qed.

(** In a UTF-8 locale every string of scalar values is representable. *)
Lemma encode_scalar ws :
  Forall (fun c => scalar c = true) ws -> is_Some (encode LC_UTF8 ws).
Proof.
  induction 1 as [|c ws Hc _ [r IH]]; simpl; [by eexists|].
  unfold utf8_encode. rewrite Hc, IH. simpl.
  repeat case_match; by eexists.
Qed.

Lemma wcstombs_len_encode l ws :
  wcstombs_len l ws = (fun bs => Z.of_nat (length bs)) <$> encode l ws.
Proof.
  induction ws as [|c ws IH]; simpl; [done|].
  destruct (wc_to_mb l c) as [e|]; [|done]. rewrite IH.
  destruct (encode l ws) as [r|]; simpl; [|done].
  rewrite length_app. f_equal. lia.
Qed.

Lemma wcstombs_len_nonneg l ws k : wcstombs_len l ws = Some k -> 0 <= k.
Proof.
  rewrite wcstombs_len_encode. destruct (encode l ws); intros [= <-]. lia.
Qed.

(** With room for the whole string and its terminator, the second pass
    stores exactly the encoding followed by NUL. *)
Lemma wcstombs_from_full l ws bs used :
  encode l ws = Some bs ->
  wcstombs_from l (used + Z.of_nat (length bs) + 1) used ws =
  Conv (bs ++ [0]) (Some (used + Z.of_nat (length bs))).
Proof.
  revert bs used. induction ws as [|c ws IH]; intros bs used; simpl.
  - intros [= <-]. simpl. rewrite ltb_true_of by lia. do 2 f_equal. lia.
  - destruct (wc_to_mb l c) as [e|] eqn:E; [|done].
    destruct (encode l ws) as [r|]; [|done]. intros [= <-].
    rewrite length_app, ltb_false_of by lia.
    replace (used + Z.of_nat (length e + length r) + 1)
      with (used + Z.of_nat (length e) + Z.of_nat (length r) + 1) by lia.
    rewrite (IH r) by done. simpl. rewrite <- app_assoc.
    do 2 f_equal. lia.
Qed.

Lemma wcstombs_conv_full l ws bs :
  encode l ws = Some bs ->
  wcstombs_conv l (Z.of_nat (length bs) + 1) ws =
  Conv (bs ++ [0]) (Some (Z.of_nat (length bs))).
Proof. intros H. apply (wcstombs_from_full l ws bs 0 H). Qed.

Lemma mbstowcs_from_cons l n d b r :
  mbstowcs_from l (S n) d (b :: r) =
  match mb_to_wc l (b :: r) with
  | None => Conv [] None
  | Some (c, rest) =>
    Conv (c :: written (mbstowcs_from l n (d + 1) rest))
         (count (mbstowcs_from l n (d + 1) rest))
  end.
Proof. reflexivity. Qed.

(** With room for the whole string and its terminator, [mbstowcs]
    stores the decoded string followed by NUL. *)
Lemma mbstowcs_from_full l bs ws n d :
  decode l bs = Some ws -> (length ws < n)%nat ->
  mbstowcs_from l n d bs = Conv (ws ++ [0]) (Some (d + Z.of_nat (length ws))).
Proof.
  revert bs n d. induction ws as [|c ws IH]; intros bs n d H Hn.
  - destruct bs as [|b r].
    + destruct n; [lia|]. simpl. do 2 f_equal. lia.
    + rewrite decode_cons in H. repeat case_match; done.
  - destruct bs as [|b r]; [done|]. rewrite decode_cons in H.
    destruct (mb_to_wc l (b :: r)) as [[c' rest]|] eqn:E; [|done].
    destruct (decode l rest) as [ws'|] eqn:D; [|done].
    injection H as -> ->. destruct n as [|n]; [lia|].
    simpl in Hn. rewrite mbstowcs_from_cons, E.
    rewrite (IH rest n (d + 1) D) by lia. simpl.
    do 2 f_equal. lia.
Qed.

(** With room for [n] characters only, the first [n] characters are
    stored and no terminator: the rest of the input is not examined. *)
Lemma mbstowcs_from_trunc l bs ws n d :
  decode l bs = Some ws -> (n <= length ws)%nat ->
  mbstowcs_from l n d bs = Conv (take n ws) (Some (d + Z.of_nat n)).
Proof.
  revert bs ws d. induction n as [|n IH]; intros bs ws d H Hn.
  - simpl. do 2 f_equal. lia.
  - destruct ws as [|c ws]; [simpl in Hn; lia|].
    destruct bs as [|b r]; [done|]. rewrite decode_cons in H.
    destruct (mb_to_wc l (b :: r)) as [[c' rest]|] eqn:E; [|done].
    destruct (decode l rest) as [ws'|] eqn:D; [|done].
    injection H as -> ->. simpl in Hn.
    rewrite mbstowcs_from_cons, E.
    rewrite (IH rest ws (d + 1) D) by lia. simpl.
    do 2 f_equal. lia.
Qed.

(** An invalid sequence makes the length query fail, and only that. *)
Lemma mbstowcs_from_error l bs n d :
  decode l bs = None -> (length bs < n)%nat ->
  count (mbstowcs_from l n d bs) = None.
Proof.
  revert bs d. induction n as [|n IH]; intros bs d H Hn; [lia|].
  destruct bs as [|b r]; [done|]. rewrite decode_cons in H.
  rewrite mbstowcs_from_cons.
  destruct (mb_to_wc l (b :: r)) as [[c rest]|] eqn:E; [|done].
  apply mb_to_wc_shorter in E. simpl in *.
  apply IH; [|lia]. by destruct (decode l rest).
Qed.

Lemma mbstowcs_len_decode l bs :
  mbstowcs_len l bs = (fun ws => Z.of_nat (length ws)) <$> decode l bs.
Proof.
  unfold mbstowcs_len. destruct (decode l bs) as [ws|] eqn:D.
  - pose proof (decode_length _ _ _ D).
    rewrite (mbstowcs_from_full l bs ws _ 0 D) by lia. done.
  - apply mbstowcs_from_error; [done|lia].
Qed.

Lemma mbstowcs_conv_full l bs ws n :
  decode l bs = Some ws -> Z.of_nat (length ws) < n ->
  mbstowcs_conv l n bs = Conv (ws ++ [0]) (Some (Z.of_nat (length ws))).
Proof.
  intros D Hn. unfold mbstowcs_conv.
  rewrite (mbstowcs_from_full l bs ws _ 0 D) by lia. done.
Qed.

Lemma mbstowcs_conv_trunc l bs ws n :
  decode l bs = Some ws -> 0 <= n <= Z.of_nat (length ws) ->
  mbstowcs_conv l n bs = Conv (take (Z.to_nat n) ws) (Some n).
Proof.
  intros D Hn. unfold mbstowcs_conv.
  rewrite (mbstowcs_from_trunc l bs ws _ 0 D) by lia.
  do 2 f_equal. lia.
Qed.


(** ** Facts about strings in memory *)

Lemma cstr_app_nul bs rest :
  Forall (fun c => c ≠ 0) bs -> cstr (bs ++ 0 :: rest) = Some bs.
Proof.
  induction 1 as [|c bs Hc _ IH]; simpl; [done|].
  rewrite (proj2 (Z.eqb_neq c 0) Hc), IH. done.
Qed.

Lemma cstr_nonzero cells str :
  cstr cells = Some str -> Forall (fun c => c ≠ 0) str.
Proof.
  revert str. induction cells as [|c r IH]; intros str; simpl; [done|].
  destruct (c =? 0) eqn:E; [by intros [= <-]|].
  destruct (cstr r) as [str'|]; simpl; [|done]. intros [= <-].
  constructor; [by apply Z.eqb_neq|by apply IH].
Qed.

Lemma until_nul_nonzero cells : Forall (fun c => c ≠ 0) (until_nul cells).
Proof.
  induction cells as [|c r IH]; simpl; [done|].
  destruct (c =? 0) eqn:E; [done|]. constructor; [by apply Z.eqb_neq|done].
Qed.

Lemma cstr_until_nul cells :
  cstr (until_nul cells ++ [0]) = Some (until_nul cells).
Proof. apply cstr_app_nul, until_nul_nonzero. Qed.

Lemma until_nul_id bs : Forall (fun c => c ≠ 0) bs -> until_nul bs = bs.
Proof.
  induction 1 as [|c bs Hc _ IH]; simpl; [done|].
  by rewrite (proj2 (Z.eqb_neq c 0) Hc), IH.
Qed.

(** No character but NUL has a NUL byte in its encoding. *)
Lemma wc_to_mb_nonzero l c bs :
  wc_to_mb l c = Some bs -> c ≠ 0 -> Forall (fun b => b ≠ 0) bs.
Proof.
  destruct l; simpl.
  - case_match; intros [= <-] ?; by repeat constructor.
  - unfold utf8_encode. destruct (negb _) eqn:Hs; [done|].
    apply negb_false_iff in Hs. unfold scalar in Hs.
    repeat case_match; intros [= <-] ?; bool_to_prop;
      repeat constructor; dlia.
Qed.

Lemma encode_nonzero l ws bs :
  encode l ws = Some bs -> Forall (fun c => c ≠ 0) ws ->
  Forall (fun b => b ≠ 0) bs.
Proof.
  revert bs. induction ws as [|c ws IH]; intros bs; simpl.
  - by intros [= <-].
  - destruct (wc_to_mb l c) as [e|] eqn:E; [|done].
    destruct (encode l ws) as [r|]; [|done]. intros [= <-] Hnz.
    inversion Hnz; subst. apply Forall_app. split.
    + by eapply wc_to_mb_nonzero.
    + by apply IH.
Qed.

(** ** Running the primitives forward *)

Section Stepping.
Context {W : Type} {OS : Posix W}.
Implicit Types s : state W.

Lemma state_ext s1 s2 :
  mem s1 = mem s2 -> heap s1 = heap s2 -> pcells s1 = pcells s2 ->
  program_path s1 = program_path s2 -> locale_set s1 = locale_set s2 ->
  errno s1 = errno s2 -> locale s1 = locale s2 ->
  c_utf8_installed s1 = c_utf8_installed s2 ->
  alloc_script s1 = alloc_script s2 -> world s1 = world s2 ->
  trace s1 = trace s2 -> s1 = s2.
Proof. destruct s1, s2; simpl; intros; by subst. Qed.

Lemma bind_run {A B} (m : M A) (k : A -> M B) s a s1 o :
  m s = Done a s1 -> k a s1 = o -> bind m k s = o.
Proof. unfold bind. by intros -> ->. Qed.

Lemma bind_step {A B} (m : M A) (k : A -> M B) s a s1 :
  m s = Done a s1 -> bind m k s = k a s1.
Proof. unfold bind. by intros ->. Qed.

Lemma read_str_run s p str : holds s p str -> read_str p s = Done str s.
Proof. unfold holds, read_str. by intros ->. Qed.

Lemma holds_nonzero s p str : holds s p str -> Forall (fun c => c ≠ 0) str.
Proof.
  unfold holds. destruct (load p s) as [cells|]; simpl; [|done].
  apply cstr_nonzero.
Qed.

Lemma next_block_unused s : mem s !! next_block s = None.
Proof.
  apply not_elem_of_dom. pose proof (is_fresh (dom (mem s) ∪ heap s)).
  unfold next_block. set_solver.
Qed.

Lemma next_block_not_live s : next_block s ∉ heap s.
Proof.
  pose proof (is_fresh (dom (mem s) ∪ heap s)). unfold next_block. set_solver.
Qed.

Lemma malloc_run s elt n :
  alloc_ok s n ->
  malloc elt n s =
  Done (Ptr (next_block s))
    (log (EvMalloc n (Ptr (next_block s)))
       (set_alloc_script (tail (alloc_script s))
          (set_heap ({[next_block s]} ∪ heap s)
             (set_mem (<[next_block s := replicate (Z.to_nat (n / elt)) 0]> (mem s))
                s)))).
Proof.
  intros [Hn Hs]. unfold malloc. rewrite ltb_false_of by lia.
  destruct (alloc_script s) as [|[] rest]; done.
Qed.

Lemma malloc_fail_run s elt n :
  ~ alloc_ok s n ->
  malloc elt n s =
  Done NULL
    (log (EvMalloc n NULL)
       (set_errno ENOMEM
          (set_alloc_script
             (if PTRDIFF_MAX <? n then alloc_script s else tail (alloc_script s))
             s))).
Proof.
  intros Hno. unfold malloc, alloc_ok in *.
  destruct (PTRDIFF_MAX <? n) eqn:E; [done|]. apply Z.ltb_ge in E.
  destruct (alloc_script s) as [|[] rest]; simpl in *; try done; tauto.
Qed.

Lemma free_run s b :
  b ∈ heap s ->
  free (Ptr b) s =
  Done tt (log (EvFree (Ptr b))
             (set_heap (heap s ∖ {[b]}) (set_mem (delete b (mem s)) s))).
Proof. intros H. unfold free. by rewrite decide_True. Qed.

Lemma store_at_run s b old cells :
  mem s !! b = Some old -> (length cells <= length old)%nat ->
  store_at (Ptr b) cells s =
  Done tt (set_mem (<[b := cells ++ drop (length cells) old]> (mem s)) s).
Proof.
  intros Hb Hl. unfold store_at. simpl. rewrite Hb.
  by rewrite (proj2 (Nat.leb_le _ _) Hl).
Qed.

Lemma store_idx_run s b old i v :
  mem s !! b = Some old -> 0 <= i < Z.of_nat (length old) ->
  store_idx (Ptr b) i v s =
  Done tt (set_mem (<[b := <[Z.to_nat i := v]> old]> (mem s)) s).
Proof.
  intros Hb Hi. unfold store_idx. simpl. rewrite Hb.
  by rewrite leb_true_of, ltb_true_of by lia.
Qed.

(** The length query of [wcstombs]. *)
Lemma wcstombs_query_run s src n ws k :
  holds s src ws -> wcstombs_len (locale s) ws = Some k ->
  wcstombs NULL src n s = Done k (log (EvWcstombs NULL src n) s).
Proof.
  intros Hs Hk. unfold wcstombs.
  eapply bind_run; [by apply read_str_run|]. unfold bind, modify, get. simpl.
  by rewrite Hk.
Qed.

Lemma wcstombs_query_fail_run s src n ws :
  holds s src ws -> wcstombs_len (locale s) ws = None ->
  wcstombs NULL src n s =
  Done SIZE_MAX (set_errno EILSEQ (log (EvWcstombs NULL src n) s)).
Proof.
  intros Hs Hk. unfold wcstombs.
  eapply bind_run; [by apply read_str_run|]. unfold bind, modify, get. simpl.
  by rewrite Hk.
Qed.

(** The conversion pass of [wcstombs] into an object with room for the
    string and its terminator. *)
Lemma wcstombs_run s b src ws bs old :
  holds s src ws -> encode (locale s) ws = Some bs ->
  mem s !! b = Some old -> (length bs + 1 <= length old)%nat ->
  wcstombs (Ptr b) src (Z.of_nat (length bs) + 1) s =
  Done (Z.of_nat (length bs))
    (set_mem (<[b := (bs ++ [0]) ++ drop (length bs + 1) old]> (mem s))
       (log (EvWcstombs (Ptr b) src (Z.of_nat (length bs) + 1)) s)).
Proof.
  intros Hs He Hb Hl. unfold wcstombs.
  eapply bind_run; [by apply read_str_run|]. unfold bind at 1, modify.
  unfold bind at 1, get. cbn [is_null locale log].
  rewrite (wcstombs_conv_full _ _ _ He). simpl written. simpl count.
  eapply bind_run.
  - apply (store_at_run _ b old); [done|]. rewrite length_app. simpl. lia.
  - rewrite length_app. done.
Qed.

(** The length query of [mbstowcs]. *)
Lemma mbstowcs_query_run s src n bs ws :
  holds s src bs -> decode (locale s) bs = Some ws ->
  mbstowcs NULL src n s =
  Done (Z.of_nat (length ws)) (log (EvMbstowcs NULL src n) s).
Proof.
  intros Hs Hd. unfold mbstowcs.
  eapply bind_run; [by apply read_str_run|]. unfold bind, modify, get. simpl.
  by rewrite mbstowcs_len_decode, Hd.
Qed.

(** The conversion pass of [mbstowcs] with room for the whole string. *)
Lemma mbstowcs_run s b src n bs ws old :
  holds s src bs -> decode (locale s) bs = Some ws ->
  Z.of_nat (length ws) < n ->
  mem s !! b = Some old -> (length ws + 1 <= length old)%nat ->
  mbstowcs (Ptr b) src n s =
  Done (Z.of_nat (length ws))
    (set_mem (<[b := (ws ++ [0]) ++ drop (length ws + 1) old]> (mem s))
       (log (EvMbstowcs (Ptr b) src n) s)).
Proof.
  intros Hs Hd Hn Hb Hl. unfold mbstowcs.
  eapply bind_run; [by apply read_str_run|]. unfold bind at 1, modify.
  unfold bind at 1, get. cbn [is_null locale log].
  rewrite (mbstowcs_conv_full _ _ _ _ Hd Hn). simpl written. simpl count.
  eapply bind_run.
  - apply (store_at_run _ b old); [done|]. rewrite length_app. simpl. lia.
  - rewrite length_app. done.
Qed.

(** The conversion pass of [mbstowcs] cut short after [n] characters. *)
Lemma mbstowcs_trunc_run s b src n bs ws old :
  holds s src bs -> decode (locale s) bs = Some ws ->
  0 <= n <= Z.of_nat (length ws) ->
  mem s !! b = Some old -> (Z.to_nat n <= length old)%nat ->
  mbstowcs (Ptr b) src n s =
  Done n
    (set_mem (<[b := take (Z.to_nat n) ws ++ drop (Z.to_nat n) old]> (mem s))
       (log (EvMbstowcs (Ptr b) src n) s)).
Proof.
  intros Hs Hd Hn Hb Hl. unfold mbstowcs.
  eapply bind_run; [by apply read_str_run|]. unfold bind at 1, modify.
  unfold bind at 1, get. cbn [is_null locale log].
  rewrite (mbstowcs_conv_trunc _ _ _ _ Hd Hn). simpl written. simpl count.
  assert (length (take (Z.to_nat n) ws) = Z.to_nat n) as Hlen
      by (rewrite length_take; lia).
  eapply bind_run.
  - apply (store_at_run _ b old); [done|]. lia.
  - rewrite Hlen. done.
Qed.

Lemma syscall_run {A} (f : W -> sysres A * W) s :
  syscall f s = Done (sys_value (f (world s))) (after_sys (f (world s)) s).
Proof. unfold syscall. by destruct (f (world s)) as [[a|e] w]. Qed.

Lemma chdir_run s p str :
  holds s p str ->
  chdir p s =
  Done (status (sys_value (sys_chdir str (world s))))
       (after_sys (sys_chdir str (world s)) (log (EvChdir str) s)).
Proof.
  intros Hs. unfold chdir.
  eapply bind_run; [by apply read_str_run|].
  unfold bind at 1, modify. eapply bind_run; [apply syscall_run|]. done.
Qed.

Lemma remove_run s p str :
  holds s p str ->
  remove p s =
  Done (status (sys_value (sys_remove str (world s))))
       (after_sys (sys_remove str (world s)) (log (EvRemove str) s)).
Proof.
  intros Hs. unfold remove.
  eapply bind_run; [by apply read_str_run|].
  unfold bind at 1, modify. eapply bind_run; [apply syscall_run|]. done.
Qed.

Lemma to_size_t_small z : 0 <= z <= PTRDIFF_MAX -> to_size_t z = z.
Proof. intros H. apply Z.mod_small. unfold PTRDIFF_MAX in H. lia. Qed.

(** A fresh object filled with a string and its terminator holds it. *)
Lemma holds_filled s b bs :
  Forall (fun c => c ≠ 0) bs ->
  mem s !! b = Some (bs ++ [0]) -> holds s (Ptr b) bs.
Proof.
  intros Hnz Hb. unfold holds. simpl. rewrite Hb. simpl.
  by apply (cstr_app_nul bs []).
Qed.

(** Strings survive the arrival of a new object. *)
Lemma holds_after_insert s s' src ws cells :
  holds s src ws ->
  mem s' = <[next_block s := cells]> (mem s) ->
  program_path s' = program_path s ->
  holds s' src ws.
Proof.
  unfold holds. intros H Hm Hp. destruct src as [|b| |a]; simpl in *;
    rewrite ?Hp; try done.
  rewrite Hm, lookup_insert_ne; [done|].
  intros <-. by rewrite next_block_unused in H.
Qed.

(** *** The narrowing idiom *)

Lemma narrow_bad_encoding {A} (X Y : M A) K s src ws :
  holds s src ws -> wcstombs_len (locale s) ws = None ->
  narrow src X Y K s = X (set_errno EILSEQ (log (EvWcstombs NULL src 0) s)).
Proof.
  intros Hs Hn. unfold narrow.
  eapply bind_run; [by eapply wcstombs_query_fail_run|]. done.
Qed.

Lemma narrow_no_memory {A} (X Y : M A) K s src ws len :
  holds s src ws -> wcstombs_len (locale s) ws = Some len ->
  len < SIZE_MAX -> ~ alloc_ok s (len + 1) ->
  narrow src X Y K s =
  Y (log (EvMalloc (len + 1) NULL)
       (set_errno ENOMEM
          (set_alloc_script
             (if PTRDIFF_MAX <? len + 1 then alloc_script s
              else tail (alloc_script s))
             (log (EvWcstombs NULL src 0) s)))).
Proof.
  intros Hs Hn Hlt Hno. unfold narrow.
  pose proof (wcstombs_len_nonneg _ _ _ Hn).
  eapply bind_run; [by eapply wcstombs_query_run|].
  rewrite (proj2 (Z.eqb_neq len SIZE_MAX)) by lia.
  assert (to_size_t (len + 1) = len + 1) as ->
      by (apply Z.mod_small; unfold SIZE_MAX in Hlt; lia).
  eapply bind_run; [by apply malloc_fail_run|]. done.
Qed.

Lemma narrow_ok {A} (X Y : M A) K s src ws bs :
  holds s src ws -> encode (locale s) ws = Some bs ->
  alloc_ok s (Z.of_nat (length bs) + 1) ->
  narrow src X Y K s = K (Ptr (next_block s)) (narrowed s src bs).
Proof.
  intros Hs He Ha. unfold narrow.
  assert (wcstombs_len (locale s) ws = Some (Z.of_nat (length bs))) as Hn
      by (by rewrite wcstombs_len_encode, He).
  pose proof Ha as [Hle _]. unfold PTRDIFF_MAX in Hle.
  eapply bind_run; [by eapply wcstombs_query_run|].
  rewrite (proj2 (Z.eqb_neq _ SIZE_MAX)) by (unfold SIZE_MAX; lia).
  rewrite to_size_t_small by (unfold PTRDIFF_MAX; lia).
  eapply bind_run; [by apply malloc_run|]. cbn [is_null].
  eapply bind_run.
  - eapply (wcstombs_run _ _ _ ws bs); cbn [locale log set_alloc_script set_heap set_mem].
    + by eapply holds_after_insert.
    + done.
    + cbn. apply lookup_insert_eq.
    + rewrite length_replicate, Z.div_1_r. lia.
  - f_equal. apply state_ext; unfold next_block; cbn; try done.
    + rewrite insert_insert_eq, Z.div_1_r, drop_ge, app_nil_r
        by (rewrite length_replicate; lia).
      done.
    + by rewrite <- !app_assoc.
Qed.

Lemma narrowed_holds_new s src ws bs :
  holds s src ws -> encode (locale s) ws = Some bs ->
  holds (narrowed s src bs) (Ptr (next_block s)) bs.
Proof.
  intros Hs He. apply holds_filled.
  - eapply encode_nonzero; [done|]. by eapply holds_nonzero.
  - cbn. apply lookup_insert_eq.
Qed.

Lemma narrowed_holds_old s src bs p str :
  holds s p str -> holds (narrowed s src bs) p str.
Proof. intros H. by eapply holds_after_insert. Qed.

Lemma heap_after_sys {A} (r : sysres A * W) s : heap (after_sys r s) = heap s.
Proof. by destruct r as [[a|e] w]. Qed.

Lemma mem_after_sys {A} (r : sysres A * W) s : mem (after_sys r s) = mem s.
Proof. by destruct r as [[a|e] w]. Qed.

Lemma trace_after_sys {A} (r : sysres A * W) s :
  trace (after_sys r s) = trace s.
Proof. by destruct r as [[a|e] w]. Qed.

(** Releasing the object [malloc] gave last restores memory and heap. *)
Lemma release_restores s cells :
  delete (next_block s) (<[next_block s := cells]> (mem s)) = mem s /\
  ({[next_block s]} ∪ heap s) ∖ {[next_block s]} = heap s.
Proof.
  split.
  - apply delete_insert_id, next_block_unused.
  - pose proof (next_block_not_live s). set_solver.
Qed.

Lemma wchdir_compat_unfold b :
  wchdir_compat (W := W) (Ptr b) =
  narrow (Ptr b) (ret (-1))
    (bind (modify (set_errno ENOMEM)) (fun _ => ret (-1)))
    (fun mbpath =>
       bind (chdir mbpath) (fun result =>
       bind (free mbpath) (fun _ => ret result))).
Proof. reflexivity. Qed.

Lemma _wremove_unfold b :
  _wremove (W := W) (Ptr b) =
  narrow (Ptr b) (ret (-1))
    (bind (modify (set_errno ENOMEM)) (fun _ => ret (-1)))
    (fun mbfilename =>
       bind (remove mbfilename) (fun result =>
       bind (free mbfilename) (fun _ => ret result))).
Proof. reflexivity. Qed.

(** A successful [wchdir_compat], start to end. *)
Lemma wchdir_compat_run s b ws bs :
  holds s (Ptr b) ws -> encode (locale s) ws = Some bs ->
  alloc_ok s (Z.of_nat (length bs) + 1) ->
  exists s',
    wchdir_compat (Ptr b) s =
      Done (status (sys_value (sys_chdir bs (world s)))) s' /\
    new_events s s'
      [EvWcstombs NULL (Ptr b) 0;
       EvMalloc (Z.of_nat (length bs) + 1) (Ptr (next_block s));
       EvWcstombs (Ptr (next_block s)) (Ptr b) (Z.of_nat (length bs) + 1);
       EvChdir bs; EvFree (Ptr (next_block s))] /\
    mem s' = mem s /\ heap s' = heap s /\
    world s' = (sys_chdir bs (world s)).2.
Proof.
  intros Hs He Ha. rewrite wchdir_compat_unfold.
  rewrite (narrow_ok _ _ _ _ _ _ _ Hs He Ha).
  pose proof (narrowed_holds_new _ _ _ _ Hs He) as Hnew.
  eexists. split.
  - eapply bind_run; [by apply chdir_run|].
    eapply bind_run; [apply free_run|reflexivity].
    rewrite heap_after_sys. cbn. set_solver.
  - unfold new_events. cbn [trace mem heap world log set_heap set_mem].
    rewrite trace_after_sys, mem_after_sys, heap_after_sys.
    unfold narrowed. cbn [trace mem heap world log].
    destruct (release_restores s (bs ++ [0])) as [-> ->].
    rewrite <- !app_assoc.
    repeat split. by destruct (sys_chdir bs (world s)) as [[?|?] ?].
Qed.

(** A successful [_wremove], start to end. *)
Lemma _wremove_run s b ws bs :
  holds s (Ptr b) ws -> encode (locale s) ws = Some bs ->
  alloc_ok s (Z.of_nat (length bs) + 1) ->
  exists s',
    _wremove (Ptr b) s =
      Done (status (sys_value (sys_remove bs (world s)))) s' /\
    new_events s s'
      [EvWcstombs NULL (Ptr b) 0;
       EvMalloc (Z.of_nat (length bs) + 1) (Ptr (next_block s));
       EvWcstombs (Ptr (next_block s)) (Ptr b) (Z.of_nat (length bs) + 1);
       EvRemove bs; EvFree (Ptr (next_block s))] /\
    mem s' = mem s /\ heap s' = heap s.
Proof.
  intros Hs He Ha. rewrite _wremove_unfold.
  rewrite (narrow_ok _ _ _ _ _ _ _ Hs He Ha).
  pose proof (narrowed_holds_new _ _ _ _ Hs He) as Hnew.
  eexists. split.
  - eapply bind_run; [by apply remove_run|].
    eapply bind_run; [apply free_run|reflexivity].
    rewrite heap_after_sys. cbn. set_solver.
  - unfold new_events. cbn [trace mem heap log set_heap set_mem].
    rewrite trace_after_sys, mem_after_sys, heap_after_sys.
    unfold narrowed. cbn [trace mem heap world log].
    destruct (release_restores s (bs ++ [0])) as [-> ->].
    rewrite <- !app_assoc. done.
Qed.

End Stepping.

(** ** The wide-to-multibyte converter *)

Section Narrowing.
Context {W : Type} {OS : Posix W}.
Implicit Types s : state W.

(** C5.  For a non-null wide path the converter of [wchdir_compat] and
    [_wremove] first queries the byte length without storing anything.
    If the query fails the function fails with [EILSEQ] after that one
    call.  Otherwise it asks [malloc] for exactly [len + 1] bytes; if
    that fails the function fails with [ENOMEM]; if it succeeds the
    string is converted into the new object with its terminator, so that
    the system call reads back exactly the encoding. *)
Theorem narrowing_is_two_pass :
  forall s b ws,
    holds s (Ptr b) ws ->
    (wcstombs_len (locale s) ws = None ->
     exists s1 s2,
       wchdir_compat (Ptr b) s = Done (-1) s1 /\
       _wremove (Ptr b) s = Done (-1) s2 /\
       errno s1 = EILSEQ /\ errno s2 = EILSEQ /\
       new_events s s1 [EvWcstombs NULL (Ptr b) 0] /\
       new_events s s2 [EvWcstombs NULL (Ptr b) 0] /\
       mem s1 = mem s /\ mem s2 = mem s) /\
    (forall len,
        wcstombs_len (locale s) ws = Some len -> len < SIZE_MAX ->
        ~ alloc_ok s (len + 1) ->
        exists s1 s2,
          wchdir_compat (Ptr b) s = Done (-1) s1 /\
          _wremove (Ptr b) s = Done (-1) s2 /\
          errno s1 = ENOMEM /\ errno s2 = ENOMEM /\
          new_events s s1 [EvWcstombs NULL (Ptr b) 0; EvMalloc (len + 1) NULL] /\
          new_events s s2 [EvWcstombs NULL (Ptr b) 0; EvMalloc (len + 1) NULL] /\
          mem s1 = mem s /\ mem s2 = mem s) /\
    (forall len,
        wcstombs_len (locale s) ws = Some len -> alloc_ok s (len + 1) ->
        exists bs r1 r2 s1 s2,
          encode (locale s) ws = Some bs /\ len = Z.of_nat (length bs) /\
          wchdir_compat (Ptr b) s = Done r1 s1 /\
          _wremove (Ptr b) s = Done r2 s2 /\
          new_events s s1
            [EvWcstombs NULL (Ptr b) 0;
             EvMalloc (len + 1) (Ptr (next_block s));
             EvWcstombs (Ptr (next_block s)) (Ptr b) (len + 1);
             EvChdir bs; EvFree (Ptr (next_block s))] /\
          new_events s s2
            [EvWcstombs NULL (Ptr b) 0;
             EvMalloc (len + 1) (Ptr (next_block s));
             EvWcstombs (Ptr (next_block s)) (Ptr b) (len + 1);
             EvRemove bs; EvFree (Ptr (next_block s))]).
Proof.
  intros s b ws Hs. repeat apply conj.
  - intros Hn. do 2 eexists.
    rewrite wchdir_compat_unfold, _wremove_unfold.
    rewrite !(narrow_bad_encoding _ _ _ _ _ _ Hs Hn).
    unfold ret, new_events. cbn. done.
  - intros len Hn Hlt Hno. do 2 eexists.
    rewrite wchdir_compat_unfold, _wremove_unfold.
    rewrite !(narrow_no_memory _ _ _ _ _ _ _ Hs Hn Hlt Hno).
    unfold ret, bind, modify, new_events.
    do 2 (split; [reflexivity|]). cbn.
    rewrite <- !app_assoc. done.
  - intros len Hn Ha. rewrite wcstombs_len_encode in Hn.
    destruct (encode (locale s) ws) as [bs|] eqn:He; [|done].
    injection Hn as <-.
    destruct (wchdir_compat_run _ _ _ _ Hs He Ha) as (s1 & H1 & E1 & _).
    destruct (_wremove_run _ _ _ _ Hs He Ha) as (s2 & H2 & E2 & _).
    exists bs. do 2 eexists. by exists s1, s2.
Qed.

End Narrowing.

Lemma narrowing_is_two_pass_witness :
  (exists s1, wchdir_compat (Ptr 1) (Toy.start (Toy.donnees ++ [0]) [] Toy.home)
              = Done (-1) s1 /\ errno s1 = EILSEQ) /\
  (exists s1, wchdir_compat (Ptr 1) (Toy.start_nomem (Toy.donnees ++ [0]) [] Toy.home)
              = Done (-1) s1 /\ errno s1 = ENOMEM) /\
  (exists r s1, wchdir_compat (Ptr 1) (Toy.start_utf8 (Toy.donnees ++ [0]) [] Toy.home)
                = Done r s1 /\
                trace s1 = [EvWcstombs NULL (Ptr 1) 0; EvMalloc 10 (Ptr 3);
                            EvWcstombs (Ptr 3) (Ptr 1) 10;
                            EvChdir Toy.donnees_utf8; EvFree (Ptr 3)]).
Proof.
  repeat apply conj.
  - destruct (narrowing_is_two_pass
                (Toy.start (Toy.donnees ++ [0]) [] Toy.home) 1 Toy.donnees
                eq_refl) as (H & _ & _).
    destruct (H eq_refl) as (s1 & s2 & H1 & _ & E1 & _). by exists s1.
  - destruct (narrowing_is_two_pass
                (Toy.start_nomem (Toy.donnees ++ [0]) [] Toy.home) 1 Toy.donnees
                eq_refl) as (_ & H & _).
    destruct (H 9 eq_refl eq_refl) as (s1 & s2 & H1 & _ & E1 & _).
    + intros [_ Hs]. discriminate Hs.
    + by exists s1.
  - destruct (narrowing_is_two_pass
                (Toy.start_utf8 (Toy.donnees ++ [0]) [] Toy.home) 1 Toy.donnees
                eq_refl) as (_ & _ & H).
    destruct (H 9 eq_refl) as (bs & r1 & r2 & s1 & s2 & He & _ & H1 & _ & E1 & _).
    + split; [by vm_compute|reflexivity].
    + injection He as <-. exists r1, s1. split; [done|].
      unfold new_events in E1. rewrite E1. by vm_compute.
Defined.


(** ** Null arguments *)

Section NullArguments.
Context {W : Type} {OS : Posix W}.

(** C1, as amended.  A null required pointer makes [wchdir_compat],
    [wfullpath_compat], [_wfopen], [_wremove] and [_wrename] return their
    failure value (-1 or null) with [errno] set to [EINVAL] and nothing
    else changed: no object is read, no call is made.
    [MultiByteToWideChar_compat] returns 0 on a null [src] or [dst] and
    leaves the whole state, [errno] included, as it was. *)
Theorem null_argument_rejected :
  forall (s : state W),
    wchdir_compat NULL s = Done (-1) (set_errno EINVAL s) /\
    (forall src size,
        wfullpath_compat NULL src size s = Done NULL (set_errno EINVAL s)) /\
    (forall dst size,
        wfullpath_compat dst NULL size s = Done NULL (set_errno EINVAL s)) /\
    (forall mode, _wfopen NULL mode s = Done None (set_errno EINVAL s)) /\
    (forall filename, _wfopen filename NULL s = Done None (set_errno EINVAL s)) /\
    _wremove NULL s = Done (-1) (set_errno EINVAL s) /\
    (forall newname, _wrename NULL newname s = Done (-1) (set_errno EINVAL s)) /\
    (forall oldname, _wrename oldname NULL s = Done (-1) (set_errno EINVAL s)) /\
    (forall cp flags srclen dst dstlen,
        MultiByteToWideChar_compat cp flags NULL srclen dst dstlen s = Done 0 s) /\
    (forall cp flags src srclen dstlen,
        MultiByteToWideChar_compat cp flags src srclen NULL dstlen s = Done 0 s).
Proof.
  intros s. repeat split; try reflexivity; intros.
  - unfold wfullpath_compat. by destruct dst.
  - unfold _wfopen. by destruct filename.
  - unfold _wrename. by destruct oldname.
  - unfold MultiByteToWideChar_compat. by destruct src.
Qed.

(** C10.  [MultiByteToWideChar_compat] ignores its code page and flags:
    two calls that agree on the other arguments and on the state have
    the same outcome, returned count and final state alike. *)
Theorem MultiByteToWideChar_ignores_cp_flags :
  forall cp flags cp' flags' src srclen dst dstlen (s : state W),
    MultiByteToWideChar_compat cp flags src srclen dst dstlen s =
    MultiByteToWideChar_compat cp' flags' src srclen dst dstlen s.
Proof. reflexivity. Qed.

End NullArguments.

(** C1 as stated fails for [MultiByteToWideChar_compat]: called with a
    null source in a fresh process it returns 0 but [errno] is not
    [EINVAL]. *)
Lemma null_argument_einval_counterexample :
  ~ (exists s',
        MultiByteToWideChar_compat CP_UTF8 0 NULL (-1) (Ptr 2) 4
          (Toy.start [0] [0; 0; 0; 0] Toy.home) = Done 0 s'
        /\ errno s' = EINVAL).
Proof. intros (s' & H & E). vm_compute in H. injection H as <-. discriminate E. Qed.

(** ** The current directory *)

Section CurrentDirectory.
Context {W : Type} {OS : Posix W}.
Implicit Types s : state W.

Lemma cstr_app_nul_any cells : cstr (cells ++ [0]) = Some (until_nul cells).
Proof.
  induction cells as [|c r IH]; simpl; [done|].
  destruct (c =? 0); [done|]. by rewrite IH.
Qed.

Lemma getcwd_alloc_run s path w' :
  sys_getcwd (world s) = (SysOk path, w') ->
  alloc_ok s (Z.of_nat (length (until_nul path)) + 1) ->
  getcwd_alloc s = Done (Ptr (next_block s)) (fetched s (until_nul path) w').
Proof.
  intros Hsys Ha. unfold getcwd_alloc.
  unfold bind at 1, modify. eapply bind_run; [apply syscall_run|].
  cbn [world log]. rewrite Hsys. cbn [sys_value after_sys].
  eapply bind_run; [by apply malloc_run|]. cbn [is_null].
  eapply bind_run.
  - apply (store_at_run _ _ (replicate (Z.to_nat (Z.of_nat (length (until_nul path)) + 1)) 0)).
    + cbn. rewrite Z.div_1_r. apply lookup_insert_eq.
    + rewrite length_replicate, length_app. simpl. lia.
  - unfold ret. f_equal. apply state_ext; unfold next_block; cbn; try done.
    + rewrite insert_insert_eq, drop_ge, app_nil_r; [done|].
      rewrite length_replicate, length_app. simpl. lia.
    + by rewrite <- !app_assoc.
Qed.

Lemma fetched_holds s cwd w' :
  Forall (fun c => c ≠ 0) cwd ->
  holds (fetched s cwd w') (Ptr (next_block s)) cwd.
Proof. intros H. apply holds_filled; [done|]. cbn. apply lookup_insert_eq. Qed.

(** The second object [wgetcwd_compat] allocates is new to the caller. *)
Lemma second_block_new s cwd w' :
  let rb := next_block (fetched s cwd w') in
  rb ≠ next_block s /\ mem s !! rb = None /\ rb ∉ heap s.
Proof.
  intros rb.
  pose proof (next_block_unused (fetched s cwd w')) as Hm.
  pose proof (next_block_not_live (fetched s cwd w')) as Hh.
  fold rb in Hm, Hh. cbn in Hm, Hh.
  apply lookup_insert_None in Hm as [Hm Hne].
  split; [done|]. split; [done|]. set_solver.
Qed.

(** [wgetcwd_compat] with a caller buffer that is too small. *)
Lemma wgetcwd_small_run s d size path w' ws :
  sys_getcwd (world s) = (SysOk path, w') ->
  alloc_ok s (Z.of_nat (length (until_nul path)) + 1) ->
  decode (locale s) (until_nul path) = Some ws ->
  size ≠ 0 -> size <= Z.of_nat (length ws) ->
  exists s',
    wgetcwd_compat (Ptr d) size s = Done NULL s' /\
    errno s' = ERANGE /\ mem s' = mem s /\ heap s' = heap s.
Proof.
  intros Hsys Ha Hd Hsz Hle.
  pose proof (decode_length _ _ _ Hd) as Hlen.
  destruct Ha as [Hmax Hscr]. unfold PTRDIFF_MAX in Hmax.
  pose proof (fetched_holds s _ w' (until_nul_nonzero path)) as Hmb.
  eexists. split.
  - unfold wgetcwd_compat.
    eapply bind_run; [by apply getcwd_alloc_run|]. cbn [is_null].
    eapply bind_run; [by eapply mbstowcs_query_run|].
    rewrite (proj2 (Z.eqb_neq _ SIZE_MAX)) by (unfold SIZE_MAX; lia).
    rewrite (proj2 (Z.eqb_neq size 0)) by done. cbn [is_null orb].
    rewrite leb_true_of by done.
    eapply bind_run; [apply free_run; cbn; set_solver|]. reflexivity.
  - cbn. destruct (release_restores s (until_nul path ++ [0])) as [-> ->].
    done.
Qed.

(** [wgetcwd_compat] in auto-allocation mode. *)
Lemma wgetcwd_auto_run s buffer size path w' ws :
  is_null buffer || (size =? 0) = true ->
  sys_getcwd (world s) = (SysOk path, w') ->
  alloc_ok s (Z.of_nat (length (until_nul path)) + 1) ->
  decode (locale s) (until_nul path) = Some ws ->
  alloc_ok (fetched s (until_nul path) w')
           ((Z.of_nat (length ws) + 1) * sizeof_wchar_t) ->
  let rb := next_block (fetched s (until_nul path) w') in
  exists s',
    wgetcwd_compat buffer size s = Done (Ptr rb) s' /\
    mem s' = <[rb := ws ++ [0]]> (mem s) /\
    heap s' = {[rb]} ∪ heap s /\
    new_events s s'
      [EvGetcwd;
       EvMalloc (Z.of_nat (length (until_nul path)) + 1) (Ptr (next_block s));
       EvMbstowcs NULL (Ptr (next_block s)) 0;
       EvMalloc ((Z.of_nat (length ws) + 1) * sizeof_wchar_t) (Ptr rb);
       EvMbstowcs (Ptr rb) (Ptr (next_block s)) (Z.of_nat (length ws) + 1);
       EvFree (Ptr (next_block s))].
Proof.
  intros Hmode Hsys Ha Hd Ha2 rb.
  pose proof (decode_length _ _ _ Hd) as Hlen.
  pose proof Ha as [Hmax Hscr]. unfold PTRDIFF_MAX in Hmax.
  pose proof Ha2 as [Hmax2 _]. unfold PTRDIFF_MAX, sizeof_wchar_t in Hmax2.
  pose proof (fetched_holds s _ w' (until_nul_nonzero path)) as Hmb.
  destruct (second_block_new s (until_nul path) w') as (Hne & Hnew & Hnl).
  fold rb in Hne, Hnew, Hnl.
  set (s1 := fetched s (until_nul path) w') in *.
  set (s2 := log (EvMbstowcs NULL (Ptr (next_block s)) 0) s1).
  assert (next_block s2 = rb) as Hrb by done.
  eexists. split; [|split; [|split]].
  - unfold wgetcwd_compat.
    eapply bind_run; [by apply getcwd_alloc_run|]. cbn [is_null].
    eapply bind_run; [by eapply mbstowcs_query_run|].
    rewrite (proj2 (Z.eqb_neq _ SIZE_MAX)) by (unfold SIZE_MAX; lia).
    rewrite Hmode.
    rewrite !to_size_t_small by (unfold PTRDIFF_MAX, sizeof_wchar_t; lia).
    eapply bind_run; [by apply malloc_run|]. cbn [is_null].
    fold s1 s2. rewrite Hrb.
    eapply bind_run.
    { eapply (mbstowcs_run _ rb _ _ _ ws); [| |lia| |].
      - eapply holds_after_insert; [exact Hmb| |reflexivity].
        cbn [mem log set_alloc_script set_heap set_mem]. reflexivity.
      - exact Hd.
      - cbn. apply lookup_insert_eq.
      - rewrite length_replicate. unfold sizeof_wchar_t.
        rewrite Z.div_mul by done. lia. }
    eapply bind_run; [apply free_run; cbn; set_solver|]. reflexivity.
  - cbn. unfold sizeof_wchar_t. rewrite Z.div_mul by done.
    rewrite insert_insert_eq, drop_ge, app_nil_r
      by (rewrite length_replicate; lia).
    rewrite delete_insert_ne by done.
    by rewrite delete_insert_id by apply next_block_unused.
  - cbn. pose proof (next_block_not_live s). set_solver.
  - unfold new_events. cbn. by rewrite <- !app_assoc.
Qed.

Lemma realpath_run s p str res w' :
  holds s p str -> sys_realpath str (world s) = (SysOk res, w') ->
  Z.of_nat (length (until_nul res)) < PATH_MAX ->
  realpath p s =
  Done (Some (until_nul res ++ [0])) (set_world w' (log (EvRealpath str) s)).
Proof.
  intros Hs Hsys Hlt. unfold realpath.
  eapply bind_run; [by apply read_str_run|].
  unfold bind at 1, modify. eapply bind_run; [apply syscall_run|].
  cbn [world log]. rewrite Hsys. cbn [sys_value after_sys].
  by rewrite (proj2 (Z.leb_gt _ _)) by lia.
Qed.

Lemma wfullpath_compat_unfold d b size :
  size ≠ 0 ->
  wfullpath_compat (W := W) (Ptr d) (Ptr b) size =
  narrow (Ptr b) (ret NULL)
    (bind (modify (set_errno ENOMEM)) (fun _ => ret NULL))
    (fun mbsrc =>
       bind (realpath mbsrc) (fun r =>
       match r with
       | None => bind (free mbsrc) (fun _ => ret NULL)
       | Some resolved =>
         bind (free mbsrc) (fun _ =>
         bind (mbstowcs NULL (Auto resolved) 0) (fun len =>
         if (len =? SIZE_MAX) || (size <=? len) then
           bind (modify (set_errno ERANGE)) (fun _ => ret NULL)
         else
           bind (mbstowcs (Ptr d) (Auto resolved) size) (fun _ =>
           ret (Ptr d))))
       end)).
Proof.
  intros Hsz. unfold wfullpath_compat. cbn [is_null orb].
  by rewrite (proj2 (Z.eqb_neq size 0)).
Qed.

(** [wfullpath_compat] with a destination that is too small. *)
Lemma wfullpath_small_run s d b size ws bs res w' rs :
  size ≠ 0 ->
  holds s (Ptr b) ws -> encode (locale s) ws = Some bs ->
  alloc_ok s (Z.of_nat (length bs) + 1) ->
  sys_realpath bs (world s) = (SysOk res, w') ->
  Z.of_nat (length (until_nul res)) < PATH_MAX ->
  decode (locale s) (until_nul res) = Some rs ->
  size <= Z.of_nat (length rs) ->
  exists s',
    wfullpath_compat (Ptr d) (Ptr b) size s = Done NULL s' /\
    errno s' = ERANGE /\ mem s' = mem s /\ heap s' = heap s.
Proof.
  intros Hsz Hs He Ha Hsys Hlt Hd Hle.
  rewrite wfullpath_compat_unfold by done.
  rewrite (narrow_ok _ _ _ _ _ _ _ Hs He Ha).
  pose proof (narrowed_holds_new _ _ _ _ Hs He) as Hnew.
  pose proof (decode_length _ _ _ Hd) as Hlen. unfold PATH_MAX in Hlt.
  eexists. split.
  - eapply bind_run; [by eapply realpath_run|]. cbv beta iota.
    eapply bind_run; [apply free_run; cbn; set_solver|].
    eapply bind_run.
    { eapply (mbstowcs_query_run _ _ _ (until_nul res) rs); [|exact Hd].
      unfold holds. cbn. apply cstr_until_nul. }
    rewrite (proj2 (Z.eqb_neq _ SIZE_MAX)) by (unfold SIZE_MAX; lia).
    rewrite leb_true_of by done. reflexivity.
  - cbn. destruct (release_restores s (bs ++ [0])) as [-> ->]. done.
Qed.

(** C2.  With a caller buffer of non-zero capacity [size] that cannot
    take the result and its terminator, [wgetcwd_compat] and
    [wfullpath_compat] return null with [errno] set to [ERANGE], and
    all of memory, the destination included, is as before the call. *)
Theorem undersized_buffer_untouched :
  (forall s d size path w' ws,
      size ≠ 0 ->
      sys_getcwd (world s) = (SysOk path, w') ->
      alloc_ok s (Z.of_nat (length (until_nul path)) + 1) ->
      decode (locale s) (until_nul path) = Some ws ->
      size < Z.of_nat (length ws) + 1 ->
      exists s',
        wgetcwd_compat (Ptr d) size s = Done NULL s' /\
        errno s' = ERANGE /\ mem s' = mem s) /\
  (forall s d b size ws bs res w' rs,
      size ≠ 0 ->
      holds s (Ptr b) ws -> encode (locale s) ws = Some bs ->
      alloc_ok s (Z.of_nat (length bs) + 1) ->
      sys_realpath bs (world s) = (SysOk res, w') ->
      Z.of_nat (length (until_nul res)) < PATH_MAX ->
      decode (locale s) (until_nul res) = Some rs ->
      size < Z.of_nat (length rs) + 1 ->
      exists s',
        wfullpath_compat (Ptr d) (Ptr b) size s = Done NULL s' /\
        errno s' = ERANGE /\ mem s' = mem s).
Proof.
  split.
  - intros s d size path w' ws Hsz Hsys Ha Hd Hlt.
    destruct (wgetcwd_small_run s d size path w' ws) as (s' & H & E & M & _);
      [done..|lia|]. by exists s'.
  - intros s d b size ws bs res w' rs Hsz Hs He Ha Hsys Hp Hd Hlt.
    destruct (wfullpath_small_run s d b size ws bs res w' rs)
      as (s' & H & E & M & _); [done..|lia|]. by exists s'.
Qed.

(** C6.  In auto-allocation mode (null buffer or zero capacity) a
    successful [wgetcwd_compat] returns an object that did not exist
    before the call, of exactly [len + 1] wide characters: the current
    directory in wide characters and its terminator.  The object is
    live when the call returns, it is the only addition to the heap,
    and no other object changed. *)
Theorem wgetcwd_auto_allocates :
  forall s buffer size path w' ws,
    buffer = NULL \/ size = 0 ->
    sys_getcwd (world s) = (SysOk path, w') ->
    decode (locale s) (until_nul path) = Some ws ->
    alloc_ok s (Z.of_nat (length (until_nul path)) + 1) ->
    (Z.of_nat (length ws) + 1) * sizeof_wchar_t <= PTRDIFF_MAX ->
    hd true (tail (alloc_script s)) = true ->
    exists rb s',
      wgetcwd_compat buffer size s = Done (Ptr rb) s' /\
      mem s !! rb = None /\ (rb ∉ heap s) /\
      mem s' !! rb = Some (ws ++ [0]) /\
      rb ∈ heap s' /\ heap s' = {[rb]} ∪ heap s /\
      (forall b, b ≠ rb -> mem s' !! b = mem s !! b) /\
      In (EvMalloc ((Z.of_nat (length ws) + 1) * sizeof_wchar_t) (Ptr rb))
         (trace s').
Proof.
  intros s buffer size path w' ws Hmode Hsys Hd Ha Hmax Hscr.
  destruct (wgetcwd_auto_run s buffer size path w' ws)
    as (s' & H & M & Hh & E); try done.
  { destruct Hmode as [-> | ->]; [done|]. apply orb_true_r. }
  destruct (second_block_new s (until_nul path) w') as (Hne & Hnew & Hnl).
  eexists _, s'. split; [exact H|]. split; [done|]. split; [done|].
  rewrite M, Hh, E. split; [apply lookup_insert_eq|].
  split; [set_solver|]. split; [done|]. split.
  - intros b Hb. by rewrite lookup_insert_ne.
  - apply in_or_app. right. simpl. tauto.
Qed.

End CurrentDirectory.

Lemma undersized_buffer_untouched_witness :
  (exists s',
      wgetcwd_compat (Ptr 2) 4 (Toy.start_utf8 [0] [7; 7; 7; 7] Toy.in_donnees)
      = Done NULL s' /\
      errno s' = ERANGE /\ mem s' !! 2%nat = Some [7; 7; 7; 7]) /\
  (exists s',
      wfullpath_compat (Ptr 2) (Ptr 1) 4
        (Toy.start_utf8 (Toy.donnees ++ [0]) [7; 7; 7; 7] Toy.home)
      = Done NULL s' /\
      errno s' = ERANGE /\ mem s' !! 2%nat = Some [7; 7; 7; 7]).
Proof.
  split.
  - destruct (proj1 (undersized_buffer_untouched (OS := Toy.posix))
                (Toy.start_utf8 [0] [7; 7; 7; 7] Toy.in_donnees) 2%nat 4
                Toy.donnees_utf8 Toy.in_donnees Toy.donnees)
      as (s' & H & E & M).
    + lia.
    + reflexivity.
    + split; [by vm_compute|reflexivity].
    + by vm_compute.
    + simpl. lia.
    + exists s'. rewrite M. by split.
  - destruct (proj2 (undersized_buffer_untouched (OS := Toy.posix))
                (Toy.start_utf8 (Toy.donnees ++ [0]) [7; 7; 7; 7] Toy.home)
                2%nat 1%nat 4 Toy.donnees Toy.donnees_utf8
                Toy.donnees_utf8 Toy.home Toy.donnees)
      as (s' & H & E & M).
    + lia.
    + by vm_compute.
    + by vm_compute.
    + split; [by vm_compute|reflexivity].
    + by vm_compute.
    + by vm_compute.
    + by vm_compute.
    + simpl. lia.
    + exists s'. rewrite M. by split.
Defined.

Lemma wgetcwd_auto_allocates_witness :
  exists rb s',
    wgetcwd_compat NULL 0 (Toy.start_utf8 [0] [] Toy.in_donnees)
    = Done (Ptr rb) s' /\
    mem s' !! rb = Some (Toy.donnees ++ [0]) /\ rb ∈ heap s'.
Proof.
  destruct (wgetcwd_auto_allocates (OS := Toy.posix)
              (Toy.start_utf8 [0] [] Toy.in_donnees) NULL 0
              Toy.donnees_utf8 Toy.in_donnees Toy.donnees)
    as (rb & s' & H & _ & _ & M & L & _).
  - by left.
  - reflexivity.
  - by vm_compute.
  - split; [by vm_compute|reflexivity].
  - by vm_compute.
  - reflexivity.
  - by exists rb, s'.
Defined.

(** ** Multibyte to wide conversion *)

Section MultiByteToWideChar.
Context {W : Type} {OS : Posix W}.
Implicit Types s : state W.

Lemma strncpy_cells_length cells n tmp :
  strncpy_cells cells n = Some tmp -> length tmp = n.
Proof.
  revert cells tmp. induction n as [|n IH]; intros cells tmp; simpl.
  - by intros [= <-].
  - destruct cells as [|c r]; [done|]. destruct (c =? 0).
    + intros [= <-]. simpl. by rewrite length_replicate.
    + destruct (strncpy_cells r n) as [t|] eqn:E; [|done]. intros [= <-].
      simpl. f_equal. by eapply IH.
Qed.

(** Copying a string with its exact length copies the string. *)
Lemma strncpy_cells_cstr cells str :
  cstr cells = Some str -> strncpy_cells cells (length str) = Some str.
Proof.
  revert str. induction cells as [|c r IH]; intros str; simpl; [done|].
  destruct (c =? 0) eqn:E; [by intros [= <-]|].
  destruct (cstr r) as [str'|]; [|done]. intros [= <-]. simpl.
  by rewrite E, (IH str').
Qed.

Lemma setup_run {A} (k : unit -> M A) s :
  bind (get locale_set) (fun done_ =>
    bind (if negb done_ then
            bind setlocale_ctype_utf8 (fun _ => modify (set_locale_set true))
          else ret tt) k) s = k tt (setup s).
Proof.
  unfold bind, get, setup, setlocale_ctype_utf8, modify, bind, get, ret.
  destruct (locale_set s); [done|]. unfold locale_lookup. cbn.
  destruct (setlocale_errno (world s)); cbn; by destruct (c_utf8_installed s).
Qed.

Lemma mem_setup s : mem (setup s) = mem s.
Proof. unfold setup, locale_lookup. by repeat case_match. Qed.

Lemma heap_setup s : heap (setup s) = heap s.
Proof. unfold setup, locale_lookup. by repeat case_match. Qed.

Lemma alloc_script_setup s : alloc_script (setup s) = alloc_script s.
Proof. unfold setup, locale_lookup. by repeat case_match. Qed.

Lemma next_block_setup s : next_block (setup s) = next_block s.
Proof. unfold next_block. by rewrite mem_setup, heap_setup. Qed.

Lemma to_int_small z : 0 <= z <= INT_MAX -> to_int z = z.
Proof.
  intros H. unfold to_int, INT_MAX in *.
  rewrite Z.mod_small by lia. lia.
Qed.

Lemma source_length_run s a cells srclen n :
  mem s !! a = Some cells ->
  source_length cells srclen = Some n -> 0 <= n <= INT_MAX ->
  (if srclen =? -1
   then bind (strlen (Ptr a)) (fun k => ret (to_int k))
   else ret srclen) s = Done n s.
Proof.
  intros Hm Hn Hr. unfold source_length in Hn.
  destruct (srclen =? -1).
  - destruct (cstr cells) as [str|] eqn:E; [|done]. injection Hn as <-.
    unfold strlen. eapply bind_run.
    { eapply bind_run; [apply (read_str_run _ _ str)|reflexivity].
      unfold holds. simpl. by rewrite Hm. }
    unfold ret. by rewrite to_int_small.
  - by injection Hn as ->.
Qed.

(** [MultiByteToWideChar_compat] on a valid source: the first
    [dstlen - 1] characters at most, then a terminator. *)
Lemma MultiByteToWideChar_run s cp flags a srclen d dstlen cells n tmp ws old :
  0 < dstlen <= INT_MAX ->
  mem s !! a = Some cells ->
  source_length cells srclen = Some n -> 0 <= n < INT_MAX ->
  strncpy_cells cells (Z.to_nat n) = Some tmp ->
  decode (locale (setup s)) (until_nul tmp) = Some ws ->
  alloc_ok s (n + 1) ->
  mem s !! d = Some old -> dstlen <= Z.of_nat (length old) ->
  let k := Z.min (Z.of_nat (length ws)) (dstlen - 1) in
  exists s',
    MultiByteToWideChar_compat cp flags (Ptr a) srclen (Ptr d) dstlen s
    = Done k s' /\
    mem s' = <[d := take (Z.to_nat k) ws ++ 0 :: drop (Z.to_nat k + 1) old]> (mem s) /\
    heap s' = heap s.
Proof.
  intros Hdst Ha Hn Hnr Htmp Hd Hal Hdm Hcap k.
  unfold INT_MAX in *.
  pose proof (strncpy_cells_length _ _ _ Htmp) as Htl.
  pose proof (decode_length _ _ _ Hd) as Hwl.
  assert (a ≠ next_block s) as Hat
      by (intros ->; by rewrite next_block_unused in Ha).
  assert (d ≠ next_block s) as Hdt
      by (intros ->; by rewrite next_block_unused in Hdm).
  assert (to_size_t (n + 1) = n + 1) as En1
      by (apply to_size_t_small; unfold PTRDIFF_MAX; lia).
  assert (to_size_t n = n) as En
      by (apply to_size_t_small; unfold PTRDIFF_MAX; lia).
  assert (to_size_t (dstlen - 1) = dstlen - 1) as Ed
      by (apply to_size_t_small; unfold PTRDIFF_MAX; lia).
  unfold MultiByteToWideChar_compat. cbn [is_null orb].
  rewrite leb_false_of by lia. rewrite setup_run.
  rewrite (bind_step _ _ _ _ _
             (source_length_run (setup s) a cells srclen n
                ltac:(by rewrite mem_setup) Hn ltac:(unfold INT_MAX; lia))).
  unfold INT_MAX. rewrite (proj2 (Z.eqb_neq n (2 ^ 31 - 1))) by lia.
  rewrite En1, En, Ed.
  (* malloc *)
  assert (alloc_ok (setup s) (n + 1)) as Hal'
      by (destruct Hal; split; [done|]; by rewrite alloc_script_setup).
  pose proof (malloc_run (setup s) 1 (n + 1) Hal') as H1.
  rewrite next_block_setup in H1.
  set (temp := next_block s) in *.
  set (s1 := log _ _) in H1.
  assert (mem s1 = <[temp := replicate (Z.to_nat (n + 1)) 0]> (mem s)) as Hm1
      by (subst s1; cbn; by rewrite mem_setup, Z.div_1_r).
  assert (heap s1 = {[temp]} ∪ heap s) as Hh1
      by (subst s1; cbn; by rewrite heap_setup).
  assert (locale s1 = locale (setup s)) as Hl1 by done.
  clearbody s1. rewrite (bind_step _ _ _ _ _ H1). clear H1. cbn [is_null].
  (* strncpy *)
  assert (strncpy (Ptr temp) (Ptr a) n s1 =
          Done tt (set_mem (<[temp := tmp ++ [0]]> (mem s1)) s1)) as H2.
  { unfold strncpy. cbn [load]. rewrite Hm1, lookup_insert_ne, Ha by done.
    cbn. rewrite Htmp.
    rewrite (store_at_run s1 temp (replicate (Z.to_nat (n + 1)) 0)).
    - rewrite Htl, drop_replicate.
      replace (Z.to_nat (n + 1) - Z.to_nat n)%nat with 1%nat by lia.
      by rewrite Hm1.
    - rewrite Hm1. apply lookup_insert_eq.
    - rewrite length_replicate. lia. }
  set (s2 := set_mem _ s1) in H2.
  assert (mem s2 = <[temp := tmp ++ [0]]> (mem s)) as Hm2
      by (subst s2; cbn; by rewrite Hm1, insert_insert_eq).
  assert (heap s2 = {[temp]} ∪ heap s) as Hh2 by done.
  assert (locale s2 = locale (setup s)) as Hl2 by done.
  clearbody s2. rewrite (bind_step _ _ _ _ _ H2). clear H2 s1 Hm1 Hh1 Hl1.
  (* temp_src[srclen] = 0 *)
  assert (store_idx (Ptr temp) n 0 s2 = Done tt s2) as H3.
  { rewrite (store_idx_run s2 temp (tmp ++ [0])).
    - f_equal. apply state_ext; cbn; try done.
      rewrite Hm2, insert_insert_eq. f_equal.
      rewrite insert_app_r_alt by lia.
      by replace (Z.to_nat n - length tmp)%nat with 0%nat by lia.
    - rewrite Hm2. apply lookup_insert_eq.
    - rewrite length_app. simpl. lia. }
  rewrite (bind_step _ _ _ _ _ H3). clear H3.
  (* mbstowcs *)
  assert (holds s2 (Ptr temp) (until_nul tmp)) as Hsrc.
  { unfold holds. cbn. rewrite Hm2, lookup_insert_eq. cbn.
    apply cstr_app_nul_any. }
  assert (mem s2 !! d = Some old) as Hd2
      by (by rewrite Hm2, lookup_insert_ne).
  assert (0 <= k <= dstlen - 1 /\ k <= Z.of_nat (length ws)) as Hk
      by (subst k; lia).
  assert (exists c1,
             mbstowcs (Ptr d) (Ptr temp) (dstlen - 1) s2 =
             Done k (set_mem (<[d := c1]> (mem s2))
                       (log (EvMbstowcs (Ptr d) (Ptr temp) (dstlen - 1)) s2)) /\
             k < Z.of_nat (length c1) /\
             <[Z.to_nat k := 0]> c1 =
             take (Z.to_nat k) ws ++ 0 :: drop (Z.to_nat k + 1) old)
    as (c1 & H4 & Hc1 & Hfin).
  { destruct (Z.ltb_spec (Z.of_nat (length ws)) (dstlen - 1)) as [Hlt|Hge].
    - assert (k = Z.of_nat (length ws)) as Hkk by (subst k; lia).
      eexists. split; [|split].
      + rewrite Hkk.
        apply (mbstowcs_run s2 d (Ptr temp) (dstlen - 1) (until_nul tmp) ws old);
          try done; [by rewrite Hl2|lia].
      + rewrite !length_app, length_drop. simpl. lia.
      + rewrite Hkk, Nat2Z.id, take_ge, <- app_assoc by lia.
        rewrite insert_app_r_alt by lia.
        by replace (length ws - length ws)%nat with 0%nat by lia.
    - assert (k = dstlen - 1) as Hkk by (subst k; lia).
      eexists. split; [|split].
      + rewrite Hkk.
        apply (mbstowcs_trunc_run s2 d (Ptr temp) (dstlen - 1) (until_nul tmp) ws old);
          try done; [by rewrite Hl2|lia|lia].
      + rewrite length_app, length_take, length_drop. lia.
      + rewrite Hkk.
        assert (length (take (Z.to_nat (dstlen - 1)) ws)
                = Z.to_nat (dstlen - 1)) as Htk by (rewrite length_take; lia).
        rewrite insert_app_r_alt by lia. rewrite Htk, Nat.sub_diag.
        destruct (drop (Z.to_nat (dstlen - 1)) old) as [|x r] eqn:Edrop.
        { apply (f_equal length) in Edrop. rewrite length_drop in Edrop.
          simpl in Edrop. lia. }
        simpl. do 2 f_equal.
        by rewrite <- drop_drop, Edrop. }
  rewrite (bind_step _ _ _ _ _ H4). clear H4.
  set (s3 := set_mem _ _).
  assert (mem s3 = <[d := c1]> (<[temp := tmp ++ [0]]> (mem s))) as Hm3
      by (subst s3; cbn; by rewrite Hm2).
  assert (heap s3 = {[temp]} ∪ heap s) as Hh3 by done.
  clearbody s3. clear Hsrc Hd2 s2 Hm2 Hh2 Hl2.
  (* free *)
  rewrite (bind_step _ _ _ _ _
             (free_run s3 temp ltac:(rewrite Hh3; set_solver))).
  set (s4 := log _ _).
  assert (mem s4 = <[d := c1]> (mem s)) as Hm4.
  { subst s4. cbn. rewrite Hm3, delete_insert_ne by done.
    by rewrite delete_insert_id by apply next_block_unused. }
  assert (heap s4 = heap s) as Hh4.
  { subst s4. cbn. rewrite Hh3. pose proof (next_block_not_live s).
    fold temp in H. set_solver. }
  clearbody s4. clear s3 Hm3 Hh3.
  (* terminator *)
  rewrite (proj2 (Z.eqb_neq k SIZE_MAX)) by (unfold SIZE_MAX; lia).
  assert (store_idx (Ptr d) k 0 s4 =
          Done tt (set_mem (<[d := <[Z.to_nat k := 0]> c1]> (mem s4)) s4)) as H6.
  { apply (store_idx_run s4 d c1); [|lia].
    rewrite Hm4. apply lookup_insert_eq. }
  exists (set_mem (<[d := <[Z.to_nat k := 0]> c1]> (mem s4)) s4). split.
  - destruct (k <? dstlen - 1) eqn:Elt.
    + rewrite (bind_step _ _ _ _ _ H6). unfold ret.
      by rewrite to_int_small by (unfold INT_MAX; lia).
    + apply Z.ltb_ge in Elt. assert (k = dstlen - 1) as Hkk by lia.
      rewrite <- Hkk. rewrite (bind_step _ _ _ _ _ H6). unfold ret.
      by rewrite to_int_small by (unfold INT_MAX; lia).
  - cbn. rewrite Hm4, insert_insert_eq, Hfin. done.
Qed.

(** C3, as amended.  When the source is valid and its wide length with
    the terminator exceeds [dstlen], [MultiByteToWideChar_compat] does
    not fail: it stores the first [dstlen - 1] wide characters and a
    terminator after them and returns [dstlen - 1].  The source length
    [n] is that of the string for [srclen = -1] and [srclen] otherwise;
    [tmp] is the copy [strncpy] makes. *)
Theorem undersized_conversion_truncates :
  forall s cp flags a srclen d dstlen cells n tmp ws old,
    0 < dstlen <= INT_MAX ->
    mem s !! a = Some cells ->
    source_length cells srclen = Some n -> 0 <= n < INT_MAX ->
    strncpy_cells cells (Z.to_nat n) = Some tmp ->
    decode (locale (setup s)) (until_nul tmp) = Some ws ->
    alloc_ok s (n + 1) ->
    mem s !! d = Some old -> dstlen <= Z.of_nat (length old) ->
    dstlen < Z.of_nat (length ws) + 1 ->
    exists s',
      MultiByteToWideChar_compat cp flags (Ptr a) srclen (Ptr d) dstlen s
      = Done (dstlen - 1) s' /\
      mem s' !! d =
        Some (take (Z.to_nat (dstlen - 1)) ws
              ++ 0 :: drop (Z.to_nat dstlen) old).
Proof.
  intros s cp flags a srclen d dstlen cells n tmp ws old
         Hdst Ha Hn Hnr Htmp Hd Hal Hdm Hcap Hsmall.
  destruct (MultiByteToWideChar_run s cp flags a srclen d dstlen cells n tmp
              ws old) as (s' & H & M & _); try done.
  replace (Z.of_nat (length ws) `min` (dstlen - 1)) with (dstlen - 1)
    in H, M by lia.
  exists s'. split; [done|].
  rewrite M, lookup_insert_eq.
  by replace (Z.to_nat (dstlen - 1) + 1)%nat with (Z.to_nat dstlen) by lia.
Qed.

End MultiByteToWideChar.

(** C3 as stated fails: converting ["abc"] into a buffer of capacity 2
    does not return 0 with [ERANGE] and an untouched buffer. *)
Lemma undersized_conversion_counterexample :
  ~ (exists s',
        MultiByteToWideChar_compat CP_UTF8 0 (Ptr 1) (-1) (Ptr 2) 2
          (Toy.start [97; 98; 99; 0] [7; 7; 7] Toy.home) = Done 0 s'
        /\ errno s' = ERANGE /\ mem s' !! 2%nat = Some [7; 7; 7]).
Proof. intros (s' & H & _). vm_compute in H. discriminate H. Qed.

Lemma undersized_conversion_truncates_witness :
  exists s',
    MultiByteToWideChar_compat CP_UTF8 0 (Ptr 1) (-1) (Ptr 2) 2
      (Toy.start [97; 98; 99; 0] [7; 7; 7] Toy.home) = Done 1 s' /\
    mem s' !! 2%nat = Some [97; 0; 7].
Proof.
  apply (undersized_conversion_truncates
           (Toy.start [97; 98; 99; 0] [7; 7; 7] Toy.home)
           CP_UTF8 0 1%nat (-1) 2%nat 2 [97; 98; 99; 0] 3
           [97; 98; 99] [97; 98; 99] [7; 7; 7]).
  - by vm_compute.
  - reflexivity.
  - reflexivity.
  - by vm_compute.
  - reflexivity.
  - by vm_compute.
  - split; [by vm_compute|reflexivity].
  - reflexivity.
  - simpl. lia.
  - simpl. lia.
Defined.

(** ** Round trip *)

Section RoundTrip.
Context {W : Type} {OS : Posix W}.
Implicit Types s t : state W.

Lemma encode_representable l ws :
  Forall (fun c => representable l c = true) ws -> is_Some (encode l ws).
Proof.
  destruct l.
  - induction 1 as [|c ws Hc _ [r IH]]; simpl; [by eexists|].
    simpl in Hc. rewrite Hc, IH. by eexists.
  - apply encode_scalar.
Qed.

(** C4.  A wide string [ws] without NUL whose characters the locale [l]
    can represent (ASCII in any locale, every Unicode scalar value in a
    UTF-8 locale) narrows to bytes [bs] that widen back to [ws].  In the
    code: [wchdir_compat] hands [bs] to [chdir]; when the kernel reports
    [bs] as the working directory, [wgetcwd_compat] returns [ws] with
    its terminator; and [MultiByteToWideChar_compat] turns [bs] into
    [ws] with its terminator in a buffer with room for it. *)
Theorem wide_bytes_wide_round_trip :
  forall l ws,
    Forall (fun c => representable l c = true) ws ->
    Forall (fun c => c ≠ 0) ws ->
    exists bs,
      encode l ws = Some bs /\ decode l bs = Some ws /\
      (forall s b,
          locale s = l -> mem s !! b = Some (ws ++ [0]) ->
          alloc_ok s (Z.of_nat (length bs) + 1) ->
          exists r s',
            wchdir_compat (Ptr b) s = Done r s' /\
            In (EvChdir bs) (trace s')) /\
      (forall t w',
          locale t = l -> sys_getcwd (world t) = (SysOk bs, w') ->
          alloc_ok t (Z.of_nat (length bs) + 1) ->
          (Z.of_nat (length ws) + 1) * sizeof_wchar_t <= PTRDIFF_MAX ->
          hd true (tail (alloc_script t)) = true ->
          exists rb t',
            wgetcwd_compat NULL 0 t = Done (Ptr rb) t' /\
            mem t' !! rb = Some (ws ++ [0])) /\
      (forall t cp flags a d dstlen old,
          locale (setup t) = l ->
          mem t !! a = Some (bs ++ [0]) -> mem t !! d = Some old ->
          Z.of_nat (length ws) < dstlen <= INT_MAX ->
          dstlen <= Z.of_nat (length old) ->
          Z.of_nat (length bs) < INT_MAX ->
          alloc_ok t (Z.of_nat (length bs) + 1) ->
          exists t',
            MultiByteToWideChar_compat cp flags (Ptr a) (-1) (Ptr d) dstlen t
            = Done (Z.of_nat (length ws)) t' /\
            mem t' !! d = Some (ws ++ 0 :: drop (length ws + 1) old)).
Proof.
  intros l ws Hrep Hnz.
  destruct (encode_representable l ws Hrep) as [bs He].
  pose proof (decode_encode _ _ _ He) as Hd.
  pose proof (encode_nonzero _ _ _ He Hnz) as Hbnz.
  exists bs. split; [done|]. split; [done|]. repeat apply conj.
  - intros s b <- Hm Ha.
    destruct (wchdir_compat_run s b ws bs) as (s' & H & E & _); try done.
    { by apply holds_filled. }
    do 2 eexists. split; [exact H|]. rewrite E.
    apply in_or_app. right. simpl. tauto.
  - intros t w' <- Hsys Ha Hmax Hscr.
    destruct (wgetcwd_auto_run t NULL 0 bs w' ws) as (t' & H & M & _);
      rewrite ?until_nul_id by done; try done.
    eexists _, t'. split; [exact H|]. rewrite M. apply lookup_insert_eq.
  - intros t cp flags a d dstlen old <- Ha Hdm Hlen Hcap Hn Hal.
    assert (cstr (bs ++ [0]) = Some bs) as Hc by (by apply cstr_app_nul).
    destruct (MultiByteToWideChar_run t cp flags a (-1) d dstlen (bs ++ [0])
                (Z.of_nat (length bs)) bs ws old)
      as (t' & H & M & _).
    + lia.
    + done.
    + unfold source_length. simpl. by rewrite Hc.
    + lia.
    + rewrite Nat2Z.id. by apply strncpy_cells_cstr.
    + by rewrite until_nul_id.
    + done.
    + done.
    + done.
    + replace (Z.of_nat (length ws) `min` (dstlen - 1))
        with (Z.of_nat (length ws)) in H, M by lia.
      exists t'. split; [done|]. rewrite M, lookup_insert_eq.
      by rewrite Nat2Z.id, take_ge by lia.
Qed.

End RoundTrip.

Lemma wide_bytes_wide_round_trip_witness :
  exists bs,
    encode LC_UTF8 Toy.donnees = Some bs /\
    decode LC_UTF8 bs = Some Toy.donnees /\
    (exists r s',
        wchdir_compat (Ptr 1)
          (Toy.start_utf8 (Toy.donnees ++ [0]) [] Toy.home) = Done r s' /\
        In (EvChdir bs) (trace s')).
Proof.
  destruct (wide_bytes_wide_round_trip (OS := Toy.posix) LC_UTF8 Toy.donnees)
    as (bs & He & Hd & H1 & _).
  - repeat constructor.
  - repeat constructor; discriminate.
  - exists bs. split; [exact He|]. split; [exact Hd|].
    apply H1; [reflexivity|reflexivity|].
    vm_compute in He. injection He as <-.
    split; [by vm_compute|reflexivity].
Defined.

(** ** What every run preserves *)

Section Effects.
Context {W : Type} {OS : Posix W}.
Implicit Types s t : state W.

Lemma count_events_app f evs1 evs2 :
  count_events f (evs1 ++ evs2) = (count_events f evs1 + count_events f evs2)%nat.
Proof. induction evs1 as [|e r IH]; simpl; [done|]. rewrite IH. lia. Qed.

Lemma bind_inv {A B} (m : M A) (k : A -> M B) s r s' :
  bind m k s = Done r s' ->
  exists a s1, m s = Done a s1 /\ k a s1 = Done r s'.
Proof. unfold bind. destruct (m s) as [a s1|]; [|done]. by exists a, s1. Qed.

Lemma read_str_inv p s str s' : read_str p s = Done str s' -> s' = s.
Proof. unfold read_str. case_match; by intros [= _ <-]. Qed.

Lemma store_at_quiet p cells s u s' :
  store_at p cells s = Done u s' -> quiet s s'.
Proof.
  unfold store_at, update. intros H.
  repeat (case_match; simplify_eq/=); by repeat split.
Qed.

Lemma store_idx_quiet p i v s u s' :
  store_idx p i v s = Done u s' -> quiet s s'.
Proof.
  unfold store_idx, update. intros H.
  repeat (case_match; simplify_eq/=); by repeat split.
Qed.

Lemma syscall_quiet {A} (f : W -> sysres A * W) s r s' :
  syscall f s = Done r s' -> quiet s s'.
Proof.
  unfold syscall. intros H.
  repeat (case_match; simplify_eq/=); by repeat split.
Qed.

(** Take a finished run apart into the runs of its steps. *)
Ltac invert_run :=
  repeat match goal with
  | H : bind _ _ _ = Done _ _ |- _ =>
    let a := fresh "a" in
    let s1 := fresh "s" in
    let H1 := fresh "Hrun" in
    apply bind_inv in H as (a & s1 & H1 & H)
  | H : ret _ _ = Done _ _ |- _ => unfold ret in H; injection H as <- <-
  | H : modify _ _ = Done _ _ |- _ => unfold modify in H; injection H as _ <-
  | H : get _ _ = Done _ _ |- _ => unfold get in H; injection H as <- <-
  | H : fault _ = Done _ _ |- _ => discriminate H
  | H : read_str _ _ = Done _ _ |- _ => apply read_str_inv in H; subst
  | H : (if ?c then _ else _) _ = Done _ _ |- _ => destruct c eqn:?
  | H : match ?x with _ => _ end _ = Done _ _ |- _ => destruct x eqn:?
  end.

(** Close a goal about a state reached through quiet steps. *)
Ltac quiet_steps :=
  repeat match goal with
  | H : store_at _ _ _ = Done _ _ |- _ => apply store_at_quiet in H
  | H : store_idx _ _ _ _ = Done _ _ |- _ => apply store_idx_quiet in H
  | H : syscall _ _ = Done _ _ |- _ => apply syscall_quiet in H
  end;
  unfold quiet, same_locale, setlocale_calls in *;
  cbn [heap locale locale_set c_utf8_installed trace
       log set_errno set_world set_mem set_heap set_alloc_script
       set_pcells set_program_path set_locale set_locale_set] in *;
  repeat match goal with
  | H : _ /\ _ |- _ => destruct H
  end;
  rewrite ?count_events_app in *;
  cbn [count_events is_setlocale] in *;
  repeat split; try congruence; try lia.

Lemma wcstombs_quiet dst src n s r s' :
  wcstombs dst src n s = Done r s' -> quiet s s'.
Proof. unfold wcstombs. intros H. invert_run; quiet_steps. Qed.

Lemma mbstowcs_quiet dst src n s r s' :
  mbstowcs dst src n s = Done r s' -> quiet s s'.
Proof. unfold mbstowcs. intros H. invert_run; quiet_steps. Qed.

Lemma strlen_quiet p s r s' : strlen p s = Done r s' -> quiet s s'.
Proof. unfold strlen. intros H. invert_run; quiet_steps. Qed.

Lemma strncpy_quiet dst src n s u s' :
  strncpy dst src n s = Done u s' -> quiet s s'.
Proof.
  unfold strncpy. intros H. case_match; [|done]. by eapply store_at_quiet.
Qed.

Lemma store_ptr_quiet pp v s u s' :
  store_ptr pp v s = Done u s' -> quiet s s'.
Proof.
  unfold store_ptr. intros H. repeat (case_match; simplify_eq/=).
  by repeat split.
Qed.

Lemma chdir_quiet p s r s' : chdir p s = Done r s' -> quiet s s'.
Proof. unfold chdir. intros H. invert_run; quiet_steps. Qed.

Lemma realpath_quiet p s r s' : realpath p s = Done r s' -> quiet s s'.
Proof. unfold realpath. intros H. invert_run; quiet_steps. Qed.

Lemma readlink_quiet path buf n s r s' :
  readlink path buf n s = Done r s' -> quiet s s'.
Proof. unfold readlink. intros H. invert_run; quiet_steps. Qed.

Lemma fopen_quiet f m s r s' : fopen f m s = Done r s' -> quiet s s'.
Proof. unfold fopen. intros H. invert_run; quiet_steps. Qed.

Lemma remove_quiet f s r s' : remove f s = Done r s' -> quiet s s'.
Proof. unfold remove. intros H. invert_run; quiet_steps. Qed.

Lemma rename_quiet o n s r s' : rename o n s = Done r s' -> quiet s s'.
Proof. unfold rename. intros H. invert_run; quiet_steps. Qed.

Lemma malloc_effect elt n s p s' :
  malloc elt n s = Done p s' -> same_locale s s' /\ allocated s s' p.
Proof.
  unfold malloc. intros H.
  pose proof (next_block_not_live s) as Hn. unfold next_block in Hn.
  repeat (case_match; simplify_eq/=); quiet_steps.
Qed.

Lemma free_effect p s u s' :
  free p s = Done u s' -> same_locale s s' /\ freed s s' p.
Proof.
  unfold free. intros H.
  repeat (case_match; simplify_eq/=); quiet_steps.
Qed.

(** Replace the run of every primitive by what it does to the heap and
    to the locale configuration. *)
Ltac prim_effects :=
  repeat match goal with
  | H : wcstombs _ _ _ _ = Done _ _ |- _ => apply wcstombs_quiet in H
  | H : mbstowcs _ _ _ _ = Done _ _ |- _ => apply mbstowcs_quiet in H
  | H : strlen _ _ = Done _ _ |- _ => apply strlen_quiet in H
  | H : strncpy _ _ _ _ = Done _ _ |- _ => apply strncpy_quiet in H
  | H : store_at _ _ _ = Done _ _ |- _ => apply store_at_quiet in H
  | H : store_idx _ _ _ _ = Done _ _ |- _ => apply store_idx_quiet in H
  | H : store_ptr _ _ _ = Done _ _ |- _ => apply store_ptr_quiet in H
  | H : syscall _ _ = Done _ _ |- _ => apply syscall_quiet in H
  | H : chdir _ _ = Done _ _ |- _ => apply chdir_quiet in H
  | H : realpath _ _ = Done _ _ |- _ => apply realpath_quiet in H
  | H : readlink _ _ _ _ = Done _ _ |- _ => apply readlink_quiet in H
  | H : fopen _ _ _ = Done _ _ |- _ => apply fopen_quiet in H
  | H : remove _ _ = Done _ _ |- _ => apply remove_quiet in H
  | H : rename _ _ _ = Done _ _ |- _ => apply rename_quiet in H
  | H : malloc _ _ _ = Done _ _ |- _ => apply malloc_effect in H
  | H : free _ _ = Done _ _ |- _ => apply free_effect in H
  end.

Lemma allocated_live s s' p :
  allocated s s' p -> is_null p = false ->
  exists b, p = Ptr b /\ (b ∉ heap s) /\ heap s' = {[b]} ∪ heap s.
Proof. destruct p; simpl; try done. intros [? ?] _. by eexists. Qed.

Lemma allocated_null s s' p :
  allocated s s' p -> is_null p = true -> p = NULL /\ heap s' = heap s.
Proof. by destruct p. Qed.

(** Settle which pointers were null. *)
Ltac settle_pointers :=
  repeat match goal with
  | H : _ /\ _ |- _ => destruct H
  | H : allocated _ _ ?p, Hn : is_null ?p = false |- _ =>
    let b := fresh "b" in
    destruct (allocated_live _ _ _ H Hn) as (b & -> & ? & ?); clear H Hn
  | H : allocated _ _ ?p, Hn : is_null ?p = true |- _ =>
    destruct (allocated_null _ _ _ H Hn) as [-> ?]; clear H Hn
  end;
  cbn [freed allocated] in *.

(** Compare two heaps, given how each step changed the heap. *)
Ltac settle_heap :=
  cbn [heap log set_errno set_world set_mem set_alloc_script
       set_pcells set_program_path set_locale set_locale_set] in *;
  repeat match goal with
  | H : heap ?x = _ |- _ => rewrite H in *; clear H
  end;
  repeat match goal with
  | H : ?T |- _ =>
    lazymatch T with
    | _ ∉ _ => fail
    | _ => clear H
    end
  end;
  set_solver.

(** Compare two locale configurations. *)
Ltac settle_locale :=
  unfold same_locale, setlocale_calls in *;
  cbn [locale locale_set c_utf8_installed trace
       log set_errno set_world set_mem set_heap set_alloc_script
       set_pcells set_program_path set_locale set_locale_set] in *;
  repeat match goal with
  | H : _ /\ _ |- _ => destruct H
  end;
  rewrite ?count_events_app in *;
  cbn [count_events is_setlocale] in *;
  repeat split; first [congruence | lia].

Ltac settle_effects :=
  unfold quiet in *; settle_pointers;
  repeat match goal with
  | |- _ /\ _ => split
  end;
  first [settle_locale | settle_heap].

Lemma getcwd_alloc_effect s p s' :
  getcwd_alloc s = Done p s' -> same_locale s s' /\ allocated s s' p.
Proof.
  unfold getcwd_alloc. intros H. invert_run; prim_effects; settle_effects.
Qed.

(** *** The functions of the file *)

Lemma wchdir_compat_effect path s r s' :
  wchdir_compat path s = Done r s' -> quiet s s'.
Proof.
  unfold wchdir_compat. intros H. invert_run; prim_effects; settle_effects.
Qed.

Lemma _wremove_effect filename s r s' :
  _wremove filename s = Done r s' -> quiet s s'.
Proof.
  unfold _wremove. intros H. invert_run; prim_effects; settle_effects.
Qed.

Lemma wfullpath_compat_effect dst src size s r s' :
  wfullpath_compat dst src size s = Done r s' -> quiet s s'.
Proof.
  unfold wfullpath_compat. intros H. invert_run; prim_effects; settle_effects.
Qed.

Lemma _wfopen_effect filename mode s r s' :
  _wfopen filename mode s = Done r s' -> quiet s s'.
Proof.
  unfold _wfopen. intros H. invert_run; prim_effects; settle_effects.
Qed.

Lemma _wrename_effect oldname newname s r s' :
  _wrename oldname newname s = Done r s' -> quiet s s'.
Proof.
  unfold _wrename. intros H. invert_run; prim_effects; settle_effects.
Qed.

Lemma get_pgmptr_compat_effect ptr s r s' :
  get_pgmptr_compat ptr s = Done r s' -> quiet s s'.
Proof.
  unfold get_pgmptr_compat. intros H. invert_run; prim_effects; settle_effects.
Qed.

Lemma wgetcwd_compat_effect buffer size s r s' :
  wgetcwd_compat buffer size s = Done r s' ->
  same_locale s s' /\
  (heap s' = heap s \/
   (is_null buffer || (size =? 0) = true /\
    exists rb, r = Ptr rb /\ (rb ∉ heap s) /\ heap s' = {[rb]} ∪ heap s)).
Proof.
  unfold wgetcwd_compat. intros H. cbv zeta in H.
  invert_run; prim_effects;
    repeat match goal with
    | H : getcwd_alloc _ = Done _ _ |- _ => apply getcwd_alloc_effect in H
    end;
    unfold quiet in *; settle_pointers; (split; [settle_locale|]).
  all: try (left; settle_heap).
  right. split; [done|]. eexists. split; [done|].
  cbn [heap log set_errno] in *.
  repeat match goal with
  | H : heap ?x = _ |- _ => rewrite H in *; clear H
  end.
  split; set_solver.
Qed.

Lemma MultiByteToWideChar_compat_effect cp flags src srclen dst dstlen s r s' :
  MultiByteToWideChar_compat cp flags src srclen dst dstlen s = Done r s' ->
  (is_null src || is_null dst || (dstlen <=? 0) = true /\ s' = s) \/
  (is_null src || is_null dst || (dstlen <=? 0) = false /\
   quiet (setup s) s').
Proof.
  unfold MultiByteToWideChar_compat. intros H.
  destruct (is_null src || is_null dst || (dstlen <=? 0)) eqn:Eargs.
  - left. unfold ret in H. by injection H as _ <-.
  - right. split; [done|]. rewrite setup_run in H.
    invert_run; prim_effects; settle_effects.
Qed.

End Effects.

(** ** Intermediate buffers *)

Section NoLeak.
Context {W : Type} {OS : Posix W}.
Implicit Types s t : state W.

Lemma _wrename_unfold o n :
  _wrename (W := W) (Ptr o) (Ptr n) =
  narrow (Ptr o) (ret (-1))
    (bind (modify (set_errno ENOMEM)) (fun _ => ret (-1)))
    (fun mboldname =>
       narrow (Ptr n)
         (bind (free mboldname) (fun _ => ret (-1)))
         (bind (free mboldname) (fun _ =>
          bind (modify (set_errno ENOMEM)) (fun _ => ret (-1))))
         (fun mbnewname =>
            bind (rename mboldname mbnewname) (fun result =>
            bind (free mboldname) (fun _ =>
            bind (free mbnewname) (fun _ => ret result))))).
Proof. reflexivity. Qed.

(** [_wrename] when the old name narrows and the new name does not: the
    buffer of the old name is released before the function fails. *)
Lemma _wrename_partial_run s o n ws_o bs_o ws_n :
  holds s (Ptr o) ws_o -> holds s (Ptr n) ws_n ->
  encode (locale s) ws_o = Some bs_o ->
  alloc_ok s (Z.of_nat (length bs_o) + 1) ->
  (wcstombs_len (locale s) ws_n = None \/
   exists len,
     wcstombs_len (locale s) ws_n = Some len /\ len < SIZE_MAX /\
     ~ alloc_ok (narrowed s (Ptr o) bs_o) (len + 1)) ->
  exists s',
    _wrename (Ptr o) (Ptr n) s = Done (-1) s' /\
    heap s' = heap s /\ mem s' = mem s /\
    In (EvMalloc (Z.of_nat (length bs_o) + 1) (Ptr (next_block s))) (trace s') /\
    In (EvFree (Ptr (next_block s))) (trace s') /\
    (errno s' = EILSEQ \/ errno s' = ENOMEM).
Proof.
  intros Ho Hn He Ha Hfail. rewrite _wrename_unfold.
  rewrite (narrow_ok _ _ _ _ _ _ _ Ho He Ha).
  pose proof (narrowed_holds_old s (Ptr o) bs_o _ _ Hn) as Hn1.
  destruct (release_restores s (bs_o ++ [0])) as [Em Eh].
  destruct Hfail as [Hbad | (len & Hlen & Hlt & Hno)].
  - rewrite (narrow_bad_encoding _ _ _ _ _ _ Hn1 Hbad).
    eexists. split.
    { eapply bind_run; [apply free_run; cbn; set_solver|]. reflexivity. }
    cbn. rewrite Em, Eh, <- !app_assoc. repeat split; try (by left).
    + apply in_or_app. right. simpl. tauto.
    + apply in_or_app. right. simpl. tauto.
  - rewrite (narrow_no_memory _ _ _ _ _ _ _ Hn1 Hlen Hlt Hno).
    eexists. split.
    { eapply bind_run; [apply free_run; cbn; set_solver|]. reflexivity. }
    cbn. rewrite Em, Eh, <- !app_assoc. repeat split; try (by right).
    + apply in_or_app. right. simpl. tauto.
    + apply in_or_app. right. simpl. tauto.
Qed.

(** C7.  Whatever its arguments and whichever way it returns, a function
    of the layer leaves the heap as it found it: every buffer it
    allocated has been freed.  The one exception is the result of
    [wgetcwd_compat] in auto-allocation mode, which belongs to the
    caller.  In particular, when [_wrename] has narrowed the old name and
    the new name cannot be encoded, or its buffer cannot be allocated,
    the buffer of the old name is freed before the function returns
    -1. *)
Theorem intermediate_buffers_freed :
  (forall path s r s', wchdir_compat path s = Done r s' -> heap s' = heap s) /\
  (forall dst src size s r s',
      wfullpath_compat dst src size s = Done r s' -> heap s' = heap s) /\
  (forall cp flags src srclen dst dstlen s r s',
      MultiByteToWideChar_compat cp flags src srclen dst dstlen s = Done r s' ->
      heap s' = heap s) /\
  (forall filename mode s r s',
      _wfopen filename mode s = Done r s' -> heap s' = heap s) /\
  (forall filename s r s', _wremove filename s = Done r s' -> heap s' = heap s) /\
  (forall oldname newname s r s',
      _wrename oldname newname s = Done r s' -> heap s' = heap s) /\
  (forall ptr s r s', get_pgmptr_compat ptr s = Done r s' -> heap s' = heap s) /\
  (forall buffer size s r s',
      wgetcwd_compat buffer size s = Done r s' ->
      heap s' = heap s \/
      (is_null buffer || (size =? 0) = true /\
       exists rb, r = Ptr rb /\ (rb ∉ heap s) /\ heap s' = {[rb]} ∪ heap s)) /\
  (forall s o n ws_o bs_o ws_n,
      holds s (Ptr o) ws_o -> holds s (Ptr n) ws_n ->
      encode (locale s) ws_o = Some bs_o ->
      alloc_ok s (Z.of_nat (length bs_o) + 1) ->
      (wcstombs_len (locale s) ws_n = None \/
       exists len,
         wcstombs_len (locale s) ws_n = Some len /\ len < SIZE_MAX /\
         ~ alloc_ok (narrowed s (Ptr o) bs_o) (len + 1)) ->
      exists s',
        _wrename (Ptr o) (Ptr n) s = Done (-1) s' /\
        heap s' = heap s /\
        In (EvMalloc (Z.of_nat (length bs_o) + 1) (Ptr (next_block s)))
           (trace s') /\
        In (EvFree (Ptr (next_block s))) (trace s')).
Proof.
  repeat apply conj.
  - intros path s r s' H. by apply wchdir_compat_effect in H as [? _].
  - intros dst src size s r s' H. by apply wfullpath_compat_effect in H as [? _].
  - intros cp flags src srclen dst dstlen s r s' H.
    apply MultiByteToWideChar_compat_effect in H as [[_ ->] | [_ [H _]]]; [done|].
    by rewrite H, heap_setup.
  - intros filename mode s r s' H. by apply _wfopen_effect in H as [? _].
  - intros filename s r s' H. by apply _wremove_effect in H as [? _].
  - intros oldname newname s r s' H. by apply _wrename_effect in H as [? _].
  - intros ptr s r s' H. by apply get_pgmptr_compat_effect in H as [? _].
  - intros buffer size s r s' H. by apply wgetcwd_compat_effect in H as [_ ?].
  - intros s o n ws_o bs_o ws_n Ho Hn He Ha Hfail.
    destruct (_wrename_partial_run s o n ws_o bs_o ws_n)
      as (s' & H & Hh & _ & E1 & E2 & _); try done.
    by exists s'.
Qed.

End NoLeak.

Lemma intermediate_buffers_freed_witness :
  (exists r s',
      wchdir_compat (Ptr 1)
        (Toy.start_utf8 (Toy.donnees ++ [0]) [] Toy.home) = Done r s' /\
      heap s' = ∅) /\
  (exists s',
      _wrename (Ptr 1) (Ptr 2)
        (Toy.start_utf8 [97; 0] [55296; 0] Toy.home) = Done (-1) s' /\
      heap s' = ∅ /\
      In (EvMalloc 2 (Ptr 3)) (trace s') /\ In (EvFree (Ptr 3)) (trace s')).
Proof.
  split.
  - pose proof (proj1 (intermediate_buffers_freed (OS := Toy.posix)) (Ptr 1)
                  (Toy.start_utf8 (Toy.donnees ++ [0]) [] Toy.home)) as H.
    destruct (wchdir_compat (Ptr 1)
                (Toy.start_utf8 (Toy.donnees ++ [0]) [] Toy.home))
      as [r s'|] eqn:E.
    + exists r, s'. split; [reflexivity|]. exact (H r s' eq_refl).
    + vm_compute in E. discriminate E.
  - destruct (proj2 (proj2 (proj2 (proj2 (proj2 (proj2 (proj2 (proj2
                (intermediate_buffers_freed (OS := Toy.posix)))))))))
                (Toy.start_utf8 [97; 0] [55296; 0] Toy.home)
                1%nat 2%nat [97] [97] [55296])
      as (s' & H & Hh & E1 & E2).
    + by vm_compute.
    + by vm_compute.
    + by vm_compute.
    + split; [by vm_compute|reflexivity].
    + left. by vm_compute.
    + exists s'. split; [exact H|]. split; [exact Hh|]. split.
      * exact E1.
      * exact E2.
Defined.

(** ** Locale set-up *)

Section LocaleSetup.
Context {W : Type} {OS : Posix W}.
Implicit Types s t : state W.

Lemma final_Some {A} (o : outcome A) s' :
  final o = Some s' -> exists r, o = Done r s'.
Proof. destruct o as [r t|]; [|done]. intros [= <-]. by exists r. Qed.

Lemma setup_set s : locale_set s = true -> setup s = s.
Proof. unfold setup. by intros ->. Qed.

Lemma setup_unset s :
  locale_set s = false ->
  locale_set (setup s) = true /\
  setlocale_calls (setup s) = S (setlocale_calls s) /\
  c_utf8_installed (setup s) = c_utf8_installed s /\
  locale (setup s) = if c_utf8_installed s then LC_UTF8 else locale s.
Proof.
  unfold setup, locale_lookup. intros ->.
  destruct (c_utf8_installed s) eqn:E;
    destruct (setlocale_errno (world (log EvSetlocale s)));
    unfold setlocale_calls; cbn; rewrite ?E, count_events_app; simpl;
    repeat split; lia.
Qed.

(** Every function but [MultiByteToWideChar_compat] leaves the locale
    configuration alone. *)
Lemma other_calls_same_locale c s s' :
  is_conversion_call c = false -> run_call c s = Some s' -> same_locale s s'.
Proof.
  intros Hc H. destruct c; try discriminate Hc; simpl in H;
    apply final_Some in H as [r H].
  - by apply wchdir_compat_effect in H as [_ ?].
  - by apply wgetcwd_compat_effect in H as [? _].
  - by apply get_pgmptr_compat_effect in H as [_ ?].
  - by apply wfullpath_compat_effect in H as [_ ?].
  - by apply _wfopen_effect in H as [_ ?].
  - by apply _wremove_effect in H as [_ ?].
  - by apply _wrename_effect in H as [_ ?].
Qed.

(** Once the flag is set no call touches the locale configuration. *)
Lemma set_calls_same_locale c s s' :
  locale_set s = true -> run_call c s = Some s' -> same_locale s s'.
Proof.
  intros Hset H. destruct (is_conversion_call c) eqn:Hc;
    [|by eapply other_calls_same_locale].
  destruct c; try discriminate Hc. simpl in H.
  apply final_Some in H as [r H].
  apply MultiByteToWideChar_compat_effect in H as [[_ ->] | [_ [_ H]]].
  - by repeat split.
  - by rewrite setup_set in H.
Qed.

Lemma setup_once_call c s s' :
  run_call c s = Some s' -> setup_once s -> setup_once s'.
Proof.
  unfold setup_once. intros H Hinv.
  destruct (locale_set s) eqn:Hset.
  - apply (set_calls_same_locale _ _ _ Hset) in H as (_ & Hf & _ & Hc).
    by rewrite Hc, Hf, Hset.
  - destruct (is_conversion_call c) eqn:Hcc.
    + destruct c; try discriminate Hcc. simpl in H.
      apply final_Some in H as [r H].
      apply MultiByteToWideChar_compat_effect in H as [[_ ->] | [_ [_ H]]].
      * by rewrite Hset.
      * destruct H as (_ & Hf & _ & Hc).
        destruct (setup_unset s Hset) as (Hf' & Hc' & _).
        rewrite Hc, Hf, Hf', Hc', Hinv. done.
    + apply (other_calls_same_locale _ _ _ Hcc) in H as (_ & Hf & _ & Hc).
      by rewrite Hc, Hf, Hset.
Qed.

(** C8, as amended.  The set-up is made by [MultiByteToWideChar_compat]
    alone: its first call that passes the argument check while the flag
    is unset calls [setlocale] once and sets the flag.  The other
    functions never make it, whether they convert or not.  Once the
    flag is set, no call of any function of the layer makes the set-up
    again or changes the locale configuration.  Hence, along any run of
    a process, [setlocale] has been called by the layer exactly once if
    the flag is set and never otherwise. *)
Theorem locale_setup_once :
  (forall cp flags src srclen dst dstlen s r s',
      locale_set s = false ->
      is_null src || is_null dst || (dstlen <=? 0) = false ->
      MultiByteToWideChar_compat cp flags src srclen dst dstlen s = Done r s' ->
      locale_set s' = true /\
      setlocale_calls s' = S (setlocale_calls s) /\
      locale s' = if c_utf8_installed s then LC_UTF8 else locale s) /\
  (forall c s s',
      is_conversion_call c = false -> run_call c s = Some s' ->
      same_locale s s') /\
  (forall c s s',
      locale_set s = true -> run_call c s = Some s' -> same_locale s s') /\
  (forall s s', rtc step s s' -> setup_once s -> setup_once s').
Proof.
  repeat apply conj.
  - intros cp flags src srclen dst dstlen s r s' Hset Hargs H.
    apply MultiByteToWideChar_compat_effect in H as [[Hbad _] | [_ [_ H]]].
    { by rewrite Hargs in Hbad. }
    destruct H as (Hl & Hf & _ & Hc).
    destruct (setup_unset s Hset) as (Hf' & Hc' & _ & Hl').
    by rewrite Hf, Hc, Hl.
  - apply other_calls_same_locale.
  - apply set_calls_same_locale.
  - induction 1 as [s|s t u Hstep _ IH]; [done|]. intros Hinv. apply IH.
    destruct Hstep as [c s t Hrun | s t (_ & Hf & _ & Hc)].
    + by eapply setup_once_call.
    + unfold setup_once in *. by rewrite Hc, Hf.
Qed.

End LocaleSetup.

Lemma locale_setup_once_witness :
  exists r s',
    MultiByteToWideChar_compat CP_UTF8 0 (Ptr 1) (-1) (Ptr 2) 4
      (Toy.start [97; 98; 99; 0] [7; 7; 7; 7] Toy.home) = Done r s' /\
    locale_set s' = true /\ setlocale_calls s' = 1%nat /\
    locale s' = LC_UTF8 /\ setup_once s'.
Proof.
  pose proof (locale_setup_once (W := Toy.world) (OS := Toy.posix))
    as (H1 & _ & _ & H4).
  specialize (H1 CP_UTF8 0 (Ptr 1) (-1) (Ptr 2) 4
                (Toy.start [97; 98; 99; 0] [7; 7; 7; 7] Toy.home)).
  specialize (H4 (Toy.start [97; 98; 99; 0] [7; 7; 7; 7] Toy.home)).
  pose proof (step_call
                (CallMultiByteToWideChar CP_UTF8 0 (Ptr 1) (-1) (Ptr 2) 4)
                (Toy.start [97; 98; 99; 0] [7; 7; 7; 7] Toy.home)) as Hstep.
  simpl run_call in Hstep.
  destruct (MultiByteToWideChar_compat CP_UTF8 0 (Ptr 1) (-1) (Ptr 2) 4
              (Toy.start [97; 98; 99; 0] [7; 7; 7; 7] Toy.home))
    as [r s'|] eqn:E.
  - exists r, s'. split; [reflexivity|].
    destruct (H1 r s' eq_refl eq_refl eq_refl) as (Hf & Hc & Hl).
    split; [exact Hf|]. split; [exact Hc|]. split; [exact Hl|].
    apply H4; [|reflexivity].
    apply rtc_once. exact (Hstep s' eq_refl).
  - vm_compute in E. discriminate E.
Defined.

(** C8 as stated fails for the first call that needs the locale when
    that call is not a [MultiByteToWideChar_compat]: in a fresh process
    [wchdir_compat] on [L"/données"] converts, makes no set-up and fails
    with [EILSEQ]. *)
Lemma locale_setup_counterexample :
  ~ (forall r s',
        wchdir_compat (Ptr 1) (Toy.start (Toy.donnees ++ [0]) [] Toy.home)
        = Done r s' ->
        (0 < count_events is_conversion (trace s'))%nat ->
        locale_set s' = true /\ setlocale_calls s' = 1%nat).
Proof.
  intros H.
  assert (exists s',
             wchdir_compat (Ptr 1) (Toy.start (Toy.donnees ++ [0]) [] Toy.home)
             = Done (-1) s' /\
             count_events is_conversion (trace s') = 1%nat /\
             locale_set s' = false /\ errno s' = EILSEQ)
    as (s' & E & Hc & Hf & _).
  { eexists. split; [by vm_compute|]. by vm_compute. }
  destruct (H _ _ E) as [Hs _]; [rewrite Hc; lia|]. congruence.
Qed.

(** ** The program path *)

Section ProgramPath.
Context {W : Type} {OS : Posix W}.
Implicit Types s : state W.

(** C9.  When [readlink] on ["/proc/self/exe"] fails, [get_pgmptr_compat]
    returns -1 and the caller's pointer object is as it was (so are the
    static array and all of memory), whatever [ptr] is.  On every return
    the pointer object is either untouched, with result -1, or, with
    result 0, set to the static array. *)
Theorem get_pgmptr_failure_frame :
  forall ptr s e w',
    sys_readlink proc_self_exe (world s) = (SysErr e, w') ->
    (exists s',
        get_pgmptr_compat ptr s = Done (-1) s' /\
        pcells s' = pcells s /\ program_path s' = program_path s /\
        mem s' = mem s /\ errno s' = e) /\
    (forall t r t',
        get_pgmptr_compat ptr t = Done r t' ->
        (r = -1 /\ pcells t' = pcells t) \/
        (r = 0 /\ exists a, ptr = Some a /\
                  pcells t' = <[a := ProgramPath]> (pcells t))).
Proof.
  intros ptr s e w' Hfail. split.
  - eexists. split.
    + unfold get_pgmptr_compat, readlink.
      eapply bind_run.
      { unfold bind at 1, modify. eapply bind_run; [apply syscall_run|].
        cbn [world log]. rewrite Hfail. reflexivity. }
      reflexivity.
    + by cbn.
  - intros t r t'. unfold get_pgmptr_compat, readlink, bind, modify, syscall.
    cbn [world log].
    destruct (sys_readlink proc_self_exe (world t)) as [[target|e'] w''].
    + unfold store_at, store_idx, store_ptr, ret. cbn.
      intros Hrun. repeat (case_match; simplify_eq/=); try (by left).
      right. split; [done|]. by eexists.
    + cbn. intros [= <- <-]. by left.
Qed.

End ProgramPath.

Lemma get_pgmptr_failure_frame_witness :
  exists s',
    get_pgmptr_compat (Some 0%nat)
      (Toy.start [0] [] (Toy.World [47] [[47]] [] None)) = Done (-1) s' /\
    pcells s' = {[ 0%nat := NULL ]}.
Proof.
  destruct (get_pgmptr_failure_frame (OS := Toy.posix) (Some 0%nat)
              (Toy.start [0] [] (Toy.World [47] [[47]] [] None))
              Toy.ENOENT (Toy.World [47] [[47]] [] None) eq_refl)
    as [(s' & H & Hp & _) _].
  exists s'. split; [exact H|]. rewrite Hp. reflexivity.
Defined.

(** ** End-to-end scenarios

    The three scenarios of the specification, run on the small file
    system. *)

(** Change into [données], then ask for the current directory. *)
Example scenario_change_directory :
  exists rb s',
    bind (wchdir_compat (Ptr 1)) (fun r =>
    bind (wgetcwd_compat NULL 0) (fun p => ret (r, p)))
      (Toy.start_utf8 (Toy.donnees ++ [0]) [] Toy.home)
    = Done (0, Ptr rb) s' /\
    mem s' !! rb = Some (Toy.donnees ++ [0]).
Proof. do 2 eexists. split; [by vm_compute|]. by vm_compute. Qed.

(** Create [/test.txt], then remove it. *)
Example scenario_open_remove :
  exists s',
    bind (_wfopen (Ptr 1) (Ptr 2)) (fun f =>
    bind (_wremove (Ptr 1)) (fun r => ret (f, r)))
      (Toy.start_utf8 [47; 116; 101; 115; 116; 46; 116; 120; 116; 0]
                      [119; 0] Toy.home)
    = Done (Some 3%nat, 0) s' /\
    Toy.has [47; 116; 101; 115; 116; 46; 116; 120; 116]
            (Toy.files (world s')) = false /\
    heap s' = ∅.
Proof. eexists. split; [by vm_compute|]. by vm_compute. Qed.

(** Rename [/a.txt] to [/b.txt]; opening [/a.txt] for reading then
    fails. *)
Example scenario_rename :
  exists s',
    bind (_wrename (Ptr 1) (Ptr 2)) (fun r =>
    bind (_wfopen (Ptr 1) (Ptr 4)) (fun f => ret (r, f)))
      (set_mem (<[4%nat := [114; 0]]>
                  (mem (Toy.start_utf8 [47; 97; 46; 116; 120; 116; 0]
                                       [47; 98; 46; 116; 120; 116; 0] Toy.home)))
         (Toy.start_utf8 [47; 97; 46; 116; 120; 116; 0]
                         [47; 98; 46; 116; 120; 116; 0] Toy.home))
    = Done (0, None) s' /\
    Toy.files (world s') = [[47; 98; 46; 116; 120; 116]] /\
    heap s' = ∅.
Proof. eexists. split; [by vm_compute|]. by vm_compute. Qed.

(** * Further properties of the functions *)

(** ** The primitive's answer reaches the caller *)

Section Propagation.
Context {W : Type} {OS : Posix W}.
Implicit Types s : state W.

(** X1.  Once the path is narrowed, [wchdir_compat] returns what [chdir]
    returns: 0 when the kernel accepts the encoded path, -1 with the kernel's error number in [errno] when it
    refuses.  Either way the world is the one the kernel left and
    memory and heap are as before the call. *)
Theorem wchdir_compat_returns_chdir :
  forall s b ws bs,
    holds s (Ptr b) ws -> encode (locale s) ws = Some bs ->
    alloc_ok s (Z.of_nat (length bs) + 1) ->
    (forall w',
        sys_chdir bs (world s) = (SysOk tt, w') ->
        exists s',
          wchdir_compat (Ptr b) s = Done 0 s' /\ world s' = w' /\
          mem s' = mem s /\ heap s' = heap s) /\
    (forall e w',
        sys_chdir bs (world s) = (SysErr e, w') ->
        exists s',
          wchdir_compat (Ptr b) s = Done (-1) s' /\
          errno s' = e /\ world s' = w' /\
          mem s' = mem s /\ heap s' = heap s).
Proof.
  intros s b ws bs Hs He Ha.
  pose proof (narrowed_holds_new _ _ _ _ Hs He) as Hnew.
  destruct (release_restores s (bs ++ [0])) as [Em Eh].
  assert (forall r w',
             sys_chdir bs (world s) = (r, w') ->
             wchdir_compat (Ptr b) s =
             Done (status (sys_value (r, w')))
               (log (EvFree (Ptr (next_block s)))
                  (set_heap (heap s)
                     (set_mem (mem s)
                        (after_sys (r, w')
                           (log (EvChdir bs) (narrowed s (Ptr b) bs))))))) as Hrun.
  { intros r w' Hsys. rewrite wchdir_compat_unfold.
    rewrite (narrow_ok _ _ _ _ _ _ _ Hs He Ha).
    eapply bind_run; [by apply chdir_run|].
    eapply bind_run; [apply free_run; rewrite heap_after_sys; cbn; set_solver|].
    cbn [world narrowed] in *. rewrite Hsys.
    rewrite mem_after_sys, heap_after_sys. cbn [mem heap log narrowed].
    by rewrite Em, Eh. }
  split.
  - intros w' Hsys. eexists. split; [exact (Hrun _ _ Hsys)|]. by cbn.
  - intros e w' Hsys. eexists. split; [exact (Hrun _ _ Hsys)|]. by cbn.
Qed.

(** X2.  Likewise [_wremove] returns what [remove] returns, with the
    kernel's error number in [errno] on failure. *)
Theorem _wremove_returns_remove :
  forall s b ws bs,
    holds s (Ptr b) ws -> encode (locale s) ws = Some bs ->
    alloc_ok s (Z.of_nat (length bs) + 1) ->
    (forall w',
        sys_remove bs (world s) = (SysOk tt, w') ->
        exists s',
          _wremove (Ptr b) s = Done 0 s' /\ world s' = w' /\
          mem s' = mem s /\ heap s' = heap s) /\
    (forall e w',
        sys_remove bs (world s) = (SysErr e, w') ->
        exists s',
          _wremove (Ptr b) s = Done (-1) s' /\
          errno s' = e /\ world s' = w' /\
          mem s' = mem s /\ heap s' = heap s).
Proof.
  intros s b ws bs Hs He Ha.
  pose proof (narrowed_holds_new _ _ _ _ Hs He) as Hnew.
  destruct (release_restores s (bs ++ [0])) as [Em Eh].
  assert (forall r w',
             sys_remove bs (world s) = (r, w') ->
             _wremove (Ptr b) s =
             Done (status (sys_value (r, w')))
               (log (EvFree (Ptr (next_block s)))
                  (set_heap (heap s)
                     (set_mem (mem s)
                        (after_sys (r, w')
                           (log (EvRemove bs) (narrowed s (Ptr b) bs))))))) as Hrun.
  { intros r w' Hsys. rewrite _wremove_unfold.
    rewrite (narrow_ok _ _ _ _ _ _ _ Hs He Ha).
    eapply bind_run; [by apply remove_run|].
    eapply bind_run; [apply free_run; rewrite heap_after_sys; cbn; set_solver|].
    cbn [world narrowed] in *. rewrite Hsys.
    rewrite mem_after_sys, heap_after_sys. cbn [mem heap log narrowed].
    by rewrite Em, Eh. }
  split.
  - intros w' Hsys. eexists. split; [exact (Hrun _ _ Hsys)|]. by cbn.
  - intros e w' Hsys. eexists. split; [exact (Hrun _ _ Hsys)|]. by cbn.
Qed.

End Propagation.

Lemma wchdir_compat_returns_chdir_witness :
  (exists s',
      wchdir_compat (Ptr 1)
        (Toy.start_utf8 (Toy.donnees ++ [0]) [] Toy.home) = Done 0 s' /\
      Toy.cwd (world s') = Toy.donnees_utf8) /\
  (exists s',
      wchdir_compat (Ptr 1) (Toy.start_utf8 [47; 120; 0] [] Toy.home)
      = Done (-1) s' /\ errno s' = Toy.ENOENT).
Proof.
  split.
  - destruct (proj1 (wchdir_compat_returns_chdir (OS := Toy.posix)
                (Toy.start_utf8 (Toy.donnees ++ [0]) [] Toy.home) 1%nat
                Toy.donnees Toy.donnees_utf8
                ltac:(by vm_compute) ltac:(by vm_compute)
                ltac:(split; [by vm_compute|reflexivity]))
              Toy.in_donnees eq_refl) as (s' & H & Hw & _).
    exists s'. split; [exact H|]. by rewrite Hw.
  - destruct (proj2 (wchdir_compat_returns_chdir (OS := Toy.posix)
                (Toy.start_utf8 [47; 120; 0] [] Toy.home) 1%nat
                [47; 120] [47; 120]
                ltac:(by vm_compute) ltac:(by vm_compute)
                ltac:(split; [by vm_compute|reflexivity]))
              Toy.ENOENT Toy.home eq_refl) as (s' & H & He & _).
    by exists s'.
Defined.

Lemma _wremove_returns_remove_witness :
  (exists s',
      _wremove (Ptr 1) (Toy.start_utf8 [47; 97; 46; 116; 120; 116; 0] [] Toy.home)
      = Done 0 s' /\ Toy.files (world s') = []) /\
  (exists s',
      _wremove (Ptr 1) (Toy.start_utf8 [47; 120; 0] [] Toy.home)
      = Done (-1) s' /\ errno s' = Toy.ENOENT).
Proof.
  split.
  - destruct (proj1 (_wremove_returns_remove (OS := Toy.posix)
                (Toy.start_utf8 [47; 97; 46; 116; 120; 116; 0] [] Toy.home)
                1%nat [47; 97; 46; 116; 120; 116] [47; 97; 46; 116; 120; 116]
                ltac:(by vm_compute) ltac:(by vm_compute)
                ltac:(split; [by vm_compute|reflexivity]))
              (Toy.World [47] (Toy.dirs Toy.home) [] (Toy.exe Toy.home))
              eq_refl) as (s' & H & Hw & _).
    exists s'. split; [exact H|]. by rewrite Hw.
  - destruct (proj2 (_wremove_returns_remove (OS := Toy.posix)
                (Toy.start_utf8 [47; 120; 0] [] Toy.home) 1%nat
                [47; 120] [47; 120]
                ltac:(by vm_compute) ltac:(by vm_compute)
                ltac:(split; [by vm_compute|reflexivity]))
              Toy.ENOENT Toy.home eq_refl) as (s' & H & He & _).
    by exists s'.
Defined.

(** ** The current directory: the other paths *)

Section CurrentDirectoryPaths.
Context {W : Type} {OS : Posix W}.
Implicit Types s : state W.

(** X3.  With a caller buffer whose capacity exceeds the wide length of
    the current directory, [wgetcwd_compat] returns the buffer itself,
    holding the directory in wide characters and its terminator; the
    cells after the terminator keep their contents, no other object
    changes and the heap is as before. *)
Theorem wgetcwd_compat_fills_buffer :
  forall s d size path w' ws old,
    sys_getcwd (world s) = (SysOk path, w') ->
    alloc_ok s (Z.of_nat (length (until_nul path)) + 1) ->
    decode (locale s) (until_nul path) = Some ws ->
    Z.of_nat (length ws) < size ->
    mem s !! d = Some old -> (length ws + 1 <= length old)%nat ->
    exists s',
      wgetcwd_compat (Ptr d) size s = Done (Ptr d) s' /\
      mem s' = <[d := (ws ++ [0]) ++ drop (length ws + 1) old]> (mem s) /\
      heap s' = heap s.
Proof.
  intros s d size path w' ws old Hsys Ha Hd Hsz Hdm Hcap.
  pose proof (decode_length _ _ _ Hd) as Hlen.
  pose proof Ha as [Hmax Hscr]. unfold PTRDIFF_MAX in Hmax.
  pose proof (fetched_holds s _ w' (until_nul_nonzero path)) as Hmb.
  assert (d ≠ next_block s) as Hne
      by (intros ->; by rewrite next_block_unused in Hdm).
  eexists. split; [|split].
  - unfold wgetcwd_compat.
    eapply bind_run; [by apply getcwd_alloc_run|]. cbn [is_null].
    eapply bind_run; [by eapply mbstowcs_query_run|].
    rewrite (proj2 (Z.eqb_neq _ SIZE_MAX)) by (unfold SIZE_MAX; lia).
    rewrite (proj2 (Z.eqb_neq size 0)) by lia. cbn [is_null orb].
    rewrite leb_false_of by lia.
    rewrite to_size_t_small by (unfold PTRDIFF_MAX; lia).
    eapply bind_run.
    { eapply (mbstowcs_run _ d _ _ _ ws old); [exact Hmb|exact Hd|lia| |done].
      cbn. by rewrite lookup_insert_ne. }
    eapply bind_run; [apply free_run; cbn; set_solver|]. reflexivity.
  - cbn. rewrite delete_insert_ne by done.
    by rewrite delete_insert_id by apply next_block_unused.
  - cbn. pose proof (next_block_not_live s). set_solver.
Qed.

(** X4.  When the working directory cannot be obtained, because the
    kernel refuses or because [getcwd] cannot allocate its result,
    [wgetcwd_compat] returns null at once: [errno] is the kernel's error
    number, respectively [ENOMEM], no conversion is attempted and memory
    and heap are as before. *)
Theorem wgetcwd_compat_getcwd_fails :
  forall s buffer size,
    (forall e w',
        sys_getcwd (world s) = (SysErr e, w') ->
        exists s',
          wgetcwd_compat buffer size s = Done NULL s' /\
          errno s' = e /\ mem s' = mem s /\ heap s' = heap s /\
          new_events s s' [EvGetcwd]) /\
    (forall path w',
        sys_getcwd (world s) = (SysOk path, w') ->
        ~ alloc_ok s (Z.of_nat (length (until_nul path)) + 1) ->
        exists s',
          wgetcwd_compat buffer size s = Done NULL s' /\
          errno s' = ENOMEM /\ mem s' = mem s /\ heap s' = heap s /\
          count_events is_conversion (trace s') =
          count_events is_conversion (trace s)).
Proof.
  intros s buffer size. split.
  - intros e w' Hsys. eexists. split.
    + unfold wgetcwd_compat. eapply bind_run.
      { unfold getcwd_alloc. unfold bind at 1, modify.
        eapply bind_run; [apply syscall_run|].
        cbn [world log]. rewrite Hsys. reflexivity. }
      reflexivity.
    + by cbn.
  - intros path w' Hsys Hno. eexists. split.
    + unfold wgetcwd_compat. eapply bind_run.
      { unfold getcwd_alloc. unfold bind at 1, modify.
        eapply bind_run; [apply syscall_run|].
        cbn [world log]. rewrite Hsys. cbn [sys_value after_sys].
        eapply bind_run; [by apply malloc_fail_run|]. reflexivity. }
      reflexivity.
    + cbn. rewrite !count_events_app. simpl. repeat split. lia.
Qed.

(** X5.  When the bytes of the current directory are not valid in the
    locale, [wgetcwd_compat] returns null with [EILSEQ], whatever the
    buffer and the capacity; the buffer of [getcwd] is freed and memory
    is as before. *)
Theorem wgetcwd_compat_invalid_bytes :
  forall s buffer size path w',
    sys_getcwd (world s) = (SysOk path, w') ->
    alloc_ok s (Z.of_nat (length (until_nul path)) + 1) ->
    decode (locale s) (until_nul path) = None ->
    exists s',
      wgetcwd_compat buffer size s = Done NULL s' /\
      errno s' = EILSEQ /\ mem s' = mem s /\ heap s' = heap s.
Proof.
  intros s buffer size path w' Hsys Ha Hd.
  pose proof (fetched_holds s _ w' (until_nul_nonzero path)) as Hmb.
  destruct (release_restores s (until_nul path ++ [0])) as [Em Eh].
  eexists. split.
  - unfold wgetcwd_compat.
    eapply bind_run; [by apply getcwd_alloc_run|]. cbn [is_null].
    eapply bind_run.
    { unfold mbstowcs. eapply bind_run; [by apply read_str_run|].
      unfold bind, modify, get. cbn [is_null locale log fetched].
      rewrite mbstowcs_len_decode, Hd. reflexivity. }
    rewrite Z.eqb_refl.
    eapply bind_run; [apply free_run; cbn; set_solver|]. reflexivity.
  - cbn. by rewrite Em, Eh.
Qed.

(** X6.  In auto-allocation mode, when the wide buffer cannot be
    allocated, [wgetcwd_compat] returns null with [ENOMEM] after freeing
    the buffer of [getcwd]: nothing stays allocated and memory is as
    before. *)
Theorem wgetcwd_compat_no_memory :
  forall s buffer size path w' ws,
    buffer = NULL \/ size = 0 ->
    sys_getcwd (world s) = (SysOk path, w') ->
    alloc_ok s (Z.of_nat (length (until_nul path)) + 1) ->
    decode (locale s) (until_nul path) = Some ws ->
    hd true (tail (alloc_script s)) = false ->
    exists s',
      wgetcwd_compat buffer size s = Done NULL s' /\
      errno s' = ENOMEM /\ mem s' = mem s /\ heap s' = heap s.
Proof.
  intros s buffer size path w' ws Hmode Hsys Ha Hd Hscr.
  pose proof (decode_length _ _ _ Hd) as Hlen.
  pose proof Ha as [Hmax _]. unfold PTRDIFF_MAX in Hmax.
  pose proof (fetched_holds s _ w' (until_nul_nonzero path)) as Hmb.
  destruct (release_restores s (until_nul path ++ [0])) as [Em Eh].
  assert (is_null buffer || (size =? 0) = true) as Hm.
  { destruct Hmode as [-> | ->]; [done|]. apply orb_true_r. }
  eexists. split.
  - unfold wgetcwd_compat.
    eapply bind_run; [by apply getcwd_alloc_run|]. cbn [is_null].
    eapply bind_run; [by eapply mbstowcs_query_run|].
    rewrite (proj2 (Z.eqb_neq _ SIZE_MAX)) by (unfold SIZE_MAX; lia).
    rewrite Hm.
    eapply bind_run.
    { apply malloc_fail_run. intros [_ H]. cbn in H. congruence. }
    cbn [is_null].
    eapply bind_run; [apply free_run; cbn; set_solver|]. reflexivity.
  - cbn. by rewrite Em, Eh.
Qed.

End CurrentDirectoryPaths.

Lemma wgetcwd_compat_fills_buffer_witness :
  exists s',
    wgetcwd_compat (Ptr 2) 12
      (Toy.start_utf8 [0] (replicate 12 7) Toy.in_donnees) = Done (Ptr 2) s' /\
    mem s' !! 2%nat = Some (Toy.donnees ++ [0; 7; 7; 7]).
Proof.
  destruct (wgetcwd_compat_fills_buffer (OS := Toy.posix)
              (Toy.start_utf8 [0] (replicate 12 7) Toy.in_donnees) 2%nat 12
              Toy.donnees_utf8 Toy.in_donnees Toy.donnees (replicate 12 7))
    as (s' & H & M & _).
  - reflexivity.
  - split; [by vm_compute|reflexivity].
  - by vm_compute.
  - simpl. lia.
  - reflexivity.
  - simpl. lia.
  - exists s'. split; [exact H|]. rewrite M. by vm_compute.
Defined.

Lemma wgetcwd_compat_getcwd_fails_witness :
  (exists s',
      wgetcwd_compat NULL 0 (Gone.start [0] []) = Done NULL s' /\
      errno s' = Toy.ENOENT) /\
  (exists s',
      wgetcwd_compat NULL 0 (Toy.start_nomem [0] [] Toy.in_donnees)
      = Done NULL s' /\ errno s' = ENOMEM).
Proof.
  split.
  - destruct (proj1 (wgetcwd_compat_getcwd_fails (OS := Gone.posix)
                       (Gone.start [0] []) NULL 0)
                Toy.ENOENT Gone.Nowhere eq_refl) as (s' & H & E & _).
    by exists s'.
  - destruct (proj2 (wgetcwd_compat_getcwd_fails (OS := Toy.posix)
                       (Toy.start_nomem [0] [] Toy.in_donnees) NULL 0)
                Toy.donnees_utf8 Toy.in_donnees eq_refl) as (s' & H & E & _).
    + intros [_ Hs]. discriminate Hs.
    + by exists s'.
Defined.

Lemma wgetcwd_compat_invalid_bytes_witness :
  exists s',
    wgetcwd_compat (Ptr 2) 8
      (Toy.start_utf8 [0] (replicate 8 7) (Toy.World [47; 255] [] [] None))
    = Done NULL s' /\
    errno s' = EILSEQ /\ mem s' !! 2%nat = Some (replicate 8 7).
Proof.
  destruct (wgetcwd_compat_invalid_bytes (OS := Toy.posix)
              (Toy.start_utf8 [0] (replicate 8 7)
                 (Toy.World [47; 255] [] [] None))
              (Ptr 2) 8 [47; 255] (Toy.World [47; 255] [] [] None))
    as (s' & H & E & M & _).
  - reflexivity.
  - split; [by vm_compute|reflexivity].
  - by vm_compute.
  - exists s'. split; [exact H|]. split; [exact E|]. by rewrite M.
Defined.

Lemma wgetcwd_compat_no_memory_witness :
  exists s',
    wgetcwd_compat NULL 0
      (set_alloc_script [true; false] (Toy.start_utf8 [0] [] Toy.in_donnees))
    = Done NULL s' /\ errno s' = ENOMEM /\ heap s' = ∅.
Proof.
  destruct (wgetcwd_compat_no_memory (OS := Toy.posix)
              (set_alloc_script [true; false]
                 (Toy.start_utf8 [0] [] Toy.in_donnees))
              NULL 0 Toy.donnees_utf8 Toy.in_donnees Toy.donnees)
    as (s' & H & E & _ & Hh).
  - by left.
  - reflexivity.
  - split; [by vm_compute|reflexivity].
  - by vm_compute.
  - reflexivity.
  - exists s'. split; [exact H|]. split; [exact E|]. by rewrite Hh.
Defined.

(** ** The full path: the other paths *)

Section FullPath.
Context {W : Type} {OS : Posix W}.
Implicit Types s : state W.

(** X7.  When the source narrows, the kernel resolves it and the
    resolved path fits, [wfullpath_compat] returns [dst], holding the
    resolved path in wide characters and its terminator; the cells after
    the terminator keep their contents, no other object changes and the
    intermediate buffer is freed. *)
Theorem wfullpath_compat_resolves :
  forall s d b size ws bs res w' rs old,
    holds s (Ptr b) ws -> encode (locale s) ws = Some bs ->
    alloc_ok s (Z.of_nat (length bs) + 1) ->
    sys_realpath bs (world s) = (SysOk res, w') ->
    Z.of_nat (length (until_nul res)) < PATH_MAX ->
    decode (locale s) (until_nul res) = Some rs ->
    Z.of_nat (length rs) < size ->
    mem s !! d = Some old -> (length rs + 1 <= length old)%nat ->
    exists s',
      wfullpath_compat (Ptr d) (Ptr b) size s = Done (Ptr d) s' /\
      mem s' = <[d := (rs ++ [0]) ++ drop (length rs + 1) old]> (mem s) /\
      heap s' = heap s.
Proof.
  intros s d b size ws bs res w' rs old Hs He Ha Hsys Hlt Hd Hsz Hdm Hcap.
  rewrite wfullpath_compat_unfold by lia.
  rewrite (narrow_ok _ _ _ _ _ _ _ Hs He Ha).
  pose proof (narrowed_holds_new _ _ _ _ Hs He) as Hnew.
  pose proof (decode_length _ _ _ Hd) as Hlen. unfold PATH_MAX in Hlt.
  destruct (release_restores s (bs ++ [0])) as [Em Eh].
  eexists. split; [|split].
  - eapply bind_run; [by eapply realpath_run|]. cbv beta iota.
    eapply bind_run; [apply free_run; cbn; set_solver|].
    eapply bind_run.
    { eapply (mbstowcs_query_run _ _ _ (until_nul res) rs); [|exact Hd].
      unfold holds. cbn. apply cstr_until_nul. }
    rewrite (proj2 (Z.eqb_neq _ SIZE_MAX)) by (unfold SIZE_MAX; lia).
    rewrite leb_false_of by lia. cbn [orb].
    eapply bind_run; [|reflexivity].
    eapply (mbstowcs_run _ d _ _ (until_nul res) rs old);
      [|exact Hd|lia| |done].
    + unfold holds. cbn. apply cstr_until_nul.
    + cbn. by rewrite Em.
  - cbn. by rewrite Em.
  - cbn. by rewrite Eh.
Qed.

(** X8.  When the kernel cannot resolve the path, [wfullpath_compat]
    returns null with the kernel's error number in [errno]; the
    destination and all of memory are untouched and the intermediate
    buffer is freed. *)
Theorem wfullpath_compat_realpath_fails :
  forall s d b size ws bs e w',
    size ≠ 0 ->
    holds s (Ptr b) ws -> encode (locale s) ws = Some bs ->
    alloc_ok s (Z.of_nat (length bs) + 1) ->
    sys_realpath bs (world s) = (SysErr e, w') ->
    exists s',
      wfullpath_compat (Ptr d) (Ptr b) size s = Done NULL s' /\
      errno s' = e /\ mem s' = mem s /\ heap s' = heap s.
Proof.
  intros s d b size ws bs e w' Hsz Hs He Ha Hsys.
  rewrite wfullpath_compat_unfold by done.
  rewrite (narrow_ok _ _ _ _ _ _ _ Hs He Ha).
  pose proof (narrowed_holds_new _ _ _ _ Hs He) as Hnew.
  destruct (release_restores s (bs ++ [0])) as [Em Eh].
  eexists. split.
  - eapply bind_run.
    { unfold realpath. eapply bind_run; [by apply read_str_run|].
      unfold bind at 1, modify. eapply bind_run; [apply syscall_run|].
      cbn [world log narrowed]. rewrite Hsys. reflexivity. }
    cbv beta iota.
    eapply bind_run; [apply free_run; cbn; set_solver|]. reflexivity.
  - cbn. by rewrite Em, Eh.
Qed.

(** X9.  When the resolved path is not valid in the locale,
    [wfullpath_compat] reports it as a capacity problem: it returns null
    with [errno] set to [ERANGE], not [EILSEQ], whatever the capacity;
    the destination is untouched. *)
Theorem wfullpath_compat_invalid_bytes :
  forall s d b size ws bs res w',
    size ≠ 0 ->
    holds s (Ptr b) ws -> encode (locale s) ws = Some bs ->
    alloc_ok s (Z.of_nat (length bs) + 1) ->
    sys_realpath bs (world s) = (SysOk res, w') ->
    Z.of_nat (length (until_nul res)) < PATH_MAX ->
    decode (locale s) (until_nul res) = None ->
    exists s',
      wfullpath_compat (Ptr d) (Ptr b) size s = Done NULL s' /\
      errno s' = ERANGE /\ mem s' = mem s /\ heap s' = heap s.
Proof.
  intros s d b size ws bs res w' Hsz Hs He Ha Hsys Hlt Hd.
  rewrite wfullpath_compat_unfold by done.
  rewrite (narrow_ok _ _ _ _ _ _ _ Hs He Ha).
  pose proof (narrowed_holds_new _ _ _ _ Hs He) as Hnew.
  destruct (release_restores s (bs ++ [0])) as [Em Eh].
  eexists. split.
  - eapply bind_run; [by eapply realpath_run|]. cbv beta iota.
    eapply bind_run; [apply free_run; cbn; set_solver|].
    eapply bind_run.
    { unfold mbstowcs. eapply bind_run.
      { apply (read_str_run _ _ (until_nul res)).
        unfold holds. cbn. apply cstr_until_nul. }
      unfold bind, modify, get. cbn [is_null locale log set_heap set_mem
        set_world narrowed].
      rewrite mbstowcs_len_decode, Hd. reflexivity. }
    rewrite Z.eqb_refl. reflexivity.
  - cbn. by rewrite Em, Eh.
Qed.

End FullPath.

Lemma wfullpath_compat_resolves_witness :
  exists s',
    wfullpath_compat (Ptr 2) (Ptr 1) 10
      (Toy.start_utf8 (Toy.donnees ++ [0]) (replicate 10 7) Toy.home)
    = Done (Ptr 2) s' /\
    mem s' !! 2%nat = Some (Toy.donnees ++ [0; 7]).
Proof.
  destruct (wfullpath_compat_resolves (OS := Toy.posix)
              (Toy.start_utf8 (Toy.donnees ++ [0]) (replicate 10 7) Toy.home)
              2%nat 1%nat 10 Toy.donnees Toy.donnees_utf8 Toy.donnees_utf8
              Toy.home Toy.donnees (replicate 10 7))
    as (s' & H & M & _).
  - by vm_compute.
  - by vm_compute.
  - split; [by vm_compute|reflexivity].
  - by vm_compute.
  - by vm_compute.
  - by vm_compute.
  - simpl. lia.
  - reflexivity.
  - simpl. lia.
  - exists s'. split; [exact H|]. rewrite M. by vm_compute.
Defined.

Lemma wfullpath_compat_realpath_fails_witness :
  exists s',
    wfullpath_compat (Ptr 2) (Ptr 1) 4
      (Toy.start_utf8 [47; 120; 0] [7; 7; 7; 7] Toy.home) = Done NULL s' /\
    errno s' = Toy.ENOENT /\ mem s' !! 2%nat = Some [7; 7; 7; 7].
Proof.
  destruct (wfullpath_compat_realpath_fails (OS := Toy.posix)
              (Toy.start_utf8 [47; 120; 0] [7; 7; 7; 7] Toy.home)
              2%nat 1%nat 4 [47; 120] [47; 120] Toy.ENOENT Toy.home)
    as (s' & H & E & M & _).
  - lia.
  - by vm_compute.
  - by vm_compute.
  - split; [by vm_compute|reflexivity].
  - by vm_compute.
  - exists s'. split; [exact H|]. split; [exact E|]. by rewrite M.
Defined.

Lemma wfullpath_compat_invalid_bytes_witness :
  exists s',
    wfullpath_compat (Ptr 2) (Ptr 1) 4
      (Legacy.start [47; 120; 0] [7; 7; 7; 7]) = Done NULL s' /\
    errno s' = ERANGE /\ mem s' !! 2%nat = Some [7; 7; 7; 7].
Proof.
  destruct (wfullpath_compat_invalid_bytes (OS := Legacy.posix)
              (Legacy.start [47; 120; 0] [7; 7; 7; 7])
              2%nat 1%nat 4 [47; 120] [47; 120] Legacy.latin1_name Legacy.Disk)
    as (s' & H & E & M & _).
  - lia.
  - by vm_compute.
  - by vm_compute.
  - split; [by vm_compute|reflexivity].
  - reflexivity.
  - by vm_compute.
  - by vm_compute.
  - exists s'. split; [exact H|]. split; [exact E|]. by rewrite M.
Defined.

(** ** The program path: the success path *)

Section ProgramPathSuccess.
Context {W : Type} {OS : Posix W}.
Implicit Types s : state W.

Lemma cstr_app_nul_rest cells rest :
  cstr (cells ++ 0 :: rest) = Some (until_nul cells).
Proof.
  induction cells as [|c r IH]; simpl; [done|].
  destruct (c =? 0); [done|]. by rewrite IH.
Qed.

(** X10.  When the link of the executable can be read,
    [get_pgmptr_compat] returns 0 and makes [*ptr] point to its static
    array, which then holds the link's target cut to its first
    [PATH_MAX - 1] bytes and a terminator after them: a longer target is
    truncated without notice.  Memory objects are not touched. *)
Theorem get_pgmptr_compat_success :
  forall s a old target w',
    sys_readlink proc_self_exe (world s) = (SysOk target, w') ->
    length (program_path s) = Z.to_nat PATH_MAX ->
    pcells s !! a = Some old ->
    let data := take (Z.to_nat (PATH_MAX - 1)) target in
    exists s',
      get_pgmptr_compat (Some a) s = Done 0 s' /\
      pcells s' = <[a := ProgramPath]> (pcells s) /\
      program_path s' = data ++ 0 :: drop (length data + 1) (program_path s) /\
      holds s' ProgramPath (until_nul data) /\
      mem s' = mem s.
Proof.
  intros s a old target w' Hsys Hpp Ha data.
  assert (length data <= 4095)%nat as Hdl
      by (subst data; rewrite length_take; unfold PATH_MAX; lia).
  unfold PATH_MAX in Hpp.
  set (s1 := set_world w' (log (EvReadlink proc_self_exe) s)).
  set (s2 := set_program_path (data ++ drop (length data) (program_path s)) s1).
  set (s3 := set_program_path
               (data ++ 0 :: drop (length data + 1) (program_path s)) s2).
  assert (readlink proc_self_exe ProgramPath (PATH_MAX - 1) s
          = Done (Z.of_nat (length data)) s2) as H1.
  { unfold readlink. unfold bind at 1, modify.
    eapply bind_run; [apply syscall_run|].
    cbn [world log]. rewrite Hsys. cbn [sys_value after_sys]. fold s1 data.
    eapply bind_run; [|reflexivity].
    unfold store_at. cbn [load update program_path s1 set_world log].
    by rewrite (proj2 (Nat.leb_le _ _)) by lia. }
  assert (store_idx ProgramPath (Z.of_nat (length data)) 0 s2 = Done tt s3) as H2.
  { unfold store_idx. cbn [load update program_path s2 set_program_path].
    rewrite leb_true_of, ltb_true_of by (rewrite ?length_app, ?length_drop; lia).
    cbn [andb]. unfold s3. do 2 f_equal.
    rewrite Nat2Z.id, insert_app_r_alt, Nat.sub_diag by lia.
    destruct (drop (length data) (program_path s)) as [|x r] eqn:Ed.
    { apply (f_equal length) in Ed. rewrite length_drop in Ed.
      simpl in Ed. lia. }
    simpl. by rewrite <- drop_drop, Ed. }
  exists (set_pcells (<[a := ProgramPath]> (pcells s)) s3).
  split; [|split; [|split; [|split]]]; try done.
  - unfold get_pgmptr_compat.
    rewrite (bind_step _ _ _ _ _ H1).
    rewrite (proj2 (Z.eqb_neq _ (-1))) by lia.
    rewrite (bind_step _ _ _ _ _ H2).
    eapply bind_run; [|reflexivity].
    unfold store_ptr. cbn [pcells s3 s2 s1 set_program_path set_world log].
    by rewrite Ha.
  - unfold holds. cbn. apply cstr_app_nul_rest.
Qed.

End ProgramPathSuccess.

Lemma get_pgmptr_compat_success_witness :
  (exists s',
      get_pgmptr_compat (Some 0%nat) (Toy.start [0] [] Toy.home) = Done 0 s' /\
      pcells s' !! 0%nat = Some ProgramPath /\
      holds s' ProgramPath [47; 98; 105; 110; 47; 120]) /\
  (exists s',
      get_pgmptr_compat (Some 0%nat) (Legacy.start [0] []) = Done 0 s' /\
      holds s' ProgramPath (replicate 4095 97)).
Proof.
  split.
  - destruct (get_pgmptr_compat_success (OS := Toy.posix)
                (Toy.start [0] [] Toy.home) 0%nat NULL
                [47; 98; 105; 110; 47; 120] Toy.home eq_refl)
      as (s' & H & P & _ & Hh & _).
    + by vm_compute.
    + reflexivity.
    + exists s'. split; [exact H|]. split; [|exact Hh].
      rewrite P. apply lookup_insert_eq.
  - destruct (get_pgmptr_compat_success (OS := Legacy.posix)
                (Legacy.start [0] []) 0%nat NULL
                Legacy.long_target Legacy.Disk eq_refl)
      as (s' & H & _ & _ & Hh & _).
    + by vm_compute.
    + reflexivity.
    + exists s'. split; [exact H|].
      replace (replicate 4095 97)
        with (until_nul (take (Z.to_nat (PATH_MAX - 1)) Legacy.long_target))
        by (by vm_compute).
      exact Hh.
Defined.

(** ** Multibyte to wide conversion: the other paths *)

(** Take a finished run apart into the runs of its steps. *)
Ltac split_run :=
  repeat match goal with
  | H : bind _ _ _ = Done _ _ |- _ =>
    let a := fresh "a" in
    let s1 := fresh "s" in
    let H1 := fresh "Hrun" in
    apply bind_inv in H as (a & s1 & H1 & H)
  | H : ret _ _ = Done _ _ |- _ => unfold ret in H; injection H as <- <-
  | H : modify _ _ = Done _ _ |- _ => unfold modify in H; injection H as _ <-
  | H : get _ _ = Done _ _ |- _ => unfold get in H; injection H as <- <-
  | H : fault _ = Done _ _ |- _ => discriminate H
  | H : read_str _ _ = Done _ _ |- _ => apply read_str_inv in H; subst
  | H : (if ?c then _ else _) _ = Done _ _ |- _ => destruct c eqn:?
  | H : match ?x with _ => _ end _ = Done _ _ |- _ => destruct x eqn:?
  end.

Section ConversionPaths.
Context {W : Type} {OS : Posix W}.
Implicit Types s : state W.

Lemma pcells_setup s : pcells (setup s) = pcells s.
Proof. unfold setup, locale_lookup. by repeat case_match. Qed.

Lemma program_path_setup s : program_path (setup s) = program_path s.
Proof. unfold setup, locale_lookup. by repeat case_match. Qed.

(** The run of [MultiByteToWideChar_compat] up to the conversion. *)
Lemma MultiByteToWideChar_staged s cp flags a srclen d dstlen cells n tmp :
  0 < dstlen <= INT_MAX ->
  mem s !! a = Some cells ->
  source_length cells srclen = Some n -> 0 <= n < INT_MAX ->
  strncpy_cells cells (Z.to_nat n) = Some tmp ->
  alloc_ok s (n + 1) ->
  MultiByteToWideChar_compat cp flags (Ptr a) srclen (Ptr d) dstlen s =
  bind (mbstowcs (Ptr d) (Ptr (next_block s)) (dstlen - 1)) (fun result =>
  bind (free (Ptr (next_block s))) (fun _ =>
  if result =? SIZE_MAX then ret 0
  else
    if result <? dstlen - 1 then
      bind (store_idx (Ptr d) result 0) (fun _ => ret (to_int result))
    else
      bind (store_idx (Ptr d) (dstlen - 1) 0) (fun _ =>
      ret (to_int (dstlen - 1)))))
    (staged s n tmp).
Proof.
  intros Hdst Ha Hn Hnr Htmp Hal. unfold INT_MAX in *.
  pose proof (strncpy_cells_length _ _ _ Htmp) as Htl.
  assert (a ≠ next_block s) as Hat
      by (intros ->; by rewrite next_block_unused in Ha).
  assert (to_size_t (n + 1) = n + 1) as En1
      by (apply to_size_t_small; unfold PTRDIFF_MAX; lia).
  assert (to_size_t n = n) as En
      by (apply to_size_t_small; unfold PTRDIFF_MAX; lia).
  assert (to_size_t (dstlen - 1) = dstlen - 1) as Ed
      by (apply to_size_t_small; unfold PTRDIFF_MAX; lia).
  unfold MultiByteToWideChar_compat. cbn [is_null orb].
  rewrite leb_false_of by lia. rewrite setup_run.
  rewrite (bind_step _ _ _ _ _
             (source_length_run (setup s) a cells srclen n
                ltac:(by rewrite mem_setup) Hn ltac:(unfold INT_MAX; lia))).
  unfold INT_MAX. rewrite (proj2 (Z.eqb_neq n (2 ^ 31 - 1))) by lia.
  rewrite En1, En, Ed.
  assert (alloc_ok (setup s) (n + 1)) as Hal'
      by (destruct Hal; split; [done|]; by rewrite alloc_script_setup).
  pose proof (malloc_run (setup s) 1 (n + 1) Hal') as H1.
  rewrite next_block_setup in H1.
  set (temp := next_block s) in *.
  set (s1 := log _ _) in H1.
  assert (mem s1 = <[temp := replicate (Z.to_nat (n + 1)) 0]> (mem s)) as Hm1
      by (subst s1; cbn; by rewrite mem_setup, Z.div_1_r).
  rewrite (bind_step _ _ _ _ _ H1). clear H1. cbn [is_null].
  assert (strncpy (Ptr temp) (Ptr a) n s1 =
          Done tt (set_mem (<[temp := tmp ++ [0]]> (mem s1)) s1)) as H2.
  { unfold strncpy. cbn [load]. rewrite Hm1, lookup_insert_ne, Ha by done.
    cbn. rewrite Htmp.
    rewrite (store_at_run s1 temp (replicate (Z.to_nat (n + 1)) 0)).
    - rewrite Htl, drop_replicate.
      replace (Z.to_nat (n + 1) - Z.to_nat n)%nat with 1%nat by lia.
      by rewrite Hm1.
    - rewrite Hm1. apply lookup_insert_eq.
    - rewrite length_replicate. lia. }
  rewrite (bind_step _ _ _ _ _ H2). clear H2.
  set (s2 := set_mem _ s1).
  assert (mem s2 = <[temp := tmp ++ [0]]> (mem s)) as Hm2
      by (subst s2; cbn [mem set_mem]; by rewrite Hm1, insert_insert_eq).
  assert (store_idx (Ptr temp) n 0 s2 = Done tt s2) as H3.
  { rewrite (store_idx_run s2 temp (tmp ++ [0])).
    - f_equal. apply state_ext; try done.
      cbn [mem set_mem]. rewrite Hm2, insert_insert_eq. f_equal.
      rewrite insert_app_r_alt by lia.
      by replace (Z.to_nat n - length tmp)%nat with 0%nat by lia.
    - rewrite Hm2. apply lookup_insert_eq.
    - rewrite length_app. simpl. lia. }
  rewrite (bind_step _ _ _ _ _ H3). clear H3.
  f_equal. apply state_ext; try done.
  - subst s2 s1. cbn. by rewrite heap_setup.
  - subst s2 s1. cbn. by rewrite alloc_script_setup.
Qed.

Lemma mbstowcs_from_written_length l n d bs :
  (length (written (mbstowcs_from l n d bs)) <= n)%nat.
Proof.
  revert d bs. induction n as [|n IH]; intros d bs; [done|].
  destruct bs as [|b r]; [simpl; lia|].
  rewrite mbstowcs_from_cons.
  destruct (mb_to_wc l (b :: r)) as [[c rest]|]; simpl; [|lia].
  specialize (IH (d + 1) rest). lia.
Qed.

Lemma mbstowcs_from_count_ge l n d bs k :
  count (mbstowcs_from l n d bs) = Some k -> d <= k.
Proof.
  revert d bs. induction n as [|n IH]; intros d bs.
  - simpl. intros [= <-]. lia.
  - destruct bs as [|b r]; [simpl; intros [= <-]; lia|].
    rewrite mbstowcs_from_cons.
    destruct (mb_to_wc l (b :: r)) as [[c rest]|]; simpl; [|done].
    intros H. apply IH in H. lia.
Qed.

(** The conversion pass of [mbstowcs] over an invalid sequence: what
    was converted before it is stored, the result is [(size_t)-1]. *)
Lemma mbstowcs_error_run s b src n bs old :
  holds s src bs -> count (mbstowcs_conv (locale s) n bs) = None ->
  mem s !! b = Some old -> (Z.to_nat n <= length old)%nat ->
  exists cells,
    mbstowcs (Ptr b) src n s =
    Done SIZE_MAX
      (set_errno EILSEQ
         (set_mem (<[b := cells]> (mem s)) (log (EvMbstowcs (Ptr b) src n) s))).
Proof.
  intros Hs Hc Hb Hl. unfold mbstowcs. eexists.
  eapply bind_run; [by apply read_str_run|]. unfold bind at 1, modify.
  unfold bind at 1, get. cbn [is_null locale log].
  eapply bind_run.
  - apply (store_at_run _ b old); [done|].
    pose proof (mbstowcs_from_written_length (locale s) (Z.to_nat n) 0 bs).
    unfold mbstowcs_conv. lia.
  - rewrite Hc. done.
Qed.

(** X11.  A source that is not valid in the active locale, converted
    into a buffer with room beyond the invalid sequence: the function
    returns 0 with [EILSEQ] in [errno], the copy of the source is freed
    and no object other than the destination has changed. *)
Theorem MultiByteToWideChar_compat_invalid_source :
  forall s cp flags a srclen d dstlen cells n tmp old,
    0 < dstlen <= INT_MAX ->
    mem s !! a = Some cells ->
    source_length cells srclen = Some n -> 0 <= n < INT_MAX ->
    strncpy_cells cells (Z.to_nat n) = Some tmp ->
    decode (locale (setup s)) (until_nul tmp) = None ->
    Z.of_nat (length (until_nul tmp)) < dstlen - 1 ->
    alloc_ok s (n + 1) ->
    mem s !! d = Some old -> dstlen <= Z.of_nat (length old) ->
    exists s',
      MultiByteToWideChar_compat cp flags (Ptr a) srclen (Ptr d) dstlen s
      = Done 0 s' /\
      errno s' = EILSEQ /\ heap s' = heap s /\
      (forall b, b ≠ d -> mem s' !! b = mem s !! b).
Proof.
  intros s cp flags a srclen d dstlen cells n tmp old
         Hdst Ha Hn Hnr Htmp Hbad Hroom Hal Hdm Hcap.
  rewrite (MultiByteToWideChar_staged s cp flags a srclen d dstlen cells n tmp)
    by done.
  assert (d ≠ next_block s) as Hdt
      by (intros ->; by rewrite next_block_unused in Hdm).
  assert (holds (staged s n tmp) (Ptr (next_block s)) (until_nul tmp)) as Hsrc.
  { unfold holds. cbn. rewrite lookup_insert_eq. cbn. apply cstr_app_nul_any. }
  destruct (mbstowcs_error_run (staged s n tmp) d (Ptr (next_block s))
              (dstlen - 1) (until_nul tmp) old Hsrc) as (c1 & H4).
  { cbn [locale staged]. apply mbstowcs_from_error; [done|lia]. }
  { cbn. by rewrite lookup_insert_ne. }
  { lia. }
  rewrite (bind_step _ _ _ _ _ H4). clear H4.
  match goal with
  | |- context [bind _ _ ?s3 = _] =>
    rewrite (bind_step _ _ _ _ _
               (free_run s3 (next_block s) ltac:(cbn; set_solver)))
  end.
  rewrite Z.eqb_refl. eexists. split; [reflexivity|].
  split; [done|]. split.
  - cbn. pose proof (next_block_not_live s). set_solver.
  - intros b Hb. cbn. destruct (decide (b = next_block s)) as [->|Hbt].
    + by rewrite lookup_delete_eq, next_block_unused.
    + by rewrite lookup_delete_ne, !lookup_insert_ne.
Qed.

(** X12.  When the copy of the source cannot be allocated the function
    returns 0 with [ENOMEM] in [errno]; no object has changed, and the
    locale set-up has been made all the same. *)
Theorem MultiByteToWideChar_compat_no_memory :
  forall s cp flags a srclen dst dstlen cells n,
    is_null dst = false -> 0 < dstlen ->
    mem s !! a = Some cells ->
    source_length cells srclen = Some n -> 0 <= n < INT_MAX ->
    hd true (alloc_script s) = false ->
    exists s',
      MultiByteToWideChar_compat cp flags (Ptr a) srclen dst dstlen s
      = Done 0 s' /\
      errno s' = ENOMEM /\ mem s' = mem s /\ heap s' = heap s /\
      locale_set s' = true.
Proof.
  intros s cp flags a srclen dst dstlen cells n Hdst Hlen Ha Hn Hnr Hscript.
  unfold MultiByteToWideChar_compat. rewrite Hdst. cbn [is_null orb].
  rewrite leb_false_of by lia. rewrite setup_run.
  rewrite (bind_step _ _ _ _ _
             (source_length_run (setup s) a cells srclen n
                ltac:(by rewrite mem_setup) Hn ltac:(lia))).
  rewrite (proj2 (Z.eqb_neq n INT_MAX)) by lia.
  rewrite (bind_step _ _ _ _ _ (malloc_fail_run (setup s) 1 _
             ltac:(intros [_ Hok]; rewrite alloc_script_setup in Hok;
                   congruence))).
  cbn [is_null]. eexists. split; [reflexivity|].
  cbn. rewrite mem_setup, heap_setup. repeat split.
  unfold setup. by destruct (locale_set s) eqn:E.
Qed.

(** X13.  A source length below -1 is not rejected: it goes to [malloc]
    as a size, where [srclen + 1] is a request of more than
    [PTRDIFF_MAX] bytes, which fails.  The function returns 0 with
    [ENOMEM]; the source is not read and no object has changed. *)
Theorem MultiByteToWideChar_compat_negative_length :
  forall s cp flags src srclen dst dstlen,
    is_null src = false -> is_null dst = false -> 0 < dstlen ->
    - 2 ^ 31 <= srclen < -1 ->
    exists s',
      MultiByteToWideChar_compat cp flags src srclen dst dstlen s = Done 0 s' /\
      errno s' = ENOMEM /\ mem s' = mem s /\ heap s' = heap s /\
      new_events (setup s) s' [EvMalloc (2 ^ 64 + srclen + 1) NULL].
Proof.
  intros s cp flags src srclen dst dstlen Hsrc Hdst Hlen Hneg.
  unfold MultiByteToWideChar_compat. rewrite Hsrc, Hdst. cbn [orb].
  rewrite leb_false_of by lia. rewrite setup_run.
  rewrite (proj2 (Z.eqb_neq srclen (-1))) by lia.
  rewrite (bind_step (ret srclen) _ (setup s) srclen (setup s) eq_refl).
  rewrite (proj2 (Z.eqb_neq srclen INT_MAX)) by (unfold INT_MAX; lia).
  assert (to_size_t (srclen + 1) = 2 ^ 64 + srclen + 1) as ->
      by (unfold to_size_t; symmetry; apply (Z.mod_unique _ _ (-1)); lia).
  rewrite (bind_step _ _ _ _ _
             (malloc_fail_run (setup s) 1 (2 ^ 64 + srclen + 1)
                ltac:(intros [Hok _]; unfold PTRDIFF_MAX in Hok; lia))).
  cbn [is_null]. eexists. split; [reflexivity|].
  unfold new_events. cbn. rewrite mem_setup, heap_setup. done.
Qed.

(** What [strncpy] copies of a source of at least [n] cells is the
    string of its first [n] cells. *)
Lemma strncpy_cells_take cells n :
  (n <= length cells)%nat ->
  exists tmp,
    strncpy_cells cells n = Some tmp /\
    until_nul tmp = until_nul (take n cells).
Proof.
  revert cells. induction n as [|n IH]; intros cells Hn.
  - exists []. by rewrite take_0.
  - destruct cells as [|c r]; [simpl in Hn; lia|]. simpl in Hn.
    simpl. destruct (c =? 0) eqn:E.
    + eexists. split; [done|]. done.
    + destruct (IH r ltac:(lia)) as (tmp & -> & Ht). exists (c :: tmp).
      split; [done|]. simpl. by rewrite E, Ht.
Qed.

(** X14.  With an explicit source length the function converts the
    first [srclen] bytes of the source, up to a NUL among them, and
    nothing beyond: the source needs no terminator. *)
Theorem MultiByteToWideChar_compat_explicit_length :
  forall s cp flags a srclen d dstlen cells ws old,
    mem s !! a = Some cells ->
    0 <= srclen < INT_MAX -> srclen <= Z.of_nat (length cells) ->
    decode (locale (setup s)) (until_nul (take (Z.to_nat srclen) cells))
    = Some ws ->
    Z.of_nat (length ws) < dstlen <= INT_MAX ->
    alloc_ok s (srclen + 1) ->
    mem s !! d = Some old -> dstlen <= Z.of_nat (length old) ->
    exists s',
      MultiByteToWideChar_compat cp flags (Ptr a) srclen (Ptr d) dstlen s
      = Done (Z.of_nat (length ws)) s' /\
      mem s' = <[d := ws ++ 0 :: drop (length ws + 1) old]> (mem s) /\
      heap s' = heap s.
Proof.
  intros s cp flags a srclen d dstlen cells ws old
         Ha Hr Hlen Hd Hdst Hal Hdm Hcap.
  destruct (strncpy_cells_take cells (Z.to_nat srclen) ltac:(lia))
    as (tmp & Htmp & Hstr).
  destruct (MultiByteToWideChar_run s cp flags a srclen d dstlen cells
              srclen tmp ws old) as (s' & Hrun & Hm & Hh); try done.
  - lia.
  - unfold source_length. by rewrite (proj2 (Z.eqb_neq srclen (-1))) by lia.
  - by rewrite Hstr.
  - exists s'. rewrite Z.min_l in Hrun, Hm by lia.
    rewrite Nat2Z.id, take_ge in Hm by lia. done.
Qed.

Lemma mbstowcs_result_nonneg dst src n s k s' :
  mbstowcs dst src n s = Done k s' -> 0 <= k.
Proof.
  unfold mbstowcs, mbstowcs_len, mbstowcs_conv. intros H. split_run.
  all: try (unfold SIZE_MAX; lia).
  all: match goal with
       | H : count _ = Some _ |- _ => by apply mbstowcs_from_count_ge in H
       end.
Qed.

Lemma store_idx_lookup p i v s u s' :
  store_idx p i v s = Done u s' ->
  exists cells, load p s' = Some cells /\ cells !! Z.to_nat i = Some v.
Proof.
  unfold store_idx. intros H.
  destruct (load p s) as [old|] eqn:El; [|done].
  destruct ((0 <=? i) && (i <? Z.of_nat (length old))) eqn:Ei; [|done].
  apply andb_prop in Ei as [Hi1%Z.leb_le Hi2%Z.ltb_lt].
  assert (<[Z.to_nat i := v]> old !! Z.to_nat i = Some v) as Hv
      by (apply list_lookup_insert_eq; lia).
  destruct p; simpl in H; try done; injection H as H; subst s'; eexists;
    (split; [|exact Hv]).
  - simpl. apply lookup_insert_eq.
  - done.
Qed.

(** X15.  Whenever [MultiByteToWideChar_compat] returns, its result is
    either 0 or a count of at most [dstlen - 1] characters, and then the
    destination has a NUL at that index: a non-zero result always
    denotes a terminated string inside the buffer. *)
Theorem MultiByteToWideChar_compat_result_terminated :
  forall cp flags src srclen dst dstlen s r s',
    dstlen <= INT_MAX ->
    MultiByteToWideChar_compat cp flags src srclen dst dstlen s = Done r s' ->
    r = 0 \/
    (0 < r <= dstlen - 1 /\
     exists cells, load dst s' = Some cells /\ cells !! Z.to_nat r = Some 0).
Proof.
  intros cp flags src srclen dst dstlen s r s' Hmax H.
  unfold MultiByteToWideChar_compat in H.
  destruct (is_null src || is_null dst || (dstlen <=? 0)) eqn:Eargs.
  { left. unfold ret in H. by injection H as <- _. }
  apply orb_false_elim in Eargs as [_ Hlen%Z.leb_gt].
  rewrite setup_run in H. unfold INT_MAX in *.
  assert (to_size_t (dstlen - 1) = dstlen - 1) as Ed
      by (apply to_size_t_small; unfold PTRDIFF_MAX; lia).
  rewrite Ed in H. split_run; try (by left).
  all: repeat match goal with
       | H : mbstowcs _ _ _ _ = Done _ _ |- _ =>
         apply mbstowcs_result_nonneg in H
       | H : (_ <? _) = true |- _ => apply Z.ltb_lt in H
       | H : store_idx _ _ _ _ = Done _ _ |- _ => apply store_idx_lookup in H
       end.
  all: rewrite to_int_small by (unfold INT_MAX; lia).
  all: match goal with
       | |- ?k = 0 \/ _ =>
         destruct (decide (k = 0)) as [Hk|]; [left; exact Hk|]
       end.
  all: right; split; [lia|done].
Qed.

End ConversionPaths.

Lemma MultiByteToWideChar_compat_invalid_source_witness :
  exists s',
    MultiByteToWideChar_compat CP_UTF8 0 (Ptr 1) (-1) (Ptr 2) 4
      (Toy.start [255; 0] [7; 7; 7; 7] Toy.home) = Done 0 s' /\
    errno s' = EILSEQ /\ heap s' = ∅.
Proof.
  destruct (MultiByteToWideChar_compat_invalid_source
              (Toy.start [255; 0] [7; 7; 7; 7] Toy.home)
              CP_UTF8 0 1%nat (-1) 2%nat 4 [255; 0] 1 [255] [7; 7; 7; 7])
    as (s' & H & He & Hh & _).
  - by vm_compute.
  - reflexivity.
  - reflexivity.
  - by vm_compute.
  - reflexivity.
  - by vm_compute.
  - by vm_compute.
  - split; [by vm_compute|reflexivity].
  - reflexivity.
  - simpl. lia.
  - exists s'. split; [exact H|]. split; [exact He|exact Hh].
Defined.

Lemma MultiByteToWideChar_compat_no_memory_witness :
  exists s',
    MultiByteToWideChar_compat CP_UTF8 0 (Ptr 1) (-1) (Ptr 2) 2
      (Toy.start_nomem [97; 0] [7; 7] Toy.home) = Done 0 s' /\
    errno s' = ENOMEM /\ mem s' !! 2%nat = Some [7; 7] /\ locale_set s' = true.
Proof.
  destruct (MultiByteToWideChar_compat_no_memory
              (Toy.start_nomem [97; 0] [7; 7] Toy.home)
              CP_UTF8 0 1%nat (-1) (Ptr 2) 2 [97; 0] 1)
    as (s' & H & He & Hm & _ & Hl).
  - reflexivity.
  - lia.
  - reflexivity.
  - reflexivity.
  - by vm_compute.
  - reflexivity.
  - exists s'. split; [exact H|]. split; [exact He|].
    split; [by rewrite Hm|exact Hl].
Defined.

Lemma MultiByteToWideChar_compat_negative_length_witness :
  exists s',
    MultiByteToWideChar_compat CP_UTF8 0 (Ptr 1) (-5) (Ptr 2) 2
      (Toy.start [97; 0] [7; 7] Toy.home) = Done 0 s' /\
    errno s' = ENOMEM /\ mem s' !! 2%nat = Some [7; 7].
Proof.
  destruct (MultiByteToWideChar_compat_negative_length
              (Toy.start [97; 0] [7; 7] Toy.home)
              CP_UTF8 0 (Ptr 1) (-5) (Ptr 2) 2)
    as (s' & H & He & Hm & _).
  - reflexivity.
  - reflexivity.
  - lia.
  - lia.
  - exists s'. split; [exact H|]. split; [exact He|]. by rewrite Hm.
Defined.

Lemma MultiByteToWideChar_compat_explicit_length_witness :
  exists s',
    MultiByteToWideChar_compat CP_UTF8 0 (Ptr 1) 2 (Ptr 2) 4
      (Toy.start [97; 98; 99] [7; 7; 7; 7] Toy.home) = Done 2 s' /\
    mem s' !! 2%nat = Some [97; 98; 0; 7].
Proof.
  destruct (MultiByteToWideChar_compat_explicit_length
              (Toy.start [97; 98; 99] [7; 7; 7; 7] Toy.home)
              CP_UTF8 0 1%nat 2 2%nat 4 [97; 98; 99] [97; 98] [7; 7; 7; 7])
    as (s' & H & Hm & _).
  - reflexivity.
  - by vm_compute.
  - simpl. lia.
  - by vm_compute.
  - by vm_compute.
  - split; [by vm_compute|reflexivity].
  - reflexivity.
  - simpl. lia.
  - exists s'. split; [exact H|]. rewrite Hm. by vm_compute.
Defined.

Lemma MultiByteToWideChar_compat_result_terminated_witness :
  exists s',
    MultiByteToWideChar_compat CP_UTF8 0 (Ptr 1) (-1) (Ptr 2) 3
      (Toy.start [97; 98; 99; 0] [7; 7; 7] Toy.home) = Done 2 s' /\
    exists cells, mem s' !! 2%nat = Some cells /\ cells !! 2%nat = Some 0.
Proof.
  pose proof (MultiByteToWideChar_compat_result_terminated
                CP_UTF8 0 (Ptr 1) (-1) (Ptr 2) 3
                (Toy.start [97; 98; 99; 0] [7; 7; 7] Toy.home)) as Hthm.
  destruct (MultiByteToWideChar_compat CP_UTF8 0 (Ptr 1) (-1) (Ptr 2) 3
              (Toy.start [97; 98; 99; 0] [7; 7; 7] Toy.home))
    as [r s'|] eqn:E.
  - assert (r = 2) as -> by (vm_compute in E; by injection E as <- _).
    exists s'. split; [reflexivity|].
    destruct (Hthm 2 s' ltac:(by vm_compute) eq_refl) as [Hz | [_ Hc]].
    + discriminate Hz.
    + exact Hc.
  - vm_compute in E. discriminate E.
Defined.

(** ** Two wide arguments *)

Section TwoNames.
Context {W : Type} {OS : Posix W}.
Implicit Types s : state W.

Lemma rename_run s p q o n :
  holds s p o -> holds s q n ->
  rename p q s =
  Done (status (sys_value (sys_rename o n (world s))))
       (after_sys (sys_rename o n (world s)) (log (EvRename o n) s)).
Proof.
  intros Hp Hq. unfold rename.
  eapply bind_run; [by apply read_str_run|].
  eapply bind_run; [by apply read_str_run|].
  unfold bind at 1, modify. eapply bind_run; [apply syscall_run|]. done.
Qed.

Lemma fopen_run s p q f m :
  holds s p f -> holds s q m ->
  fopen p q s =
  Done (sys_value (sys_fopen f m (world s)))
       (after_sys (sys_fopen f m (world s)) (log (EvFopen f m) s)).
Proof.
  intros Hp Hq. unfold fopen.
  eapply bind_run; [by apply read_str_run|].
  eapply bind_run; [by apply read_str_run|].
  unfold bind at 1, modify. apply (syscall_run _ (log (EvFopen f m) s)).
Qed.

Lemma _wfopen_unfold f m :
  _wfopen (W := W) (Ptr f) (Ptr m) =
  narrow (Ptr f) (ret None)
    (bind (modify (set_errno ENOMEM)) (fun _ => ret None))
    (fun mbfilename =>
       narrow (Ptr m)
         (bind (free mbfilename) (fun _ => ret None))
         (bind (free mbfilename) (fun _ =>
          bind (modify (set_errno ENOMEM)) (fun _ => ret None)))
         (fun mbmode =>
            bind (fopen mbfilename mbmode) (fun result =>
            bind (free mbfilename) (fun _ =>
            bind (free mbmode) (fun _ => ret result))))).
Proof. reflexivity. Qed.

(** Releasing the two objects of two narrowings in a row restores
    memory and heap. *)
Lemma both_released s src1 bs1 src2 bs2 :
  let s1 := narrowed s src1 bs1 in
  let s2 := narrowed s1 src2 bs2 in
  delete (next_block s1) (delete (next_block s) (mem s2)) = mem s /\
  (heap s2 ∖ {[next_block s]}) ∖ {[next_block s1]} = heap s /\
  next_block s ∈ heap s2 /\ next_block s1 ∈ heap s2 ∖ {[next_block s]}.
Proof.
  intros s1 s2.
  pose proof (next_block_unused s) as H1.
  pose proof (next_block_unused s1) as H2.
  pose proof (next_block_not_live s) as L1.
  pose proof (next_block_not_live s1) as L2.
  subst s2. cbn [mem heap narrowed]. subst s1.
  cbn [mem heap narrowed] in *.
  set (t1 := next_block s) in *.
  set (t2 := next_block (narrowed s src1 bs1)) in *. clearbody t1 t2.
  apply lookup_insert_None in H2 as [H2 Hne].
  split; [|set_solver].
  rewrite delete_insert_ne by done.
  rewrite (delete_insert_id (mem s) t1) by done.
  by apply delete_insert_id.
Qed.

(** The state two narrowings in a row lead to holds both strings. *)
Lemma twice_narrowed_holds s p q ws_p bs_p ws_q bs_q :
  holds s (Ptr p) ws_p -> holds s (Ptr q) ws_q ->
  encode (locale s) ws_p = Some bs_p -> encode (locale s) ws_q = Some bs_q ->
  let s1 := narrowed s (Ptr p) bs_p in
  let s2 := narrowed s1 (Ptr q) bs_q in
  holds s2 (Ptr (next_block s)) bs_p /\ holds s2 (Ptr (next_block s1)) bs_q.
Proof.
  intros Hp Hq Ep Eq s1 s2. split.
  - apply narrowed_holds_old. by eapply narrowed_holds_new.
  - eapply narrowed_holds_new; [|exact Eq]. by apply narrowed_holds_old.
Qed.

(** [_wrename] once both names are narrowed. *)
Lemma _wrename_run s o n ws_o bs_o ws_n bs_n :
  holds s (Ptr o) ws_o -> holds s (Ptr n) ws_n ->
  encode (locale s) ws_o = Some bs_o -> encode (locale s) ws_n = Some bs_n ->
  alloc_ok s (Z.of_nat (length bs_o) + 1) ->
  alloc_ok (narrowed s (Ptr o) bs_o) (Z.of_nat (length bs_n) + 1) ->
  let r := sys_rename bs_o bs_n (world s) in
  exists s',
    _wrename (Ptr o) (Ptr n) s = Done (status (sys_value r)) s' /\
    mem s' = mem s /\ heap s' = heap s /\ world s' = r.2 /\
    (forall e, r.1 = SysErr e -> errno s' = e).
Proof.
  intros Ho Hn Eo En Ao An r.
  destruct (twice_narrowed_holds s o n ws_o bs_o ws_n bs_n) as [H1 H2];
    try done.
  destruct (both_released s (Ptr o) bs_o (Ptr n) bs_n) as (Em & Eh & L1 & L2).
  rewrite _wrename_unfold.
  rewrite (narrow_ok _ _ _ _ _ _ _ Ho Eo Ao).
  rewrite (narrow_ok _ _ _ (narrowed s (Ptr o) bs_o) (Ptr n) ws_n bs_n)
    by (try done; by apply narrowed_holds_old).
  set (s1 := narrowed s (Ptr o) bs_o) in *.
  set (s2 := narrowed s1 (Ptr n) bs_n) in *.
  rewrite (bind_step _ _ _ _ _ (rename_run s2 _ _ _ _ H1 H2)).
  assert (world s2 = world s) as -> by done. fold r.
  set (s3 := after_sys r _).
  assert (heap s3 = heap s2) as Hh3 by (subst s3; by rewrite heap_after_sys).
  assert (mem s3 = mem s2) as Hm3 by (subst s3; by rewrite mem_after_sys).
  eexists. split.
  { eapply bind_run; [apply free_run; by rewrite Hh3|].
    eapply bind_run; [apply free_run; cbn; by rewrite Hh3|]. reflexivity. }
  cbn [mem heap world errno log set_heap set_mem]. rewrite Hm3, Hh3.
  split; [exact Em|]. split; [exact Eh|].
  subst s3. clearbody r. destruct r as [[u|e] w']; cbn; split; try done.
  by intros e' [= <-].
Qed.

(** X16.  Once both names are narrowed, [_wrename] hands their
    encodings to [rename] and returns what it returns: 0, or -1 with the
    kernel's error number in [errno].  Either way both buffers are
    freed: memory and heap are as before the call. *)
Theorem _wrename_returns_rename :
  forall s o n ws_o bs_o ws_n bs_n,
    holds s (Ptr o) ws_o -> holds s (Ptr n) ws_n ->
    encode (locale s) ws_o = Some bs_o -> encode (locale s) ws_n = Some bs_n ->
    alloc_ok s (Z.of_nat (length bs_o) + 1) ->
    alloc_ok (narrowed s (Ptr o) bs_o) (Z.of_nat (length bs_n) + 1) ->
    (forall w',
        sys_rename bs_o bs_n (world s) = (SysOk tt, w') ->
        exists s',
          _wrename (Ptr o) (Ptr n) s = Done 0 s' /\ world s' = w' /\
          mem s' = mem s /\ heap s' = heap s) /\
    (forall e w',
        sys_rename bs_o bs_n (world s) = (SysErr e, w') ->
        exists s',
          _wrename (Ptr o) (Ptr n) s = Done (-1) s' /\
          errno s' = e /\ world s' = w' /\
          mem s' = mem s /\ heap s' = heap s).
Proof.
  intros s o n ws_o bs_o ws_n bs_n Ho Hn Eo En Ao An.
  destruct (_wrename_run s o n ws_o bs_o ws_n bs_n Ho Hn Eo En Ao An)
    as (s' & Hrun & Hm & Hh & Hw & He).
  split.
  - intros w' Hsys. rewrite Hsys in *. by exists s'.
  - intros e w' Hsys. rewrite Hsys in *. exists s'.
    repeat split; try done. by apply He.
Qed.

(** [_wfopen] once both arguments are narrowed. *)
Lemma _wfopen_run s f m ws_f bs_f ws_m bs_m :
  holds s (Ptr f) ws_f -> holds s (Ptr m) ws_m ->
  encode (locale s) ws_f = Some bs_f -> encode (locale s) ws_m = Some bs_m ->
  alloc_ok s (Z.of_nat (length bs_f) + 1) ->
  alloc_ok (narrowed s (Ptr f) bs_f) (Z.of_nat (length bs_m) + 1) ->
  let r := sys_fopen bs_f bs_m (world s) in
  exists s',
    _wfopen (Ptr f) (Ptr m) s = Done (sys_value r) s' /\
    mem s' = mem s /\ heap s' = heap s /\ world s' = r.2 /\
    (forall e, r.1 = SysErr e -> errno s' = e).
Proof.
  intros Hf Hm Ef Em_ Af Am r.
  destruct (twice_narrowed_holds s f m ws_f bs_f ws_m bs_m) as [H1 H2];
    try done.
  destruct (both_released s (Ptr f) bs_f (Ptr m) bs_m) as (Em & Eh & L1 & L2).
  rewrite _wfopen_unfold.
  rewrite (narrow_ok _ _ _ _ _ _ _ Hf Ef Af).
  rewrite (narrow_ok _ _ _ (narrowed s (Ptr f) bs_f) (Ptr m) ws_m bs_m)
    by (try done; by apply narrowed_holds_old).
  set (s1 := narrowed s (Ptr f) bs_f) in *.
  set (s2 := narrowed s1 (Ptr m) bs_m) in *.
  rewrite (bind_step _ _ _ _ _ (fopen_run s2 _ _ _ _ H1 H2)).
  assert (world s2 = world s) as -> by done. fold r.
  set (s3 := after_sys r _).
  assert (heap s3 = heap s2) as Hh3 by (subst s3; by rewrite heap_after_sys).
  assert (mem s3 = mem s2) as Hm3 by (subst s3; by rewrite mem_after_sys).
  eexists. split.
  { eapply bind_run; [apply free_run; by rewrite Hh3|].
    eapply bind_run; [apply free_run; cbn; by rewrite Hh3|]. reflexivity. }
  cbn [mem heap world errno log set_heap set_mem]. rewrite Hm3, Hh3.
  split; [exact Em|]. split; [exact Eh|].
  subst s3. clearbody r. destruct r as [[u|e] w']; cbn; split; try done.
  by intros e' [= <-].
Qed.

(** X17.  Once file name and mode are narrowed, [_wfopen] hands their
    encodings to [fopen] and returns its stream, or a null pointer with
    the kernel's error number in [errno].  Either way both buffers are
    freed: memory and heap are as before the call. *)
Theorem _wfopen_returns_fopen :
  forall s f m ws_f bs_f ws_m bs_m,
    holds s (Ptr f) ws_f -> holds s (Ptr m) ws_m ->
    encode (locale s) ws_f = Some bs_f -> encode (locale s) ws_m = Some bs_m ->
    alloc_ok s (Z.of_nat (length bs_f) + 1) ->
    alloc_ok (narrowed s (Ptr f) bs_f) (Z.of_nat (length bs_m) + 1) ->
    (forall stream w',
        sys_fopen bs_f bs_m (world s) = (SysOk stream, w') ->
        exists s',
          _wfopen (Ptr f) (Ptr m) s = Done (Some stream) s' /\ world s' = w' /\
          mem s' = mem s /\ heap s' = heap s) /\
    (forall e w',
        sys_fopen bs_f bs_m (world s) = (SysErr e, w') ->
        exists s',
          _wfopen (Ptr f) (Ptr m) s = Done None s' /\
          errno s' = e /\ world s' = w' /\
          mem s' = mem s /\ heap s' = heap s).
Proof.
  intros s f m ws_f bs_f ws_m bs_m Hf Hm Ef Em Af Am.
  destruct (_wfopen_run s f m ws_f bs_f ws_m bs_m Hf Hm Ef Em Af Am)
    as (s' & Hrun & Hme & Hh & Hw & He).
  split.
  - intros stream w' Hsys. rewrite Hsys in *. by exists s'.
  - intros e w' Hsys. rewrite Hsys in *. exists s'.
    repeat split; try done. by apply He.
Qed.

(** X18.  When the file name is narrowed and the mode is not, because
    it has a character the locale cannot encode or because its buffer
    cannot be allocated, [_wfopen] frees the buffer of the file name and
    returns a null pointer without calling [fopen]: memory, heap and
    world are as before the call. *)
Theorem _wfopen_mode_failure :
  forall s f m ws_f bs_f ws_m,
    holds s (Ptr f) ws_f -> holds s (Ptr m) ws_m ->
    encode (locale s) ws_f = Some bs_f ->
    alloc_ok s (Z.of_nat (length bs_f) + 1) ->
    let n := Z.of_nat (length bs_f) + 1 in
    let t := Ptr (next_block s) in
    (encode (locale s) ws_m = None ->
     exists s',
       _wfopen (Ptr f) (Ptr m) s = Done None s' /\ errno s' = EILSEQ /\
       mem s' = mem s /\ heap s' = heap s /\ world s' = world s /\
       new_events s s'
         [EvWcstombs NULL (Ptr f) 0; EvMalloc n t; EvWcstombs t (Ptr f) n;
          EvWcstombs NULL (Ptr m) 0; EvFree t]) /\
    (forall bs_m,
        encode (locale s) ws_m = Some bs_m ->
        Z.of_nat (length bs_m) + 1 <= PTRDIFF_MAX ->
        hd true (tail (alloc_script s)) = false ->
        exists s',
          _wfopen (Ptr f) (Ptr m) s = Done None s' /\ errno s' = ENOMEM /\
          mem s' = mem s /\ heap s' = heap s /\ world s' = world s /\
          new_events s s'
            [EvWcstombs NULL (Ptr f) 0; EvMalloc n t; EvWcstombs t (Ptr f) n;
             EvWcstombs NULL (Ptr m) 0;
             EvMalloc (Z.of_nat (length bs_m) + 1) NULL; EvFree t]).
Proof.
  intros s f m ws_f bs_f ws_m Hf Hm Ef Af n t.
  pose proof (narrowed_holds_old s (Ptr f) bs_f _ _ Hm) as Hm1.
  destruct (release_restores s (bs_f ++ [0])) as [Em Eh].
  split.
  - intros Ebad. rewrite _wfopen_unfold.
    rewrite (narrow_ok _ _ _ _ _ _ _ Hf Ef Af).
    rewrite (narrow_bad_encoding _ _ _ _ _ _ Hm1)
      by (cbn [locale narrowed]; by rewrite wcstombs_len_encode, Ebad).
    eexists. split.
    { eapply bind_run; [apply free_run; cbn; set_solver|]. reflexivity. }
    unfold new_events. cbn. rewrite Em, Eh, <- !app_assoc. done.
  - intros bs_m Eok Hsize Hscript. rewrite _wfopen_unfold.
    rewrite (narrow_ok _ _ _ _ _ _ _ Hf Ef Af).
    rewrite (narrow_no_memory _ _ _ _ _ _ (Z.of_nat (length bs_m)) Hm1).
    + eexists. split.
      { eapply bind_run; [apply free_run; cbn; set_solver|]. reflexivity. }
      unfold new_events. cbn. rewrite Em, Eh, <- !app_assoc. done.
    + cbn [locale narrowed]. by rewrite wcstombs_len_encode, Eok.
    + unfold SIZE_MAX, PTRDIFF_MAX in *. lia.
    + intros [_ Hok]. cbn in Hok. congruence.
Qed.

End TwoNames.

Lemma _wrename_returns_rename_witness :
  (exists s',
      _wrename (Ptr 1) (Ptr 2)
        (Toy.start_utf8 [47; 97; 46; 116; 120; 116; 0]
                        [47; 98; 46; 116; 120; 116; 0] Toy.home) = Done 0 s' /\
      Toy.files (world s') = [[47; 98; 46; 116; 120; 116]] /\ heap s' = ∅) /\
  (exists s',
      _wrename (Ptr 1) (Ptr 2)
        (Toy.start_utf8 [47; 120; 0] [47; 121; 0] Toy.home) = Done (-1) s' /\
      errno s' = Toy.ENOENT /\ heap s' = ∅).
Proof.
  split.
  - destruct (proj1 (_wrename_returns_rename (OS := Toy.posix)
                (Toy.start_utf8 [47; 97; 46; 116; 120; 116; 0]
                                [47; 98; 46; 116; 120; 116; 0] Toy.home)
                1%nat 2%nat
                [47; 97; 46; 116; 120; 116] [47; 97; 46; 116; 120; 116]
                [47; 98; 46; 116; 120; 116] [47; 98; 46; 116; 120; 116]
                ltac:(by vm_compute) ltac:(by vm_compute)
                ltac:(by vm_compute) ltac:(by vm_compute)
                ltac:(split; [by vm_compute|reflexivity])
                ltac:(split; [by vm_compute|reflexivity]))
              (Toy.World [47] (Toy.dirs Toy.home)
                         [[47; 98; 46; 116; 120; 116]] (Toy.exe Toy.home))
              ltac:(by vm_compute)) as (s' & H & Hw & _ & Hh).
    exists s'. split; [exact H|]. split; [by rewrite Hw|exact Hh].
  - destruct (proj2 (_wrename_returns_rename (OS := Toy.posix)
                (Toy.start_utf8 [47; 120; 0] [47; 121; 0] Toy.home)
                1%nat 2%nat [47; 120] [47; 120] [47; 121] [47; 121]
                ltac:(by vm_compute) ltac:(by vm_compute)
                ltac:(by vm_compute) ltac:(by vm_compute)
                ltac:(split; [by vm_compute|reflexivity])
                ltac:(split; [by vm_compute|reflexivity]))
              Toy.ENOENT Toy.home ltac:(by vm_compute))
      as (s' & H & He & _ & _ & Hh).
    exists s'. split; [exact H|]. split; [exact He|exact Hh].
Defined.

Lemma _wfopen_returns_fopen_witness :
  (exists s',
      _wfopen (Ptr 1) (Ptr 2)
        (Toy.start_utf8 [47; 97; 46; 116; 120; 116; 0] [114; 0] Toy.home)
      = Done (Some 3%nat) s' /\ heap s' = ∅) /\
  (exists s',
      _wfopen (Ptr 1) (Ptr 2)
        (Toy.start_utf8 [47; 120; 0] [114; 0] Toy.home) = Done None s' /\
      errno s' = Toy.ENOENT /\ heap s' = ∅).
Proof.
  split.
  - destruct (proj1 (_wfopen_returns_fopen (OS := Toy.posix)
                (Toy.start_utf8 [47; 97; 46; 116; 120; 116; 0] [114; 0]
                                Toy.home)
                1%nat 2%nat
                [47; 97; 46; 116; 120; 116] [47; 97; 46; 116; 120; 116]
                [114] [114]
                ltac:(by vm_compute) ltac:(by vm_compute)
                ltac:(by vm_compute) ltac:(by vm_compute)
                ltac:(split; [by vm_compute|reflexivity])
                ltac:(split; [by vm_compute|reflexivity]))
              3%nat Toy.home ltac:(by vm_compute)) as (s' & H & _ & _ & Hh).
    exists s'. split; [exact H|exact Hh].
  - destruct (proj2 (_wfopen_returns_fopen (OS := Toy.posix)
                (Toy.start_utf8 [47; 120; 0] [114; 0] Toy.home)
                1%nat 2%nat [47; 120] [47; 120] [114] [114]
                ltac:(by vm_compute) ltac:(by vm_compute)
                ltac:(by vm_compute) ltac:(by vm_compute)
                ltac:(split; [by vm_compute|reflexivity])
                ltac:(split; [by vm_compute|reflexivity]))
              Toy.ENOENT Toy.home ltac:(by vm_compute))
      as (s' & H & He & _ & _ & Hh).
    exists s'. split; [exact H|]. split; [exact He|exact Hh].
Defined.

Lemma _wfopen_mode_failure_witness :
  (exists s',
      _wfopen (Ptr 1) (Ptr 2)
        (Toy.start_utf8 [47; 120; 0] [55296; 0] Toy.home) = Done None s' /\
      errno s' = EILSEQ /\ heap s' = ∅) /\
  (exists s',
      _wfopen (Ptr 1) (Ptr 2)
        (set_alloc_script [true; false]
           (Toy.start_utf8 [47; 120; 0] [114; 0] Toy.home)) = Done None s' /\
      errno s' = ENOMEM /\ heap s' = ∅).
Proof.
  split.
  - destruct (proj1 (_wfopen_mode_failure (OS := Toy.posix)
                (Toy.start_utf8 [47; 120; 0] [55296; 0] Toy.home)
                1%nat 2%nat [47; 120] [47; 120] [55296]
                ltac:(by vm_compute) ltac:(by vm_compute)
                ltac:(by vm_compute)
                ltac:(split; [by vm_compute|reflexivity]))
              ltac:(by vm_compute)) as (s' & H & He & _ & Hh & _).
    exists s'. split; [exact H|]. split; [exact He|exact Hh].
  - destruct (proj2 (_wfopen_mode_failure (OS := Toy.posix)
                (set_alloc_script [true; false]
                   (Toy.start_utf8 [47; 120; 0] [114; 0] Toy.home))
                1%nat 2%nat [47; 120] [47; 120] [114]
                ltac:(by vm_compute) ltac:(by vm_compute)
                ltac:(by vm_compute)
                ltac:(split; [by vm_compute|reflexivity]))
              [114] ltac:(by vm_compute) ltac:(by vm_compute)
              ltac:(reflexivity)) as (s' & H & He & _ & Hh & _).
    exists s'. split; [exact H|]. split; [exact He|exact Hh].
Defined.

(** ** What the functions leave of memory *)

Section MemoryFrame.
Context {W : Type} {OS : Posix W}.
Implicit Types s t : state W.

Lemma store_at_wrote p cells s u s' :
  store_at p cells s = Done u s' -> wrote s s' p.
Proof.
  unfold store_at, update. intros H.
  destruct p; repeat (case_match; simplify_eq/=); by eauto.
Qed.

Lemma store_idx_wrote p i v s u s' :
  store_idx p i v s = Done u s' -> wrote s s' p.
Proof.
  unfold store_idx, update. intros H.
  destruct p; repeat (case_match; simplify_eq/=); by eauto.
Qed.

Lemma syscall_mem {A} (f : W -> sysres A * W) s r s' :
  syscall f s = Done r s' -> mem s' = mem s.
Proof. unfold syscall. intros H. by repeat (case_match; simplify_eq/=). Qed.

(** Bring the memory of every state of a run back to that of an
    earlier state. *)
Ltac chain_mem :=
  repeat match goal with
  | H : store_at _ _ _ = Done _ _ |- _ => apply store_at_wrote in H
  | H : store_idx _ _ _ _ = Done _ _ |- _ => apply store_idx_wrote in H
  | H : syscall _ _ = Done _ _ |- _ => apply syscall_mem in H
  end;
  cbn [mem log set_errno set_world set_mem set_heap set_alloc_script
       set_pcells set_program_path set_locale set_locale_set] in *.

(** Express the memory of the last state by that of the first. *)
Ltac flatten_mem :=
  repeat match goal with
  | H : _ /\ _ |- _ => destruct H
  | H : exists _, _ |- _ => destruct H as [? H]
  end;
  repeat match goal with
  | H : mem ?x = _ |- _ => try rewrite H in *; clear H
  end.

Lemma wcstombs_wrote dst src n s r s' :
  wcstombs dst src n s = Done r s' -> wrote s s' dst.
Proof.
  unfold wcstombs. intros H. split_run; chain_mem;
    destruct dst; simpl in *; try done.
Qed.

Lemma mbstowcs_wrote dst src n s r s' :
  mbstowcs dst src n s = Done r s' -> wrote s s' dst.
Proof.
  unfold mbstowcs. intros H. split_run; chain_mem;
    destruct dst; simpl in *; try done.
Qed.

Lemma strlen_mem p s r s' : strlen p s = Done r s' -> mem s' = mem s.
Proof. unfold strlen. intros H. by split_run. Qed.

Lemma strncpy_wrote dst src n s u s' :
  strncpy dst src n s = Done u s' -> wrote s s' dst.
Proof.
  unfold strncpy. intros H. case_match; [|done]. by eapply store_at_wrote.
Qed.

Lemma store_ptr_mem pp v s u s' :
  store_ptr pp v s = Done u s' -> mem s' = mem s.
Proof.
  unfold store_ptr. intros H. by repeat (case_match; simplify_eq/=).
Qed.

Lemma chdir_mem p s r s' : chdir p s = Done r s' -> mem s' = mem s.
Proof. unfold chdir. intros H. split_run; chain_mem; congruence. Qed.

Lemma realpath_mem p s r s' : realpath p s = Done r s' -> mem s' = mem s.
Proof. unfold realpath. intros H. split_run; chain_mem; congruence. Qed.

Lemma readlink_mem path n s r s' :
  readlink path ProgramPath n s = Done r s' -> mem s' = mem s.
Proof.
  unfold readlink. intros H. split_run; chain_mem; simpl in *; congruence.
Qed.

Lemma fopen_mem f m s r s' : fopen f m s = Done r s' -> mem s' = mem s.
Proof. unfold fopen. intros H. split_run; chain_mem; congruence. Qed.

Lemma remove_mem f s r s' : remove f s = Done r s' -> mem s' = mem s.
Proof. unfold remove. intros H. split_run; chain_mem; congruence. Qed.

Lemma rename_mem o n s r s' : rename o n s = Done r s' -> mem s' = mem s.
Proof. unfold rename. intros H. split_run; chain_mem; congruence. Qed.

Lemma malloc_created elt n s p s' :
  malloc elt n s = Done p s' -> created s s' p.
Proof.
  unfold malloc. intros H. pose proof (next_block_unused s) as Hn.
  unfold next_block in Hn.
  repeat (case_match; simplify_eq/=); by eauto.
Qed.

Lemma free_removed p s u s' : free p s = Done u s' -> removed s s' p.
Proof. unfold free. intros H. by repeat (case_match; simplify_eq/=). Qed.

(** Replace the run of every primitive by what it does to memory. *)
Ltac prim_mem :=
  repeat match goal with
  | H : wcstombs _ _ _ _ = Done _ _ |- _ => apply wcstombs_wrote in H
  | H : mbstowcs _ _ _ _ = Done _ _ |- _ => apply mbstowcs_wrote in H
  | H : strlen _ _ = Done _ _ |- _ => apply strlen_mem in H
  | H : strncpy _ _ _ _ = Done _ _ |- _ => apply strncpy_wrote in H
  | H : store_at _ _ _ = Done _ _ |- _ => apply store_at_wrote in H
  | H : store_idx _ _ _ _ = Done _ _ |- _ => apply store_idx_wrote in H
  | H : store_ptr _ _ _ = Done _ _ |- _ => apply store_ptr_mem in H
  | H : syscall _ _ = Done _ _ |- _ => apply syscall_mem in H
  | H : chdir _ _ = Done _ _ |- _ => apply chdir_mem in H
  | H : realpath _ _ = Done _ _ |- _ => apply realpath_mem in H
  | H : readlink _ ProgramPath _ _ = Done _ _ |- _ => apply readlink_mem in H
  | H : fopen _ _ _ = Done _ _ |- _ => apply fopen_mem in H
  | H : remove _ _ = Done _ _ |- _ => apply remove_mem in H
  | H : rename _ _ _ = Done _ _ |- _ => apply rename_mem in H
  | H : malloc _ _ _ = Done _ _ |- _ => apply malloc_created in H
  | H : free _ _ = Done _ _ |- _ => apply free_removed in H
  end.

(** Settle which allocations failed; then every memory is that of the
    first state with objects inserted and deleted. *)
Ltac settle_created :=
  repeat match goal with
  | H : created _ _ ?p, Hn : is_null ?p = _ |- _ =>
    destruct p; simpl in H, Hn; try done; clear Hn
  end;
  cbn [wrote created removed] in *;
  cbn [mem log set_errno set_world set_mem set_heap set_alloc_script
       set_pcells set_program_path set_locale set_locale_set] in *;
  flatten_mem;
  repeat match goal with
  | H : <[_ := _]> _ !! _ = None |- _ => apply lookup_insert_None in H as [H ?]
  end.

(** Compare two memories object by object. *)
Ltac lookup_cases k :=
  repeat match goal with
  | H : _ !! ?b = None |- _ =>
    lazymatch goal with
    | _ : k = b |- _ => fail
    | _ : k ≠ b |- _ => fail
    | _ => destruct (decide (k = b))
    end
  end;
  subst;
  repeat first
    [ rewrite lookup_delete_eq
    | rewrite lookup_insert_eq
    | rewrite lookup_delete_ne by congruence
    | rewrite lookup_insert_ne by congruence ];
  try done; try congruence.


Lemma getcwd_alloc_created s p s' :
  getcwd_alloc s = Done p s' -> created s s' p.
Proof.
  unfold getcwd_alloc. intros H. split_run; prim_mem; settle_created;
    simpl; try congruence.
  split; [congruence|]. eexists. by rewrite insert_insert_eq.
Qed.


Ltac other_objects :=
  settle_created;
  match goal with
  | |- forall b, _ =>
    let k := fresh "k" in
    intros k; intros;
    repeat match goal with
    | H : Ptr k ≠ Ptr ?d |- _ =>
      assert (k ≠ d) by congruence; clear H
    end;
    lookup_cases k
  end.

(** X20.  The functions that produce a wide string change no object of
    memory but the one they are to fill, whichever way they return:
    [wfullpath_compat] and [MultiByteToWideChar_compat] at most the
    destination, [wgetcwd_compat] at most the caller's buffer or the
    object it returns. *)
Theorem output_functions_change_destination_only :
  (forall dst src size s r s',
      wfullpath_compat dst src size s = Done r s' ->
      forall b, Ptr b ≠ dst -> mem s' !! b = mem s !! b) /\
  (forall cp flags src srclen dst dstlen s r s',
      MultiByteToWideChar_compat cp flags src srclen dst dstlen s = Done r s' ->
      forall b, Ptr b ≠ dst -> mem s' !! b = mem s !! b) /\
  (forall buffer size s r s',
      wgetcwd_compat buffer size s = Done r s' ->
      forall b, Ptr b ≠ buffer -> Ptr b ≠ r -> mem s' !! b = mem s !! b).
Proof.
  repeat apply conj.
  - intros dst src size s r s' H. unfold wfullpath_compat in H.
    destruct dst; split_run; prim_mem; other_objects.
  - intros cp flags src srclen dst dstlen s r s' H.
    unfold MultiByteToWideChar_compat in H.
    destruct (is_null src || is_null dst || (dstlen <=? 0)) eqn:Eargs.
    { unfold ret in H. by injection H as _ <-. }
    rewrite setup_run in H. rewrite <- (mem_setup s).
    destruct dst; split_run; prim_mem; other_objects.
  - intros buffer size s r s' H. unfold wgetcwd_compat in H. cbv zeta in H.
    destruct buffer; split_run; prim_mem;
      repeat match goal with
      | H : getcwd_alloc _ = Done _ _ |- _ => apply getcwd_alloc_created in H
      end;
      other_objects.
Qed.

End MemoryFrame.


Lemma output_functions_change_destination_only_witness :
  (exists r s',
      MultiByteToWideChar_compat CP_UTF8 0 (Ptr 1) (-1) (Ptr 2) 3
        (Toy.start [97; 98; 99; 0] [7; 7; 7] Toy.home) = Done r s' /\
      mem s' !! 1%nat = Some [97; 98; 99; 0]) /\
  (exists r s',
      wgetcwd_compat NULL 0 (Toy.start_utf8 [97; 0] [7] Toy.home)
      = Done r s' /\
      mem s' !! 1%nat = Some [97; 0] /\ mem s' !! 2%nat = Some [7]).
Proof.
  split.
  - pose proof (proj1 (proj2
                  (output_functions_change_destination_only (OS := Toy.posix)))
                  CP_UTF8 0 (Ptr 1) (-1) (Ptr 2) 3
                  (Toy.start [97; 98; 99; 0] [7; 7; 7] Toy.home)) as Hthm.
    destruct (MultiByteToWideChar_compat CP_UTF8 0 (Ptr 1) (-1) (Ptr 2) 3
                (Toy.start [97; 98; 99; 0] [7; 7; 7] Toy.home))
      as [r s'|] eqn:E.
    + exists r, s'. split; [reflexivity|].
      by rewrite (Hthm r s' eq_refl 1%nat).
    + vm_compute in E. discriminate E.
  - pose proof (proj2 (proj2
                  (output_functions_change_destination_only (OS := Toy.posix)))
                  NULL 0 (Toy.start_utf8 [97; 0] [7] Toy.home)) as Hthm.
    destruct (wgetcwd_compat NULL 0 (Toy.start_utf8 [97; 0] [7] Toy.home))
      as [r s'|] eqn:E.
    + assert (r = Ptr 4) as -> by (vm_compute in E; by injection E as <- _).
      exists (Ptr 4), s'. split; [reflexivity|].
      by rewrite !(Hthm (Ptr 4) s' eq_refl).
    + vm_compute in E. discriminate E.
Defined.

(** ** Who decides the result *)

Section KernelAnswers.
Context {W : Type} {OS : Posix W}.
Implicit Types s t : state W.

Lemma store_at_world p cells s u s' :
  store_at p cells s = Done u s' -> world s' = world s /\ errno s' = errno s.
Proof.
  unfold store_at, update. intros H.
  by repeat (case_match; simplify_eq/=).
Qed.

Lemma wcstombs_world dst src n s r s' :
  wcstombs dst src n s = Done r s' -> world s' = world s.
Proof.
  unfold wcstombs. intros H. split_run;
    repeat match goal with
    | H : store_at _ _ _ = Done _ _ |- _ => apply store_at_world in H as [H _]
    end; cbn in *; congruence.
Qed.

Lemma malloc_world elt n s p s' :
  malloc elt n s = Done p s' -> world s' = world s.
Proof. unfold malloc. intros H. by repeat (case_match; simplify_eq/=). Qed.

Lemma free_world p s u s' :
  free p s = Done u s' -> world s' = world s /\ errno s' = errno s.
Proof. unfold free. intros H. by repeat (case_match; simplify_eq/=). Qed.

Lemma syscall_answered {A} (f : W -> sysres A * W) s r s' :
  syscall f s = Done r s' -> answered f s s' r.
Proof.
  unfold syscall, answered. destruct (f (world s)) as [[a|e] w];
    intros [= <- <-]; cbn; by eauto.
Qed.

Lemma answered_shift {A} (f : W -> sysres A * W) s t t' s' r :
  answered f t t' r ->
  world t = world s -> world s' = world t' -> errno s' = errno t' ->
  answered f s s' r.
Proof.
  unfold answered. intros H E1 E2 E3. destruct r as [a|].
  - by rewrite <- E1, E2.
  - destruct H as (e & H & He). exists e. by rewrite <- E1, E2, E3.
Qed.

Lemma chdir_answered p s r s' :
  chdir p s = Done r s' ->
  exists bs a, answered (sys_chdir bs) s s' a /\ r = status a.
Proof.
  unfold chdir. intros H. split_run.
  match goal with
  | H : syscall _ _ = Done _ _ |- _ => apply syscall_answered in H
  end.
  by eauto.
Qed.

Lemma remove_answered p s r s' :
  remove p s = Done r s' ->
  exists bs a, answered (sys_remove bs) s s' a /\ r = status a.
Proof.
  unfold remove. intros H. split_run.
  match goal with
  | H : syscall _ _ = Done _ _ |- _ => apply syscall_answered in H
  end.
  by eauto.
Qed.

Lemma rename_answered p q s r s' :
  rename p q s = Done r s' ->
  exists bo bn a, answered (sys_rename bo bn) s s' a /\ r = status a.
Proof.
  unfold rename. intros H. split_run.
  match goal with
  | H : syscall _ _ = Done _ _ |- _ => apply syscall_answered in H
  end.
  by eauto.
Qed.

Lemma fopen_answered p q s r s' :
  fopen p q s = Done r s' ->
  exists bf bm, answered (sys_fopen bf bm) s s' r.
Proof.
  unfold fopen. intros H. split_run. apply syscall_answered in H.
  by eauto.
Qed.

(** Replace the runs of the library calls by what they do to the
    world. *)
Ltac prim_world :=
  repeat match goal with
  | H : wcstombs _ _ _ _ = Done _ _ |- _ => apply wcstombs_world in H
  | H : malloc _ _ _ = Done _ _ |- _ => apply malloc_world in H
  | H : free _ _ = Done _ _ |- _ => apply free_world in H as [? ?]
  | H : chdir _ _ = Done _ _ |- _ =>
    apply chdir_answered in H as (? & ? & H & ->)
  | H : remove _ _ = Done _ _ |- _ =>
    apply remove_answered in H as (? & ? & H & ->)
  | H : rename _ _ _ = Done _ _ |- _ =>
    apply rename_answered in H as (? & ? & ? & H & ->)
  | H : fopen _ _ _ = Done _ _ |- _ =>
    apply fopen_answered in H as (? & ? & H)
  end;
  cbn [world errno log set_errno set_world set_mem set_heap set_alloc_script
       set_pcells set_program_path set_locale set_locale_set] in *.

(** Either the function gave up before the kernel was asked, or the
    answer of the kernel is the result. *)
Ltac settle_world :=
  first
    [ left; split; [reflexivity|congruence]
    | right;
      match goal with
      | H : answered _ _ _ _ |- _ =>
        repeat eexists; [eapply answered_shift; [exact H|congruence..]]
      end ].

(** X21.  The file-system functions add no verdict of their own to the
    kernel's: whichever way one of them returns, either it failed
    before any system call, and the world is as it was, or its result
    is the answer of the one system call it made, for some byte strings
    passed to it: 0 or a stream when the kernel accepted, -1 or a null
    pointer with the kernel's error number in [errno] when it
    refused. *)
Theorem result_is_the_kernels_answer :
  (forall path s r s',
      wchdir_compat path s = Done r s' ->
      (r = -1 /\ world s' = world s) \/
      exists bs a, answered (sys_chdir bs) s s' a /\ r = status a) /\
  (forall filename s r s',
      _wremove filename s = Done r s' ->
      (r = -1 /\ world s' = world s) \/
      exists bs a, answered (sys_remove bs) s s' a /\ r = status a) /\
  (forall oldname newname s r s',
      _wrename oldname newname s = Done r s' ->
      (r = -1 /\ world s' = world s) \/
      exists bo bn a, answered (sys_rename bo bn) s s' a /\ r = status a) /\
  (forall filename mode s r s',
      _wfopen filename mode s = Done r s' ->
      (r = None /\ world s' = world s) \/
      exists bf bm, answered (sys_fopen bf bm) s s' r).
Proof.
  repeat apply conj.
  - intros path s r s' H. unfold wchdir_compat in H.
    split_run; prim_world; settle_world.
  - intros filename s r s' H. unfold _wremove in H.
    split_run; prim_world; settle_world.
  - intros oldname newname s r s' H. unfold _wrename in H.
    split_run; prim_world; settle_world.
  - intros filename mode s r s' H. unfold _wfopen in H.
    split_run; prim_world; settle_world.
Qed.

End KernelAnswers.

Lemma result_is_the_kernels_answer_witness :
  exists s',
    wchdir_compat (Ptr 1) (Toy.start_utf8 (Toy.donnees ++ [0]) [] Toy.home)
    = Done 0 s' /\
    exists bs,
      sys_chdir bs Toy.home = (SysOk tt, world s').
Proof.
  pose proof (proj1 (result_is_the_kernels_answer (OS := Toy.posix)) (Ptr 1)
                (Toy.start_utf8 (Toy.donnees ++ [0]) [] Toy.home)) as Hthm.
  destruct (wchdir_compat (Ptr 1)
              (Toy.start_utf8 (Toy.donnees ++ [0]) [] Toy.home))
    as [r s'|] eqn:E.
  - assert (r = 0) as -> by (vm_compute in E; by injection E as <- _).
    exists s'. split; [reflexivity|].
    destruct (Hthm 0 s' eq_refl) as [[Hr _] | (bs & a & Ha & Hr)].
    + discriminate Hr.
    + destruct a as [[]|]; [|discriminate Hr]. exists bs. exact Ha.
  - vm_compute in E. discriminate E.
Defined.

(** ** The argument of [get_pgmptr_compat] *)

Section ProgramPathArgument.
Context {W : Type} {OS : Posix W}.
Implicit Types s : state W.

(** X22.  [get_pgmptr_compat] does not test its argument.  When the
    link of the executable can be read, a null [ptr] is stored through:
    the call has no defined result.  (When the link cannot be read the
    function returns -1 before the store.) *)
Theorem get_pgmptr_compat_null_unchecked :
  forall s target w',
    sys_readlink proc_self_exe (world s) = (SysOk target, w') ->
    get_pgmptr_compat None s = Fault.
Proof.
  intros s target w' Hsys.
  unfold get_pgmptr_compat, readlink, bind, modify, syscall.
  cbn [world log]. rewrite Hsys.
  destruct (store_at _ _ _) as [u s1|]; [|done]. unfold ret.
  rewrite (proj2 (Z.eqb_neq _ (-1))) by lia.
  by destruct (store_idx _ _ _ _).
Qed.

End ProgramPathArgument.

Lemma get_pgmptr_compat_null_unchecked_witness :
  get_pgmptr_compat None (Toy.start [] [] Toy.home) = Fault.
Proof.
  apply (get_pgmptr_compat_null_unchecked (OS := Toy.posix)
           (Toy.start [] [] Toy.home) [47; 98; 105; 110; 47; 120] Toy.home).
  reflexivity.
Defined.
